(** * Priceverse: the trade-to-price pipeline

    A shallow embedding of the stream aggregator (VWAP core), the OHLCV
    aggregator, the price-history and candle repositories, the sliding-window
    rate limiter and the CBR fiat-rate accessor, together with the properties
    their specification states about them.

    Conventions of the embedding.
    - A JavaScript [number] that holds a price, a volume or a rate is an exact
      rational ([Qc]); binary rounding is not modelled.  The three non-finite
      values a division or a [parseFloat] can produce are kept ([JsNumber]).
    - Epoch milliseconds, counters and limits are integers ([Z]).
    - Redis keys and pub/sub channels are strings; the key space is a [gmap].
    - An [await]ed call that may reject returns an [Outcome]; the state it
      leaves behind is threaded explicitly. *)

From stdpp Require Import gmap strings list numbers sorting.
From Stdlib Require Import QArith Qcanon Qround.

Open Scope Z_scope.

(** ** JavaScript numbers *)

Module Js.

Inductive JsNumber : Type :=
| JNum (q : Qc)
| JNaN
| JPosInf
| JNegInf.

Definition Qc_ltb (a b : Qc) : bool := bool_decide (a < b)%Qc.

(** [a / b] on two finite numbers: IEEE division by zero. *)
Definition js_div (a b : Qc) : JsNumber :=
  if decide (b = 0%Qc) then
    if decide (a = 0%Qc) then JNaN
    else if Qc_ltb 0 a then JPosInf else JNegInf
  else JNum (a / b)%Qc.

(** [a * b]. *)
Definition js_mul (a b : JsNumber) : JsNumber :=
  match a, b with
  | JNaN, _ | _, JNaN => JNaN
  | JNum x, JNum y => JNum (x * y)%Qc
  | JNum x, JPosInf | JPosInf, JNum x =>
      if decide (x = 0%Qc) then JNaN
      else if Qc_ltb 0 x then JPosInf else JNegInf
  | JNum x, JNegInf | JNegInf, JNum x =>
      if decide (x = 0%Qc) then JNaN
      else if Qc_ltb 0 x then JNegInf else JPosInf
  | JPosInf, JPosInf | JNegInf, JNegInf => JPosInf
  | JPosInf, JNegInf | JNegInf, JPosInf => JNegInf
  end.

(** [x > 0]; any comparison with [NaN] is false. *)
Definition js_gt0 (x : JsNumber) : bool :=
  match x with
  | JNum q => Qc_ltb 0 q
  | JPosInf => true
  | JNaN | JNegInf => false
  end.

Definition js_isNaN (x : JsNumber) : bool :=
  match x with JNaN => true | _ => false end.

(** The result of [Number.prototype.toFixed(8)]: a decimal with eight
    fractional digits, held as its count of 1e-8 units, or one of the three
    words [NaN], [Infinity], [-Infinity].  (The exponent notation of values
    from 1e21 on is not told apart.) *)
Inductive Fixed8 : Type :=
| F8 (units : Z)
| F8NaN
| F8PosInf
| F8NegInf.

Definition scale8 : Z := 100000000.

(** Nearest multiple of 1e-8, ties away from zero. *)
Definition round8 (q : Qc) : Z :=
  if Qc_ltb q 0
  then - Qfloor (- q * inject_Z scale8 + (1 # 2))%Q
  else Qfloor (q * inject_Z scale8 + (1 # 2))%Q.

Definition toFixed8 (x : JsNumber) : Fixed8 :=
  match x with
  | JNum q => F8 (round8 q)
  | JNaN => F8NaN
  | JPosInf => F8PosInf
  | JNegInf => F8NegInf
  end.

(** A JavaScript [Set<string>] keeps insertion order; [add] of a present
    element changes nothing. *)
Definition set_add (x : string) (s : list string) : list string :=
  if decide (x ∈ s) then s else s ++ [x].

Fixpoint Qcsum (l : list Qc) : Qc :=
  match l with
  | [] => 0%Qc
  | x :: r => (x + Qcsum r)%Qc
  end.


(** [parseFloat] of a [toFixed(8)] text. *)
Definition parseFloat8 (x : Fixed8) : JsNumber :=
  match x with
  | F8 units => JNum (Q2Qc (units # 100000000))
  | F8NaN => JNaN
  | F8PosInf => JPosInf
  | F8NegInf => JNegInf
  end.

End Js.

Import Js.

(** ** Outcomes of awaited calls *)

Inductive Outcome (A : Type) : Type :=
| Ok (a : A)
| Throw.
Arguments Ok {A} a.
Arguments Throw {A}.

(** Whether an awaited call resolved. *)
Definition Outcome_is_ok {A} (o : Outcome A) : bool :=
  match o with Ok _ => true | Throw => false end.

(** ** Stream aggregator process (processes/aggregators/stream-aggregator) *)

Module StreamAggregator.

Definition AGGREGATION_INTERVAL : Z := 10000.
Definition WINDOW_SIZE : Z := 30000.
Definition BUFFER_KEY_PREFIX : string := "buffer:trades:".
Definition MAX_CONSECUTIVE_ERRORS : Z := 10.
Definition ERROR_RESET_INTERVAL : Z := 60000.

Definition USD_PAIRS : list string := ["btc-usd"; "xmr-usd"; "eth-usd"].

(** shared/types.ts *)
Record TradeEntry : Type := {
  trade_price : Qc;
  trade_volume : Qc;
  trade_timestamp : Z;
  trade_exchange : string;
}.

#[global] Instance TradeEntry_eq_dec : EqDecision TradeEntry.
Proof. solve_decision. Defined.

Record VwapResult : Type := {
  vwap_pair : string;
  vwap_price : JsNumber;
  vwap_volume : Qc;
  vwap_sources : list string;
  vwap_timestamp : Z;
}.

(** database/repositories/price-history.repository.ts; [price] and [volume]
    are the strings [toFixed(8)] returns. *)
Record CreatePriceHistoryInput : Type := {
  row_pair : string;
  row_price : Fixed8;
  row_timestamp : Z;
  row_method : string;
  row_sources : list string;
  row_volume : Fixed8;
}.

(** The JSON object [cachePrice] stores and publishes. *)
Record CacheValue : Type := {
  cache_price : Fixed8;
  cache_timestamp : Z;
  cache_sources : list string;
}.

(** A sorted-set member with its score.  The member is the JSON text of a
    [TradeEntry]; [JSON.stringify] followed by [JSON.parse] is taken as the
    identity on the record. *)
Abbreviation ZEntry := (Z * TradeEntry)%type (only parsing).

(** What the process talks to: Redis (sorted sets, string keys with a TTL,
    pub/sub) and the [price_history] table.  [redis_ok] says whether Redis
    commands resolve; [db_accepts] says for which rows [create] resolves. *)
Record World : Type := {
  redis_ok : bool;
  zsets : gmap string (list ZEntry);
  strings : gmap string (CacheValue * Z);
  published : list (string * CacheValue);
  db_accepts : CreatePriceHistoryInput -> bool;
  price_history : list CreatePriceHistoryInput;
}.

(** *** A state-and-exception monad over [World] *)

Definition M (A : Type) : Type := World -> Outcome A * World.

Definition ret {A} (a : A) : M A := fun w => (Ok a, w).

Definition bind {A B} (m : M A) (k : A -> M B) : M B :=
  fun w =>
    match m w with
    | (Ok a, w') => k a w'
    | (Throw, w') => (Throw, w')
    end.

Notation "'let*' x ':=' m 'in' k" := (bind m (fun x => k))
  (at level 10, x name, m at level 100, k at level 200).
Notation "'do' m 'then' k" := (bind m (fun _ => k))
  (at level 10, m at level 100, k at level 200).

(** *** Redis commands *)

Definition zget (w : World) (key : string) : list ZEntry :=
  default [] (zsets w !! key).

Definition in_score_range (lo hi : Z) (e : ZEntry) : Prop := lo <= e.1 <= hi.

#[global] Instance in_score_range_dec lo hi e : Decision (in_score_range lo hi e).
Proof. unfold in_score_range. apply _. Defined.

(** ZRANGEBYSCORE key min max: both bounds inclusive. *)
Definition zrangebyscore (key : string) (lo hi : Z) : M (list TradeEntry) :=
  fun w =>
    if redis_ok w
    then (Ok ((filter (in_score_range lo hi) (zget w key)).*2), w)
    else (Throw, w).

Definition set_zsets (w : World) (z : gmap string (list ZEntry)) : World :=
  {| redis_ok := redis_ok w; zsets := z; strings := strings w;
     published := published w; db_accepts := db_accepts w;
     price_history := price_history w |}.

(** ZREMRANGEBYSCORE key min max: removes the members with
    [min <= score <= max]. *)
Definition zremrangebyscore (key : string) (lo hi : Z) : M unit :=
  fun w =>
    if redis_ok w
    then (Ok tt,
          set_zsets w
            (<[key := filter (fun e => ~ in_score_range lo hi e) (zget w key)]>
               (zsets w)))
    else (Throw, w).

(** ZADD key score member: a member already present only changes score. *)
Definition zadd (key : string) (score : Z) (member : TradeEntry) : M unit :=
  fun w =>
    if redis_ok w
    then (Ok tt,
          set_zsets w
            (<[key := filter (fun e => e.2 <> member) (zget w key)
                        ++ [(score, member)]]> (zsets w)))
    else (Throw, w).

(** *** processBatch *)

(** The fields of a stream entry after [parseFloat] and [parseInt]. *)
Record StreamFields : Type := {
  field_pair : string;
  field_price : Qc;
  field_volume : Qc;
  field_timestamp : Z;
}.

(** The body of the inner loop of [processBatch]: the trade is buffered
    under its pair with its event-time as score.  The XACK that follows is
    bookkeeping of the venue log, which this state does not hold. *)
Definition processEntry (exchange : string) (fields : StreamFields) : M unit :=
  let trade := {| trade_price := field_price fields;
                  trade_volume := field_volume fields;
                  trade_timestamp := field_timestamp fields;
                  trade_exchange := exchange |} in
  let pair := field_pair fields in
  let bufferKey := BUFFER_KEY_PREFIX +:+ pair in
  zadd bufferKey (trade_timestamp trade) trade.

Fixpoint processBatch (exchange : string) (entries : list StreamFields)
  : M unit :=
  match entries with
  | [] => ret tt
  | fields :: rest =>
      do processEntry exchange fields then processBatch exchange rest
  end.

Definition setex (key : string) (ttl : Z) (v : CacheValue) : M unit :=
  fun w =>
    if redis_ok w
    then (Ok tt,
          {| redis_ok := redis_ok w; zsets := zsets w;
             strings := <[key := (v, ttl)]> (strings w);
             published := published w; db_accepts := db_accepts w;
             price_history := price_history w |})
    else (Throw, w).

Definition publish (channel : string) (v : CacheValue) : M unit :=
  fun w =>
    if redis_ok w
    then (Ok tt,
          {| redis_ok := redis_ok w; zsets := zsets w; strings := strings w;
             published := published w ++ [(channel, v)];
             db_accepts := db_accepts w;
             price_history := price_history w |})
    else (Throw, w).

(** priceHistoryRepo.create *)
Definition create (r : CreatePriceHistoryInput) : M unit :=
  fun w =>
    if db_accepts w r
    then (Ok tt,
          {| redis_ok := redis_ok w; zsets := zsets w; strings := strings w;
             published := published w; db_accepts := db_accepts w;
             price_history := price_history w ++ [r] |})
    else (Throw, w).

(** *** calculateVwap *)

(** One iteration of the [for (const tradeStr of trades)] loop over
    [(totalPriceVolume, totalVolume, sources)]. *)
Definition vwap_step (acc : Qc * Qc * list string) (trade : TradeEntry)
  : Qc * Qc * list string :=
  let '(totalPriceVolume, totalVolume, sources) := acc in
  ((totalPriceVolume + trade_price trade * trade_volume trade)%Qc,
   (totalVolume + trade_volume trade)%Qc,
   set_add (trade_exchange trade) sources).

Definition calculateVwap (pair : string) (now : Z) : M (option VwapResult) :=
  let bufferKey := BUFFER_KEY_PREFIX +:+ pair in
  let windowStart := now - WINDOW_SIZE in
  let* trades := zrangebyscore bufferKey windowStart now in
  if decide (length trades = 0%nat) then ret None
  else
    let '(totalPriceVolume, totalVolume, sources) :=
      fold_left vwap_step trades (0%Qc, 0%Qc, []) in
    let vwapPrice := js_div totalPriceVolume totalVolume in
    do zremrangebyscore bufferKey 0 windowStart then
    ret (Some {| vwap_pair := pair;
                 vwap_price := vwapPrice;
                 vwap_volume := totalVolume;
                 vwap_sources := sources;
                 vwap_timestamp := now |}).

(** *** savePrices and cachePrice *)

(** [String.prototype.replace(pattern, replacement)] with a string pattern:
    the first occurrence only. *)
Fixpoint replace (pattern replacement s : string) : string :=
  if String.prefix pattern s
  then replacement +:+
       String.substring (String.length pattern)
         (String.length s - String.length pattern) s
  else match s with
       | EmptyString => EmptyString
       | String c rest => String c (replace pattern replacement rest)
       end.

Definition cachePrice (vwap : VwapResult) : M unit :=
  let cacheKey := "price:" +:+ vwap_pair vwap in
  let cacheValue := {| cache_price := toFixed8 (vwap_price vwap);
                       cache_timestamp := vwap_timestamp vwap;
                       cache_sources := vwap_sources vwap |} in
  do setex cacheKey 60 cacheValue then
  publish cacheKey cacheValue.

Definition usdInput (vwap : VwapResult) : CreatePriceHistoryInput :=
  {| row_pair := vwap_pair vwap;
     row_price := toFixed8 (vwap_price vwap);
     row_timestamp := vwap_timestamp vwap;
     row_method := "vwap";
     row_sources := vwap_sources vwap;
     row_volume := toFixed8 (JNum (vwap_volume vwap)) |}.

Definition rubInput (vwap : VwapResult) (usdRubRate : JsNumber)
  : CreatePriceHistoryInput :=
  let rubPair := replace "-usd" "-rub" (vwap_pair vwap) in
  let rubPrice := js_mul (vwap_price vwap) usdRubRate in
  {| row_pair := rubPair;
     row_price := toFixed8 rubPrice;
     row_timestamp := vwap_timestamp vwap;
     row_method := "vwap";
     row_sources := vwap_sources vwap ++ ["cbr"];
     row_volume := toFixed8 (JNum (vwap_volume vwap)) |}.

(** [getRate] is what [await this.cbrRate.getRate()] settles to. *)
Definition savePrices (getRate : Outcome JsNumber) (vwap : VwapResult)
  : M unit :=
  do create (usdInput vwap) then
  let* usdRubRate := (fun w => (getRate, w)) in
  if js_gt0 usdRubRate then
    let rubPair := replace "-usd" "-rub" (vwap_pair vwap) in
    let rubPrice := js_mul (vwap_price vwap) usdRubRate in
    do create (rubInput vwap usdRubRate) then
    cachePrice {| vwap_pair := rubPair;
                  vwap_price := rubPrice;
                  vwap_volume := vwap_volume vwap;
                  vwap_sources := vwap_sources vwap ++ ["cbr"];
                  vwap_timestamp := vwap_timestamp vwap |}
  else ret tt.

(** *** The tick: aggregate *)

(** The fields of the process object. *)
Record Process : Type := {
  isRunning : bool;
  consecutiveErrors : Z;
  lastErrorTime : Z;
  lastSuccessfulAggregation : Z;
  aggregationCount : Z;
}.

Definition initial : Process :=
  {| isRunning := false; consecutiveErrors := 0; lastErrorTime := 0;
     lastSuccessfulAggregation := 0; aggregationCount := 0 |}.

(** The body of the [try] block for one pair; its result says whether the
    pair's canonical price went all the way through. *)
Definition aggregate_pair (getRate : Outcome JsNumber) (now : Z)
    (pair : string) : M bool :=
  let* vwap := calculateVwap pair now in
  match vwap with
  | Some v =>
      do savePrices getRate v then
      do cachePrice v then
      ret true
  | None => ret false
  end.

(** One pass of the [for (const pair of USD_PAIRS)] loop with its
    [try]/[catch]: a rejection is logged and the loop goes on. *)
Definition aggregate_step (getRate : Outcome JsNumber) (now : Z)
    (acc : Process * World) (pair : string) : Process * World :=
  let '(p, w) := acc in
  match aggregate_pair getRate now pair w with
  | (Ok true, w') =>
      ({| isRunning := isRunning p;
          consecutiveErrors := consecutiveErrors p;
          lastErrorTime := lastErrorTime p;
          lastSuccessfulAggregation := lastSuccessfulAggregation p;
          aggregationCount := aggregationCount p + 1 |}, w')
  | (Ok false, w') => (p, w')
  | (Throw, w') => (p, w')
  end.

(** [now] is the reading of [Date.now()] during the tick; the awaits of one
    tick are taken to settle within the same millisecond. *)
Definition aggregate (getRate : Outcome JsNumber) (now : Z)
    (p : Process) (w : World) : Process * World :=
  let '(p', w') := fold_left (aggregate_step getRate now) USD_PAIRS (p, w) in
  ({| isRunning := isRunning p';
      consecutiveErrors := consecutiveErrors p';
      lastErrorTime := lastErrorTime p';
      lastSuccessfulAggregation := now;
      aggregationCount := aggregationCount p' |}, w').

(** The tick with its clock readings apart: [calculateVwap] reads
    [Date.now()] once for each pair, after the awaits of the pairs before
    it, [savePrices] awaits [cbrRate.getRate()] once for each pair, and
    [finished] is the reading taken after the loop.  [aggregate] above is
    the tick whose readings all fall into one millisecond and whose rate
    is the same for the three pairs. *)
Definition aggregate_timed (getRate : string -> Outcome JsNumber)
    (clock : string -> Z) (finished : Z)
    (p : Process) (w : World) : Process * World :=
  let '(p', w') :=
    fold_left (fun acc pair =>
                 aggregate_step (getRate pair) (clock pair) acc pair)
      USD_PAIRS (p, w) in
  ({| isRunning := isRunning p';
      consecutiveErrors := consecutiveErrors p';
      lastErrorTime := lastErrorTime p';
      lastSuccessfulAggregation := finished;
      aggregationCount := aggregationCount p' |}, w').

(** *** consumeStreams: the error counter *)

(** One turn of the [while (this.isRunning)] loop, as far as the process
    fields go: [body_ok] says whether the reads and [processBatch] of this
    turn all resolved.  The back-off sleep takes time only. *)
Definition consume_iteration (body_ok : bool) (now : Z) (p : Process)
  : Process :=
  if body_ok then
    if bool_decide (0 < consecutiveErrors p)
       && bool_decide (ERROR_RESET_INTERVAL < now - lastErrorTime p)
    then {| isRunning := isRunning p; consecutiveErrors := 0;
            lastErrorTime := lastErrorTime p;
            lastSuccessfulAggregation := lastSuccessfulAggregation p;
            aggregationCount := aggregationCount p |}
    else p
  else
    let errors := consecutiveErrors p + 1 in
    {| isRunning :=
         if bool_decide (MAX_CONSECUTIVE_ERRORS <= errors) then false
         else isRunning p;
       consecutiveErrors := errors;
       lastErrorTime := now;
       lastSuccessfulAggregation := lastSuccessfulAggregation p;
       aggregationCount := aggregationCount p |}.

(** *** checkHealth *)

Inductive CheckStatus : Type := pass | warn | fail.
Inductive HealthStatus : Type := healthy | degraded | unhealthy.

#[global] Instance CheckStatus_eq_dec : EqDecision CheckStatus.
Proof. solve_decision. Defined.

(** A check's [message] is a log text and is left out. *)
Record HealthReport : Type := {
  status : HealthStatus;
  checks : list (string * CheckStatus);
  timestamp : Z;
}.

Definition checkHealth (p : Process) (now : Z) : HealthReport :=
  let timeSinceLastAggregation := now - lastSuccessfulAggregation p in
  let checks :=
    [ ("running", if isRunning p then pass else fail);
      ("aggregation_frequency",
       if bool_decide (timeSinceLastAggregation < AGGREGATION_INTERVAL * 3)
       then pass else warn);
      ("error_rate",
       if bool_decide (consecutiveErrors p < 5) then pass
       else if bool_decide (consecutiveErrors p < 10) then warn else fail) ] in
  let hasFailure := existsb (fun c => bool_decide (c.2 = fail)) checks in
  let hasWarning := existsb (fun c => bool_decide (c.2 = warn)) checks in
  {| status := if hasFailure then unhealthy
               else if hasWarning then degraded else healthy;
     checks := checks;
     timestamp := now |}.


(** *** consumeStreams: the loop *)

(** The [while (this.isRunning)] loop over the turns of a run, each given
    by whether its body resolved and the clock reading of its bookkeeping.
    The throw of the circuit breaker ends the loop with [isRunning] false,
    which is what the loop condition reads. *)
Fixpoint consumeStreams (turns : list (bool * Z)) (p : Process) : Process :=
  match turns with
  | [] => p
  | (body_ok, now) :: rest =>
      if isRunning p
      then consumeStreams rest (consume_iteration body_ok now p)
      else p
  end.

End StreamAggregator.

(** ** Price history repository (database/repositories/price-history) *)

Inductive OrderBy : Type := asc | desc.

Module PriceHistoryRepository.

Definition DEFAULT_LIMIT : Z := 1000.
Definition MAX_LIMIT : Z := 10000.

(** A row of [price_history] as a query returns it.  [ph_price] and
    [ph_volume] are the values [parseFloat] gives for the decimal columns,
    taken to hold finite decimals; a NULL volume is [None]. *)
Record PriceHistoryEntity : Type := {
  ph_pair : string;
  ph_price : Qc;
  ph_timestamp : Z;
  ph_method : string;
  ph_sources : list string;
  ph_volume : option Qc;
}.

Record PriceHistoryQueryOptions : Type := {
  opt_pair : string;
  opt_from : option Z;
  opt_to : option Z;
  opt_limit : option Z;
  opt_offset : option Z;
  opt_orderBy : option OrderBy;
}.

Definition ts_le (a b : PriceHistoryEntity) : Prop :=
  ph_timestamp a <= ph_timestamp b.
Definition ts_ge (a b : PriceHistoryEntity) : Prop :=
  ph_timestamp b <= ph_timestamp a.

#[global] Instance ts_le_dec a b : Decision (ts_le a b).
Proof. unfold ts_le. apply _. Defined.
#[global] Instance ts_ge_dec a b : Decision (ts_ge a b).
Proof. unfold ts_ge. apply _. Defined.

(** ORDER BY timestamp, by a merge sort of the selected rows.  LIMIT and
    OFFSET take a row count; a negative one counts as zero here. *)
Definition order_by (o : OrderBy) (rows : list PriceHistoryEntity)
  : list PriceHistoryEntity :=
  match o with
  | asc => merge_sort ts_le rows
  | desc => merge_sort ts_ge rows
  end.

Definition findByPairInRange (options : PriceHistoryQueryOptions)
    (table : list PriceHistoryEntity) : list PriceHistoryEntity :=
  let limit := Z.min (default DEFAULT_LIMIT (opt_limit options)) MAX_LIMIT in
  let query := filter (fun r => ph_pair r = opt_pair options) table in
  let query :=
    match opt_from options with
    | Some from => filter (fun r => from <= ph_timestamp r) query
    | None => query
    end in
  let query :=
    match opt_to options with
    | Some to => filter (fun r => ph_timestamp r <= to) query
    | None => query
    end in
  let query := order_by (default desc (opt_orderBy options)) query in
  let query :=
    match opt_offset options with
    | Some offset =>
        if decide (offset = 0) then query else drop (Z.to_nat offset) query
    | None => query
    end in
  take (Z.to_nat limit) query.


(** *** getLatestPrice, getFirstPriceAfter, getLastPriceBefore,
        countInRange, deleteOlderThan *)

Definition of_pair (pair : string) (table : list PriceHistoryEntity)
  : list PriceHistoryEntity :=
  filter (fun r => ph_pair r = pair) table.

Definition getLatestPrice (pair : string) (table : list PriceHistoryEntity)
  : option PriceHistoryEntity :=
  head (take 1 (order_by desc (of_pair pair table))).

Definition getFirstPriceAfter (pair : string) (after : Z)
    (table : list PriceHistoryEntity) : option PriceHistoryEntity :=
  head (take 1 (order_by asc
                  (filter (fun r => after <= ph_timestamp r)
                     (of_pair pair table)))).

Definition getLastPriceBefore (pair : string) (before : Z)
    (table : list PriceHistoryEntity) : option PriceHistoryEntity :=
  head (take 1 (order_by desc
                  (filter (fun r => ph_timestamp r <= before)
                     (of_pair pair table)))).

(** [from] is inclusive and [to] exclusive. *)
Definition countInRange (pair : string) (from to : Z)
    (table : list PriceHistoryEntity) : Z :=
  Z.of_nat (length (filter (fun r => ph_timestamp r < to)
                      (filter (fun r => from <= ph_timestamp r)
                         (of_pair pair table)))).

(** DELETE ... WHERE timestamp < cutoffDate: the number of rows deleted and
    the rows that stay. *)
Definition deleteOlderThan (cutoffDate : Z) (table : list PriceHistoryEntity)
  : Z * list PriceHistoryEntity :=
  (Z.of_nat (length (filter (fun r => ph_timestamp r < cutoffDate) table)),
   filter (fun r => ~ ph_timestamp r < cutoffDate) table).

End PriceHistoryRepository.

(** ** OHLCV repository (database/repositories/ohlcv) *)

Inductive ChartInterval : Type := I5min | I1hour | I1day.

Module OhlcvRepository.
Import PriceHistoryRepository.

(** A candle, as written and as read back ([id] and [created_at] are left
    out).  The decimal columns hold [toFixed(8)] strings. *)
Record CreateOhlcvCandleInput : Type := {
  candle_pair : string;
  candle_timestamp : Z;
  candle_open : Fixed8;
  candle_high : Fixed8;
  candle_low : Fixed8;
  candle_close : Fixed8;
  candle_volume : Fixed8;
  candle_vwap : option Fixed8;
  candle_trade_count : nat;
}.

Abbreviation OhlcvCandleEntity := CreateOhlcvCandleInput (only parsing).

(** A pagination cursor: the base64 text of the ISO-8601 form of a
    period-start, [Buffer.from(t.toISOString()).toString('base64')].
    [toISOString] keeps milliseconds and [new Date] of the decoded text
    reads them back, so a cursor is represented by the instant it encodes;
    only cursors this repository emitted are represented. *)
Record Cursor : Type := Base64Iso { cursor_instant : Z }.

#[global] Instance Cursor_eq_dec : EqDecision Cursor.
Proof. solve_decision. Defined.

Record OhlcvQueryOptions : Type := {
  opt_pair : string;
  opt_from : option Z;
  opt_to : option Z;
  opt_limit : option Z;
  opt_cursor : option Cursor;
  opt_orderBy : option OrderBy;
}.

Record CursorPaginatedCandles : Type := {
  page_candles : list OhlcvCandleEntity;
  nextCursor : option Cursor;
  previousCursor : option Cursor;
  hasMore : bool;
}.

Definition getTableName (interval : ChartInterval) : string :=
  match interval with
  | I5min => "price_history_5min"
  | I1hour => "price_history_1hour"
  | I1day => "price_history_1day"
  end.

(** The database behind the repositories; [db_up] says whether statements
    resolve. *)
Record Db : Type := {
  db_up : bool;
  price_history : list PriceHistoryEntity;
  candles : gmap string (list OhlcvCandleEntity);
}.

Definition table (db : Db) (tableName : string) : list OhlcvCandleEntity :=
  default [] (candles db !! tableName).

Definition candle_ts_le (a b : OhlcvCandleEntity) : Prop :=
  candle_timestamp a <= candle_timestamp b.
Definition candle_ts_ge (a b : OhlcvCandleEntity) : Prop :=
  candle_timestamp b <= candle_timestamp a.

#[global] Instance candle_ts_le_dec a b : Decision (candle_ts_le a b).
Proof. unfold candle_ts_le. apply _. Defined.
#[global] Instance candle_ts_ge_dec a b : Decision (candle_ts_ge a b).
Proof. unfold candle_ts_ge. apply _. Defined.

Definition order_by (o : OrderBy) (rows : list OhlcvCandleEntity)
  : list OhlcvCandleEntity :=
  match o with
  | asc => merge_sort candle_ts_le rows
  | desc => merge_sort candle_ts_ge rows
  end.

(** The rows the SELECT of [getCandlesWithCursor] returns, before
    [hasMore] is computed: WHERE, ORDER BY, LIMIT [limit + 1].  A page size
    below zero, which the database refuses, is outside this model. *)
Definition fetch (interval : ChartInterval) (options : OhlcvQueryOptions)
    (db : Db) : list OhlcvCandleEntity :=
  let tableName := getTableName interval in
  let limit := default 100 (opt_limit options) in
  let query :=
    filter (fun r => candle_pair r = opt_pair options) (table db tableName) in
  let query :=
    match opt_cursor options with
    | Some cursor =>
        let cursorTimestamp := cursor_instant cursor in
        filter (fun r => candle_timestamp r < cursorTimestamp) query
    | None => query
    end in
  let query :=
    match opt_from options with
    | Some from => filter (fun r => from <= candle_timestamp r) query
    | None => query
    end in
  let query :=
    match opt_to options with
    | Some to => filter (fun r => candle_timestamp r <= to) query
    | None => query
    end in
  take (Z.to_nat (limit + 1))
    (order_by (default desc (opt_orderBy options)) query).

Definition getCandlesWithCursor (interval : ChartInterval)
    (options : OhlcvQueryOptions) (db : Db) : Outcome CursorPaginatedCandles :=
  if db_up db then
    let limit := default 100 (opt_limit options) in
    let candles := fetch interval options db in
    let hasMore := bool_decide (limit < Z.of_nat (length candles)) in
    let resultCandles :=
      if hasMore then take (Z.to_nat limit) candles else candles in
    let nextCursor :=
      if hasMore then
        match last resultCandles with
        | Some lastCandle => Some (Base64Iso (candle_timestamp lastCandle))
        | None => None
        end
      else None in
    let previousCursor :=
      match opt_cursor options, resultCandles with
      | Some _, firstCandle :: _ =>
          Some (Base64Iso (candle_timestamp firstCandle))
      | _, _ => None
      end in
    Ok {| page_candles := resultCandles;
          nextCursor := nextCursor;
          previousCursor := previousCursor;
          hasMore := hasMore |}
  else Throw.

Definition same_key (a b : CreateOhlcvCandleInput) : bool :=
  bool_decide (candle_pair a = candle_pair b) &&
  bool_decide (candle_timestamp a = candle_timestamp b).

(** INSERT ... ON CONFLICT (pair, timestamp) DO UPDATE. *)
Definition upsert_row (c : CreateOhlcvCandleInput)
    (rows : list OhlcvCandleEntity) : list OhlcvCandleEntity :=
  if existsb (same_key c) rows
  then map (fun r => if same_key c r then c else r) rows
  else rows ++ [c].

Definition upsertCandle (interval : ChartInterval)
    (candle : CreateOhlcvCandleInput) (db : Db) : Outcome unit * Db :=
  let tableName := getTableName interval in
  if db_up db
  then (Ok tt,
        {| db_up := db_up db; price_history := price_history db;
           candles := <[tableName := upsert_row candle (table db tableName)]>
                        (candles db) |})
  else (Throw, db).


(** *** getCandles, getLatestCandle, getCandleCount, deleteOlderThan *)

(** The rows of a pair in the table of an interval. *)
Definition pair_rows (interval : ChartInterval) (pair : string) (db : Db)
  : list OhlcvCandleEntity :=
  filter (fun r => candle_pair r = pair) (table db (getTableName interval)).

Definition getCandleCount (interval : ChartInterval) (pair : string)
    (db : Db) : Outcome Z :=
  if db_up db
  then Ok (Z.of_nat (length (pair_rows interval pair db)))
  else Throw.

(** Offset pagination: COUNT, then ORDER BY timestamp DESC LIMIT [limit]
    OFFSET [offset].  A negative [limit] or [offset], which the database
    refuses, is outside this model. *)
Definition getCandles (interval : ChartInterval) (pair : string)
    (limit offset : Z) (db : Db)
  : Outcome (list OhlcvCandleEntity * Z) :=
  if db_up db then
    let total := Z.of_nat (length (pair_rows interval pair db)) in
    let candles :=
      take (Z.to_nat limit)
        (drop (Z.to_nat offset)
           (order_by desc (pair_rows interval pair db))) in
    Ok (candles, total)
  else Throw.

Definition getLatestCandle (interval : ChartInterval) (pair : string)
    (db : Db) : Outcome (option OhlcvCandleEntity) :=
  if db_up db
  then Ok (head (take 1 (order_by desc (pair_rows interval pair db))))
  else Throw.

(** DELETE ... WHERE timestamp < cutoffDate; the result is the number of
    rows deleted. *)
Definition deleteOlderThan (interval : ChartInterval) (cutoffDate : Z)
    (db : Db) : Outcome Z * Db :=
  let tableName := getTableName interval in
  if db_up db then
    let rows := table db tableName in
    (Ok (Z.of_nat (length (filter (fun r => candle_timestamp r < cutoffDate)
                             rows))),
     {| db_up := db_up db; price_history := price_history db;
        candles :=
          <[tableName := filter (fun r => ~ candle_timestamp r < cutoffDate)
                           rows]> (candles db) |})
  else (Throw, db).

End OhlcvRepository.

(** ** OHLCV aggregator process (processes/aggregators/ohlcv-aggregator) *)

Module OhlcvAggregator.
Import PriceHistoryRepository OhlcvRepository.

Definition USD_PAIRS : list string := ["btc-usd"; "xmr-usd"; "eth-usd"].
Definition RUB_PAIRS : list string := ["btc-rub"; "xmr-rub"; "eth-rub"].

(** One iteration of [for (const p of prices)] over
    [(high, low, totalVolume, priceVolumeSum)]. *)
Definition ohlcv_step (acc : Qc * Qc * Qc * Qc) (p : PriceHistoryEntity)
  : Qc * Qc * Qc * Qc :=
  let '(high, low, totalVolume, priceVolumeSum) := acc in
  let price := ph_price p in
  let volume := default 0%Qc (ph_volume p) in
  (if Qc_ltb high price then price else high,
   if Qc_ltb price low then price else low,
   (totalVolume + volume)%Qc,
   (priceVolumeSum + price * volume)%Qc).

(** The candle computed from a non-empty result set. *)
Definition candle_of (pair : string) (periodStart : Z)
    (first : PriceHistoryEntity) (prices : list PriceHistoryEntity)
  : CreateOhlcvCandleInput :=
  let open := ph_price first in
  let close := ph_price (default first (last prices)) in
  let '(high, low, totalVolume, priceVolumeSum) :=
    fold_left ohlcv_step prices (open, open, 0%Qc, 0%Qc) in
  let vwap :=
    if Qc_ltb 0 totalVolume
    then (priceVolumeSum / totalVolume)%Qc
    else ((open + close) / 2)%Qc in
  {| candle_pair := pair;
     candle_timestamp := periodStart;
     candle_open := toFixed8 (JNum open);
     candle_high := toFixed8 (JNum high);
     candle_low := toFixed8 (JNum low);
     candle_close := toFixed8 (JNum close);
     candle_volume := toFixed8 (JNum totalVolume);
     candle_vwap := Some (toFixed8 (JNum vwap));
     candle_trade_count := length prices |}.

(** The body of the [try] block for one pair: [Ok true] when a candle was
    upserted, [Ok false] on [continue]. *)
Definition aggregate_pair (interval : ChartInterval)
    (periodStart periodEnd : Z) (pair : string) (db : Db)
  : Outcome bool * Db :=
  if db_up db then
    let prices :=
      findByPairInRange
        {| PriceHistoryRepository.opt_pair := pair;
           PriceHistoryRepository.opt_from := Some periodStart;
           PriceHistoryRepository.opt_to := Some periodEnd;
           PriceHistoryRepository.opt_limit := None;
           PriceHistoryRepository.opt_offset := None;
           PriceHistoryRepository.opt_orderBy := Some asc |}
        (price_history db) in
    match prices with
    | [] => (Ok false, db)
    | first :: _ =>
        match upsertCandle interval
                (candle_of pair periodStart first prices) db with
        | (Ok _, db') => (Ok true, db')
        | (Throw, db') => (Throw, db')
        end
    end
  else (Throw, db).

Definition aggregate_step (interval : ChartInterval)
    (periodStart periodEnd : Z) (acc : nat * Db) (pair : string)
  : nat * Db :=
  let '(totalProcessed, db) := acc in
  match aggregate_pair interval periodStart periodEnd pair db with
  | (Ok true, db') => (S totalProcessed, db')
  | (Ok false, db') => (totalProcessed, db')
  | (Throw, db') => (totalProcessed, db')
  end.

Definition aggregateInterval (interval : ChartInterval)
    (periodStart periodEnd : Z) (db : Db) : nat * Db :=
  let allPairs := USD_PAIRS ++ RUB_PAIRS in
  fold_left (aggregate_step interval periodStart periodEnd) allPairs (0%nat, db).


(** *** The scheduled runs *)

Definition floorToInterval (date intervalMs : Z) : Z :=
  date / intervalMs * intervalMs.

(** [Date.UTC(y, m, d)] of the UTC calendar date of [now]: the midnight
    that starts its day.  An ECMAScript day has 86 400 000 ms, and a day
    number of 0 rolls over to the last day of the month before, so
    [Date.UTC(y, m, d - 1)] is the midnight 24 h earlier. *)
Definition utcMidnight (now : Z) : Z := now / 86400000 * 86400000.

Record IntervalStats : Type := {
  lastRun : Z;
  processed : nat;
}.

Record AggregationStats : Type := {
  stats_5min : IntervalStats;
  stats_1hour : IntervalStats;
  stats_1day : IntervalStats;
}.

Definition initial_stats : AggregationStats :=
  {| stats_5min := {| lastRun := 0; processed := 0 |};
     stats_1hour := {| lastRun := 0; processed := 0 |};
     stats_1day := {| lastRun := 0; processed := 0 |} |}.

Record RunResult : Type := {
  run_success : bool;
  run_processed : nat;
}.

(** [now] is the reading of [new Date()] at the start of a run and
    [finished] that of [Date.now()] after the aggregation. *)
Definition aggregate5Min (now finished : Z) (stats : AggregationStats)
    (db : Db) : RunResult * AggregationStats * Db :=
  let intervalMs := 5 * 60 * 1000 in
  let periodStart := floorToInterval now intervalMs in
  let periodEnd := periodStart + intervalMs in
  let '(processed, db') := aggregateInterval I5min periodStart periodEnd db in
  ({| run_success := true; run_processed := processed |},
   {| stats_5min := {| lastRun := finished; processed := processed |};
      stats_1hour := stats_1hour stats;
      stats_1day := stats_1day stats |},
   db').

Definition aggregate1Hour (now finished : Z) (stats : AggregationStats)
    (db : Db) : RunResult * AggregationStats * Db :=
  let intervalMs := 60 * 60 * 1000 in
  let periodStart := floorToInterval now intervalMs in
  let periodEnd := periodStart + intervalMs in
  let '(processed, db') := aggregateInterval I1hour periodStart periodEnd db in
  ({| run_success := true; run_processed := processed |},
   {| stats_5min := stats_5min stats;
      stats_1hour := {| lastRun := finished; processed := processed |};
      stats_1day := stats_1day stats |},
   db').

Definition aggregate1Day (now finished : Z) (stats : AggregationStats)
    (db : Db) : RunResult * AggregationStats * Db :=
  let periodStart := utcMidnight now - 86400000 in
  let periodEnd := utcMidnight now in
  let '(processed, db') := aggregateInterval I1day periodStart periodEnd db in
  ({| run_success := true; run_processed := processed |},
   {| stats_5min := stats_5min stats;
      stats_1hour := stats_1hour stats;
      stats_1day := {| lastRun := finished; processed := processed |} |},
   db').

(** *** checkHealth *)

(** [last ? Date.now() - last < maxAge : false]: a [lastRun] of 0 is
    "never". *)
Definition isRecentAggregation (last maxAge now : Z) : bool :=
  if decide (last = 0) then false else bool_decide (now - last < maxAge).

Definition checkHealth (stats : AggregationStats) (now : Z)
  : StreamAggregator.HealthReport :=
  let checks :=
    [ ("5min_aggregation",
       if isRecentAggregation (lastRun (stats_5min stats)) (10 * 60 * 1000) now
       then StreamAggregator.pass else StreamAggregator.warn);
      ("1hour_aggregation",
       if isRecentAggregation (lastRun (stats_1hour stats))
            (2 * 60 * 60 * 1000) now
       then StreamAggregator.pass else StreamAggregator.warn);
      ("1day_aggregation",
       if isRecentAggregation (lastRun (stats_1day stats))
            (25 * 60 * 60 * 1000) now
       then StreamAggregator.pass else StreamAggregator.warn) ] in
  let hasFailure := false in
  let hasWarning :=
    existsb (fun c => bool_decide (c.2 = StreamAggregator.warn)) checks in
  {| StreamAggregator.status :=
       if hasFailure then StreamAggregator.unhealthy
       else if hasWarning then StreamAggregator.degraded
            else StreamAggregator.healthy;
     StreamAggregator.checks := checks;
     StreamAggregator.timestamp := now |}.

End OhlcvAggregator.

(** ** Rate limiter service (modules/ratelimit) *)

Module RateLimit.

Definition RATE_LIMIT_PREFIX : string := "ratelimit:".

Record RateLimitConfig : Type := {
  enabled : bool;
  windowMs : Z;
  maxRequests : Z;
}.

(** configService defaults *)
Definition default_config : RateLimitConfig :=
  {| enabled := true; windowMs := 60000; maxRequests := 100 |}.

Record RateLimitResult : Type := {
  allowed : bool;
  remaining : Z;
  resetTime : Z;
  retryAfter : option Z;
}.

(** The member [`${now}:${random}`], kept as its two parts. *)
Abbreviation Member := (Z * string)%type (only parsing).

(** The sorted sets and key TTLs (seconds) of the shared store; [redis_ok]
    says whether [multi.exec()] resolves.  Key expiry itself is not
    played out. *)
Record Store : Type := {
  redis_ok : bool;
  zsets : gmap string (list (Z * Member));
  ttl : gmap string Z;
}.

Definition zget (s : Store) (key : string) : list (Z * Member) :=
  default [] (zsets s !! key).

Definition zremrangebyscore (lo hi : Z) (z : list (Z * Member))
  : list (Z * Member) :=
  filter (fun e => ~ (lo <= e.1 <= hi)) z.

Definition zcard (z : list (Z * Member)) : Z := Z.of_nat (length z).

Definition zadd (score : Z) (member : Member) (z : list (Z * Member))
  : list (Z * Member) :=
  filter (fun e => e.2 <> member) z ++ [(score, member)].

(** [Math.ceil(a / b)] for a positive [b]. *)
Definition ceil_div (a b : Z) : Z := - ((- a) / b).

Definition rate_key (clientId : string) (endpoint : option string) : string :=
  match endpoint with
  | Some e =>
      if decide (e = "") then RATE_LIMIT_PREFIX +:+ clientId
      else RATE_LIMIT_PREFIX +:+ clientId +:+ ":" +:+ e
  | None => RATE_LIMIT_PREFIX +:+ clientId
  end.

(** [now] is [Date.now()] and [random] the text
    [Math.random().toString(36).slice(2)] of this call. *)
Definition checkLimit (config : RateLimitConfig) (now : Z) (random : string)
    (clientId : string) (endpoint : option string) (s : Store)
  : RateLimitResult * Store :=
  if negb (enabled config) then
    ({| allowed := true; remaining := maxRequests config;
        resetTime := now + windowMs config; retryAfter := None |}, s)
  else
    let windowStart := now - windowMs config in
    let key := rate_key clientId endpoint in
    if redis_ok s then
      (* the MULTI block: zremrangebyscore, zcard, zadd, expire *)
      let z1 := zremrangebyscore 0 windowStart (zget s key) in
      let currentCount := zcard z1 in
      let z2 := zadd now (now, random) z1 in
      let s' := {| redis_ok := redis_ok s;
                   zsets := <[key := z2]> (zsets s);
                   ttl := <[key := ceil_div (windowMs config) 1000 + 1]>
                            (ttl s) |} in
      let remaining := Z.max 0 (maxRequests config - currentCount - 1) in
      let resetTime := now + windowMs config in
      if bool_decide (maxRequests config <= currentCount) then
        let retryAfter := windowMs config in
        ({| allowed := false; remaining := 0; resetTime := resetTime;
            retryAfter := Some retryAfter |}, s')
      else
        ({| allowed := true; remaining := remaining;
            resetTime := resetTime; retryAfter := None |}, s')
    else
      ({| allowed := true; remaining := maxRequests config;
          resetTime := now + windowMs config; retryAfter := None |}, s).

(** A client's successive calls, each with its clock reading and random
    text; the results come back in call order. *)
Fixpoint checkLimits (config : RateLimitConfig) (clientId : string)
    (endpoint : option string) (calls : list (Z * string)) (s : Store)
  : list RateLimitResult * Store :=
  match calls with
  | [] => ([], s)
  | (now, random) :: rest =>
      let '(r, s1) := checkLimit config now random clientId endpoint s in
      let '(rs, s2) := checkLimits config clientId endpoint rest s1 in
      (r :: rs, s2)
  end.

(** *** enforceLimit, getStatus, resetLimit *)

(** RateLimitExceededError, with the three fields its constructor takes;
    [retryAfter] is passed on as the result holds it. *)
Record RateLimitExceededError : Type := {
  error_remaining : Z;
  error_resetTime : Z;
  error_retryAfter : option Z;
}.

(** What [enforceLimit] settles to: the result, or the error it throws. *)
Inductive Enforced : Type :=
| Passed (result : RateLimitResult)
| Exceeded (error : RateLimitExceededError).

Definition enforceLimit (config : RateLimitConfig) (now : Z) (random : string)
    (clientId : string) (endpoint : option string) (s : Store)
  : Enforced * Store :=
  let '(result, s') := checkLimit config now random clientId endpoint s in
  if negb (allowed result) then
    (Exceeded {| error_remaining := remaining result;
                 error_resetTime := resetTime result;
                 error_retryAfter := retryAfter result |}, s')
  else (Passed result, s').

(** ZCOUNT key min max: both bounds inclusive. *)
Definition zcount (lo hi : Z) (z : list (Z * Member)) : Z :=
  Z.of_nat (length (filter (fun e => lo <= e.1 <= hi) z)).

(** getStatus only reads the store. *)
Definition getStatus (config : RateLimitConfig) (now : Z)
    (clientId : string) (endpoint : option string) (s : Store)
  : RateLimitResult :=
  if negb (enabled config) then
    {| allowed := true; remaining := maxRequests config;
       resetTime := now + windowMs config; retryAfter := None |}
  else
    let windowStart := now - windowMs config in
    let key := rate_key clientId endpoint in
    if redis_ok s then
      let count := zcount windowStart now (zget s key) in
      let remaining := Z.max 0 (maxRequests config - count) in
      {| allowed := bool_decide (0 < remaining); remaining := remaining;
         resetTime := now + windowMs config; retryAfter := None |}
    else
      {| allowed := true; remaining := maxRequests config;
         resetTime := now + windowMs config; retryAfter := None |}.

(** resetLimit: DEL key; a Redis error is logged and swallowed. *)
Definition resetLimit (clientId : string) (endpoint : option string)
    (s : Store) : Store :=
  let key := rate_key clientId endpoint in
  if redis_ok s then
    {| redis_ok := redis_ok s;
       zsets := delete key (zsets s);
       ttl := delete key (ttl s) |}
  else s.

End RateLimit.

(** ** CBR rate service (modules/collector/services/cbr-rate.service) *)

Module CbrRate.

Definition FALLBACK_RATE : Qc := Q2Qc 90.

Record Config : Type := {
  cacheTtl : Z;
  retryAttempts : Z;
  retryDelay : Z;
}.

Definition default_config : Config :=
  {| cacheTtl := 3600; retryAttempts := 3; retryDelay := 5000 |}.

(** The private fields of the service. *)
Record Service : Type := {
  lastFetchTime : Z;
  cachedRate : JsNumber;
  lastError : option string;
  consecutiveFailures : Z;
}.

Definition initial : Service :=
  {| lastFetchTime := 0; cachedRate := JNum 0%Qc; lastError := None;
     consecutiveFailures := 0 |}.

(** What one call of [fetchRate] meets: the request or the XML handling
    fails with a message, or a USD value is found and parsed
    ([parseFloat] of the text), after which [redis.setex] resolves or
    rejects. *)
Inductive Response : Type :=
| RequestFails (message : string)
| UsdValue (rate : JsNumber) (setex_ok : bool).

(** What [redis.get(CACHE_KEY)] settles to: a rejection, [null] or the
    empty string ([None]), or a text with the number [parseFloat] reads
    from it. *)
Definition CachedReply : Type := Outcome (option JsNumber).

Definition js_le0 (x : JsNumber) : bool :=
  match x with
  | JNum q => negb (Qc_ltb 0 q)
  | JNegInf => true
  | JPosInf | JNaN => false
  end.

(** fetchRate: a single attempt. *)
Definition fetchRate (now : Z) (response : Response) (sv : Service)
  : Outcome unit * Service :=
  match response with
  | RequestFails _ => (Throw, sv)
  | UsdValue rate setex_ok =>
      if js_isNaN rate || js_le0 rate then (Throw, sv)
      else if negb setex_ok then (Throw, sv)
      else (Ok tt,
            {| lastFetchTime := now; cachedRate := rate;
               lastError := lastError sv;
               consecutiveFailures := consecutiveFailures sv |})
  end.

(** The text kept in [lastError], shortened. *)
Definition error_message (response : Response) : string :=
  match response with
  | RequestFails m => m
  | UsdValue rate true => "Invalid rate value"
  | UsdValue rate false => "redis.setex rejected"
  end.

(** The [for (attempt = 1; attempt <= retryAttempts; attempt++)] loop with
    [n] iterations left; a missing response is a request that fails.  The
    back-off sleeps take time only. *)
Fixpoint fetch_attempts (n : nat) (now : Z) (responses : list Response)
    (sv : Service) : bool * Service * list Response :=
  match n with
  | O => (false, sv, responses)
  | S n' =>
      let response := default (RequestFails "fetch failed") (head responses) in
      match fetchRate now response sv with
      | (Ok _, sv') =>
          (true,
           {| lastFetchTime := lastFetchTime sv';
              cachedRate := cachedRate sv';
              lastError := None;
              consecutiveFailures := 0 |},
           tail responses)
      | (Throw, sv') =>
          fetch_attempts n' now (tail responses)
            {| lastFetchTime := lastFetchTime sv';
               cachedRate := cachedRate sv';
               lastError := Some (error_message response);
               consecutiveFailures := consecutiveFailures sv' + 1 |}
      end
  end.

Definition fetchRateWithRetry (config : Config) (now : Z)
    (responses : list Response) (sv : Service)
  : bool * Service * list Response :=
  fetch_attempts (Z.to_nat (retryAttempts config)) now responses sv.

(** getRate.  The result is an [Outcome] so that a rejection that escaped
    the [try]/[catch] would show. *)
Definition getRate (config : Config) (now : Z) (cached : CachedReply)
    (responses : list Response) (sv : Service)
  : Outcome JsNumber * Service :=
  let fromRedis :=
    match cached with
    | Ok (Some rate) =>
        if negb (js_isNaN rate) && js_gt0 rate then Some rate else None
    | Ok None => None
    | Throw => None  (* caught and logged *)
    end in
  match fromRedis with
  | Some rate => (Ok rate, sv)
  | None =>
      if js_gt0 (cachedRate sv) then (Ok (cachedRate sv), sv)
      else
        let '(success, sv', _) :=
          fetchRateWithRetry config now responses sv in
        if success && js_gt0 (cachedRate sv')
        then (Ok (cachedRate sv'), sv')
        else (Ok (JNum FALLBACK_RATE), sv')
  end.


(** *** isRateStale and getHealthStatus *)

(** [a === b] on numbers. *)
Definition js_strict_eq (a b : JsNumber) : bool :=
  match a, b with
  | JNum x, JNum y => bool_decide (x = y)
  | JPosInf, JPosInf | JNegInf, JNegInf => true
  | _, _ => false
  end.

Definition isRateStale (config : Config) (now : Z) (sv : Service) : bool :=
  let staleThreshold := cacheTtl config * 2 * 1000 in
  bool_decide (staleThreshold < now - lastFetchTime sv).

Definition getHealthStatus (config : Config) (now : Z) (sv : Service)
  : StreamAggregator.HealthStatus :=
  if js_strict_eq (cachedRate sv) (JNum 0%Qc) then StreamAggregator.unhealthy
  else if bool_decide (3 <= consecutiveFailures sv)
       then StreamAggregator.degraded
  else if isRateStale config now sv then StreamAggregator.degraded
  else StreamAggregator.healthy.

End CbrRate.


(** ** Chart queries (modules/aggregator and modules/charts services)

    [withRetry] re-issues a rejected call; against a database whose answer
    does not change between the attempts it settles as the call does, and
    that is how it is read here. *)

Module OhlcvAggregatorService.
Import OhlcvRepository.

(** The [options] object of the two services. *)
Record CursorOptions : Type := {
  co_limit : option Z;
  co_cursor : option Cursor;
  co_from : option Z;
  co_to : option Z;
}.

Definition getCandlesWithCursor (pair : string) (interval : ChartInterval)
    (options : CursorOptions) (db : Db) : Outcome CursorPaginatedCandles :=
  OhlcvRepository.getCandlesWithCursor interval
    {| opt_pair := pair;
       opt_limit := Some (default 100 (co_limit options));
       opt_cursor := co_cursor options;
       opt_from := co_from options;
       opt_to := co_to options;
       opt_orderBy := Some desc |} db.

Definition getLatestCandle (pair : string) (interval : ChartInterval)
    (db : Db) : Outcome (option OhlcvCandleEntity) :=
  OhlcvRepository.getLatestCandle interval pair db.

End OhlcvAggregatorService.

Module ChartsService.
Import OhlcvRepository OhlcvAggregatorService.

(** shared/types.ts; [oc_timestamp] is the instant whose ISO-8601 text the
    field holds. *)
Record OhlcvCandle : Type := {
  oc_timestamp : Z;
  oc_open : JsNumber;
  oc_high : JsNumber;
  oc_low : JsNumber;
  oc_close : JsNumber;
  oc_volume : JsNumber;
  oc_vwap : option JsNumber;
}.

(** The transformation both [getOhlcvWithCursor] and [getLatestCandle]
    apply to a row. *)
Definition toOhlcvCandle (c : OhlcvCandleEntity) : OhlcvCandle :=
  {| oc_timestamp := candle_timestamp c;
     oc_open := parseFloat8 (candle_open c);
     oc_high := parseFloat8 (candle_high c);
     oc_low := parseFloat8 (candle_low c);
     oc_close := parseFloat8 (candle_close c);
     oc_volume := parseFloat8 (candle_volume c);
     oc_vwap := match candle_vwap c with
                | Some v => Some (parseFloat8 v)
                | None => None
                end |}.

Record Pagination : Type := {
  pg_nextCursor : option Cursor;
  pg_previousCursor : option Cursor;
  pg_hasMore : bool;
  pg_limit : Z;
}.

Record CursorPaginatedOhlcvResponse : Type := {
  resp_candles : list OhlcvCandle;
  resp_pagination : Pagination;
}.

Definition getOhlcvWithCursor (pair : string) (interval : ChartInterval)
    (options : CursorOptions) (db : Db)
  : Outcome CursorPaginatedOhlcvResponse :=
  let limit := default 100 (co_limit options) in
  match OhlcvAggregatorService.getCandlesWithCursor pair interval options db
  with
  | Ok result =>
      let candles := map toOhlcvCandle (page_candles result) in
      Ok {| resp_candles := candles;
            resp_pagination :=
              {| pg_nextCursor := nextCursor result;
                 pg_previousCursor := previousCursor result;
                 pg_hasMore := hasMore result;
                 pg_limit := limit |} |}
  | Throw => Throw
  end.

Definition getLatestCandle (pair : string) (interval : ChartInterval)
    (db : Db) : Outcome (option OhlcvCandle) :=
  match OhlcvAggregatorService.getLatestCandle pair interval db with
  | Ok (Some result) => Ok (Some (toOhlcvCandle result))
  | Ok None => Ok None
  | Throw => Throw
  end.

(** What a run of the generator [streamCandles] has produced when it ends:
    the pages it yielded, and whether it returned or threw. *)
Record Streamed : Type := {
  pages : list (list OhlcvCandle);
  ended : Outcome unit;
}.

(** The [while (hasMore)] loop, run for at most [fuel] turns; [None] when
    the loop has not ended by then. *)
Fixpoint streamCandles_loop (fuel : nat) (pair : string)
    (interval : ChartInterval) (limit : Z) (from to : option Z)
    (cursor : option Cursor) (db : Db) : option Streamed :=
  match fuel with
  | O => None
  | S fuel' =>
      match getOhlcvWithCursor pair interval
              {| co_limit := Some limit; co_cursor := cursor;
                 co_from := from; co_to := to |} db with
      | Throw => Some {| pages := []; ended := Throw |}
      | Ok result =>
          let yielded :=
            if bool_decide (0 < length (resp_candles result))%nat
            then [resp_candles result] else [] in
          let hasMore := pg_hasMore (resp_pagination result) in
          let cursor := pg_nextCursor (resp_pagination result) in
          if hasMore then
            match streamCandles_loop fuel' pair interval limit from to
                    cursor db with
            | Some rest =>
                Some {| pages := yielded ++ pages rest;
                        ended := ended rest |}
            | None => None
            end
          else Some {| pages := yielded; ended := Ok tt |}
      end
  end.

(** [options] of [streamCandles] has no cursor: the first page is asked
    for without one. *)
Definition streamCandles (fuel : nat) (pair : string)
    (interval : ChartInterval) (limit : option Z) (from to : option Z)
    (db : Db) : option Streamed :=
  streamCandles_loop fuel pair interval (default 100 limit) from to None db.


(** *** getChartData *)







End ChartsService.

(** ** Prices service (modules/prices/services/prices.service) *)

Module PricesService.
Import PriceHistoryRepository.

Definition CACHE_TTL : Z := 60.
Definition STALE_THRESHOLD : Z := 120000.

Record PriceResponse : Type := {
  pr_pair : string;
  pr_price : JsNumber;
  pr_timestamp : Z;
}.

Record PriceChangeResponse : Type := {
  pc_pair : string;
  pc_startDate : Z;
  pc_endDate : Z;
  pc_startPrice : Qc;
  pc_endPrice : Qc;
  pc_changePercent : JsNumber;
}.

(** contracts/errors.ts, the codes this service throws. *)
Inductive PriceVerseErrorCode : Type :=
| PRICE_UNAVAILABLE
| INVALID_TIME_RANGE
| INVALID_PARAMS
| DATABASE_ERROR.

(** What a call settles to: a value, a [PriceVerseError] with its code, or
    the rejection of the database call itself. *)
Inductive Settled (A : Type) : Type :=
| Resolved (a : A)
| Rejected (code : PriceVerseErrorCode)
| Failed.
Arguments Resolved {A} a.
Arguments Rejected {A} code.
Arguments Failed {A}.

(** getPriceFromCache: the value under [price:<pair>], unless Redis
    rejects, the key is missing or the value is older than two minutes.
    That a key is gone once its TTL has run out is not played out: the
    store is read as it was written. *)
Definition getPriceFromCache (pair : string) (now : Z)
    (w : StreamAggregator.World) : option PriceResponse :=
  let cacheKey := "price:" +:+ pair in
  if StreamAggregator.redis_ok w then
    match StreamAggregator.strings w !! cacheKey with
    | Some (data, _) =>
        let age := now - StreamAggregator.cache_timestamp data in
        if bool_decide (STALE_THRESHOLD < age) then None
        else Some {| pr_pair := pair;
                     pr_price := parseFloat8 (StreamAggregator.cache_price data);
                     pr_timestamp := StreamAggregator.cache_timestamp data |}
    | None => None
    end
  else None.

(** getPriceFromDbWithRetry; [withRetry] is read as in the chart
    queries. *)
Definition getPriceFromDbWithRetry (pair : string) (db : OhlcvRepository.Db)
  : Settled (option PriceResponse) :=
  if OhlcvRepository.db_up db then
    match getLatestPrice pair (OhlcvRepository.price_history db) with
    | None => Resolved None
    | Some row =>
        Resolved (Some {| pr_pair := ph_pair row;
                          pr_price := JNum (ph_price row);
                          pr_timestamp := ph_timestamp row |})
    end
  else Rejected DATABASE_ERROR.

(** The SETEX that [cachePriceResponse] issues: key, TTL, and the price
    text and timestamp of the JSON value.  Its rejection is logged and
    swallowed. *)
Record CacheWrite : Type := {
  cw_key : string;
  cw_ttl : Z;
  cw_price : Fixed8;
  cw_timestamp : Z;
}.

Definition cachePriceResponse (price : PriceResponse) : CacheWrite :=
  {| cw_key := "price:" +:+ pr_pair price;
     cw_ttl := CACHE_TTL;
     cw_price := toFixed8 (pr_price price);
     cw_timestamp := pr_timestamp price |}.

(** getPrice, with the cache write it issues, if any. *)
Definition getPrice (pair : string) (now : Z) (w : StreamAggregator.World)
    (db : OhlcvRepository.Db) : Settled PriceResponse * option CacheWrite :=
  match getPriceFromCache pair now w with
  | Some cached => (Resolved cached, None)
  | None =>
      match getPriceFromDbWithRetry pair db with
      | Resolved (Some dbPrice) =>
          (Resolved dbPrice, Some (cachePriceResponse dbPrice))
      | Resolved None => (Rejected PRICE_UNAVAILABLE, None)
      | Rejected code => (Rejected code, None)
      | Failed => (Failed, None)
      end
  end.

(** getPriceChange from the validation of the time range on; [startDate]
    and [endDate] are the two instants the first lines of the method
    arrive at. *)
Definition getPriceChange (pair : string) (startDate endDate : Z)
    (db : OhlcvRepository.Db) : Settled PriceChangeResponse :=
  if bool_decide (endDate <= startDate) then Rejected INVALID_TIME_RANGE
  else if negb (OhlcvRepository.db_up db) then Failed
  else
    match getFirstPriceAfter pair startDate (OhlcvRepository.price_history db)
    with
    | None => Rejected PRICE_UNAVAILABLE
    | Some startPriceRow =>
        match getLastPriceBefore pair endDate
                (OhlcvRepository.price_history db) with
        | None => Rejected PRICE_UNAVAILABLE
        | Some endPriceRow =>
            let startPrice := ph_price startPriceRow in
            let endPrice := ph_price endPriceRow in
            let changePercent :=
              js_mul (js_div (endPrice - startPrice) startPrice)
                     (JNum (Q2Qc 100)) in
            Resolved {| pc_pair := pair;
                        pc_startDate := ph_timestamp startPriceRow;
                        pc_endDate := ph_timestamp endPriceRow;
                        pc_startPrice := startPrice;
                        pc_endPrice := endPrice;
                        pc_changePercent := changePercent |}
        end
    end.

End PricesService.

(** ** Data retention (modules/retention service) *)

Module RetentionService.
Import PriceHistoryRepository OhlcvRepository.

Record RetentionConfig : Type := {
  enabled : bool;
  priceHistoryDays : Z;
  candles5minDays : Z;
  candles1hourDays : Z;
  candles1dayDays : Z;
}.

Definition default_config : RetentionConfig :=
  {| enabled := true; priceHistoryDays := 7; candles5minDays := 30;
     candles1hourDays := 365; candles1dayDays := 0 |}.

Record RetentionStats : Type := {
  lastRun : Z;
  priceHistoryDeleted : Z;
  candles5minDeleted : Z;
  candles1hourDeleted : Z;
  candles1dayDeleted : Z;
  totalDeleted : Z;
  duration : Z;
}.

(** The two helpers issue the DELETE of the repositories' [deleteOlderThan]
    themselves; a rejection is logged and counted as 0 rows. *)
Definition deletePriceHistoryBefore (cutoff : Z) (db : Db) : Z * Db :=
  if db_up db then
    let '(deleted, rows) :=
      PriceHistoryRepository.deleteOlderThan cutoff (price_history db) in
    (deleted,
     {| db_up := db_up db; price_history := rows; candles := candles db |})
  else (0, db).

Definition deleteOhlcvBefore (interval : ChartInterval) (cutoff : Z)
    (db : Db) : Z * Db :=
  match OhlcvRepository.deleteOlderThan interval cutoff db with
  | (Ok deleted, db') => (deleted, db')
  | (Throw, db') => (0, db')
  end.

(** cleanup.  [getCutoffDate days] is the local midnight [days] days before
    the day of the run, which depends on the time zone of the host and is
    taken as given; [startTime] and [finished] are the two readings of
    [Date.now()].  Since both helpers swallow their errors, the [catch] of
    cleanup has nothing to catch. *)
Definition cleanup (getCutoffDate : Z -> Z) (startTime finished : Z)
    (config : RetentionConfig) (db : Db) : RetentionStats * Db :=
  let '(priceHistoryDeleted, db) :=
    if bool_decide (0 < priceHistoryDays config)
    then deletePriceHistoryBefore (getCutoffDate (priceHistoryDays config)) db
    else (0, db) in
  let '(candles5minDeleted, db) :=
    if bool_decide (0 < candles5minDays config)
    then deleteOhlcvBefore I5min (getCutoffDate (candles5minDays config)) db
    else (0, db) in
  let '(candles1hourDeleted, db) :=
    if bool_decide (0 < candles1hourDays config)
    then deleteOhlcvBefore I1hour (getCutoffDate (candles1hourDays config)) db
    else (0, db) in
  let '(candles1dayDeleted, db) :=
    if bool_decide (0 < candles1dayDays config)
    then deleteOhlcvBefore I1day (getCutoffDate (candles1dayDays config)) db
    else (0, db) in
  ({| lastRun := startTime;
      priceHistoryDeleted := priceHistoryDeleted;
      candles5minDeleted := candles5minDeleted;
      candles1hourDeleted := candles1hourDeleted;
      candles1dayDeleted := candles1dayDeleted;
      totalDeleted := priceHistoryDeleted + candles5minDeleted
                      + candles1hourDeleted + candles1dayDeleted;
      duration := finished - startTime |},
   db).

(** runScheduledCleanup: nothing happens when retention is disabled. *)
Definition runScheduledCleanup (getCutoffDate : Z -> Z)
    (startTime finished : Z) (config : RetentionConfig) (db : Db) : Db :=
  if negb (enabled config) then db
  else (cleanup getCutoffDate startTime finished config db).2.

End RetentionService.

(** ** Alerts (modules/alerts service) *)

Module AlertsService.

Inductive AlertSeverity : Type := info | warning | critical.

#[global] Instance AlertSeverity_eq_dec : EqDecision AlertSeverity.
Proof. solve_decision. Defined.

(** An alert object; [message] and [metadata] are texts for the reader and
    are left out. *)
Record Alert : Type := {
  alert_id : string;
  alert_severity : AlertSeverity;
  alert_type : string;
  alert_timestamp : Z;
  alert_resolved : bool;
  alert_resolvedAt : option Z;
}.

(** [webhook] says whether [webhookUrl] is set. *)
Record Config : Type := {
  enabled : bool;
  webhook : bool;
  aggregationFailures : Z;
}.

Definition default_config : Config :=
  {| enabled := false; webhook := false; aggregationFailures := 5 |}.

(** The service.  raiseAlert puts one and the same object into
    [activeAlerts] and into [alertHistory], and resolveAlert writes to that
    object: the objects live in [objects] and the map and the history hold
    their positions.  [webhooks] lists the POSTs issued, each with whether
    it announces a resolution and the alert as it was serialized. *)
Record Service : Type := {
  objects : list Alert;
  activeAlerts : gmap string nat;
  alertHistory : list nat;
  webhooks : list (bool * Alert);
}.

Definition initial : Service :=
  {| objects := []; activeAlerts := ∅; alertHistory := []; webhooks := [] |}.

(** [array.slice(-n)] for n > 0: the last n elements. *)
Definition slice_last {A} (n : nat) (l : list A) : list A :=
  drop (length l - n) l.

Definition raiseAlert (config : Config) (alert : Alert) (st : Service)
  : Service :=
  let existing :=
    match activeAlerts st !! alert_id alert with
    | Some ref => objects st !! ref
    | None => None
    end in
  let duplicate :=
    match existing with
    | Some e => bool_decide (alert_severity e = alert_severity alert)
    | None => false
    end in
  if duplicate then st
  else
    let ref := length (objects st) in
    let history := alertHistory st ++ [ref] in
    let history :=
      if bool_decide (1000 < length history)%nat
      then slice_last 500 history else history in
    {| objects := objects st ++ [alert];
       activeAlerts := <[alert_id alert := ref]> (activeAlerts st);
       alertHistory := history;
       webhooks := if webhook config
                   then webhooks st ++ [(false, alert)]
                   else webhooks st |}.

Definition resolveAlert (config : Config) (alertId : string) (now : Z)
    (st : Service) : Service :=
  match activeAlerts st !! alertId with
  | None => st
  | Some ref =>
      match objects st !! ref with
      | None => st
      | Some alert =>
          let alert' :=
            {| alert_id := alert_id alert;
               alert_severity := alert_severity alert;
               alert_type := alert_type alert;
               alert_timestamp := alert_timestamp alert;
               alert_resolved := true;
               alert_resolvedAt := Some now |} in
          {| objects := <[ref := alert']> (objects st);
             activeAlerts := delete alertId (activeAlerts st);
             alertHistory := alertHistory st;
             webhooks :=
               if webhook config
                  && bool_decide (alert_severity alert = critical)
               then webhooks st ++ [(true, alert')]
               else webhooks st |}
      end
  end.

(** checkAggregator; [consecutiveErrors] is what [getStats()] of the stream
    aggregator reports. *)
Definition checkAggregator (config : Config) (consecutiveErrors now : Z)
    (st : Service) : Service :=
  let alertId := "aggregator-failures" in
  if bool_decide (aggregationFailures config <= consecutiveErrors) then
    raiseAlert config
      {| alert_id := alertId; alert_severity := critical;
         alert_type := "aggregation_failures"; alert_timestamp := now;
         alert_resolved := false; alert_resolvedAt := None |} st
  else if bool_decide (consecutiveErrors = 0) then
    resolveAlert config alertId now st
  else st.

(** getAlertHistory(limit) for a limit > 0: the last [limit] alerts of the
    history, as the objects read now. *)
Definition getAlertHistory (limit : nat) (st : Service) : list Alert :=
  omap (fun ref => objects st !! ref) (slice_last limit (alertHistory st)).

End AlertsService.
(** * Specification vocabulary and sample data *)

Module StreamAggregatorSpec.
Import StreamAggregator.

(** The trades of a pair whose score lies in the trailing window of a tick
    at [now]: [now - 30_000 <= score <= now]. *)
Definition window_trades (w : World) (pair : string) (now : Z)
  : list TradeEntry :=
  (filter (in_score_range (now - WINDOW_SIZE) now)
     (zget w (BUFFER_KEY_PREFIX +:+ pair))).*2.

Definition sum_price_volume (trades : list TradeEntry) : Qc :=
  Qcsum (map (fun t => (trade_price t * trade_volume t)%Qc) trades).

Definition sum_volume (trades : list TradeEntry) : Qc :=
  Qcsum (map trade_volume trades).

(** The buffer of [pair]. *)
Definition buffer (w : World) (pair : string) : list ZEntry :=
  zget w (BUFFER_KEY_PREFIX +:+ pair).

(** Every buffered trade is scored by its event-time. *)
Definition scored_by_event_time (w : World) : Prop :=
  forall key e, e ∈ zget w key -> e.1 = trade_timestamp e.2.

(** A price of a canonical row that is not a number of the data model. *)
Definition not_finite (x : JsNumber) : Prop :=
  match x with JNum _ => False | _ => True end.

(** Sample data: a decimal literal, a buffered trade scored by its
    event-time, and a world whose only buffer is that of btc-usd. *)
Definition dec (n : Z) (d : positive) : Qc := Q2Qc (n # d).

Definition buffered (price volume : Qc) (time : Z) (venue : string) : ZEntry :=
  (time, {| trade_price := price; trade_volume := volume;
            trade_timestamp := time; trade_exchange := venue |}).

Definition world_with (btc_usd : list ZEntry)
    (accepts : CreatePriceHistoryInput -> bool) : World :=
  {| redis_ok := true;
     zsets := {[ "buffer:trades:btc-usd" := btc_usd ]};
     strings := ∅;
     published := [];
     db_accepts := accepts;
     price_history := [] |}.

(** Scenario "source dedup": one venue trades twice, at (100, 1) and
    (102, 1). *)
Definition world_dedup : World :=
  world_with [buffered (dec 100 1) (dec 1 1) 99000 "binance";
              buffered (dec 102 1) (dec 1 1) 99500 "binance"]
             (fun _ => true).

(** Scenario "multi-trade VWAP": three venues inside the window. *)
Definition world_three_venues : World :=
  world_with [buffered (dec 45000 1) (dec 1 1) 99000 "binance";
              buffered (dec 45100 1) (dec 2 1) 99200 "kraken";
              buffered (dec 44900 1) (dec 15 10) 99400 "coinbase"]
             (fun _ => true).

(** One trade of volume 0 inside the window. *)
Definition world_zero_volume : World :=
  world_with [buffered (dec 100 1) (dec 0 1) 99000 "binance"]
             (fun _ => true).

(** The same buffer in front of a database that refuses a price that is
    not a number. *)
Definition world_zero_volume_strict : World :=
  world_with [buffered (dec 100 1) (dec 0 1) 99000 "binance"]
             (fun r => match row_price r with F8 _ => true | _ => false end).

(** One trade, 40 s old at the tick of 100_000. *)
Definition world_stale : World :=
  world_with [buffered (dec 100 1) (dec 1 1) 60000 "binance"]
             (fun _ => true).

(** A database that rejects every insert, and a trade in each buffer. *)
Definition world_db_down : World :=
  {| redis_ok := true;
     zsets := {[ "buffer:trades:btc-usd" :=
                   [buffered (dec 45000 1) (dec 1 1) 99000 "binance"];
                 "buffer:trades:xmr-usd" :=
                   [buffered (dec 150 1) (dec 2 1) 99000 "kraken"];
                 "buffer:trades:eth-usd" :=
                   [buffered (dec 2500 1) (dec 3 1) 99000 "okx"] ]};
     strings := ∅;
     published := [];
     db_accepts := fun _ => false;
     price_history := [] |}.

(** Redis unreachable. *)
Definition world_redis_down : World :=
  {| redis_ok := false; zsets := ∅; strings := ∅; published := [];
     db_accepts := fun _ => true; price_history := [] |}.

(** The ticks of a run of the timer, one after the other. *)
Definition ticks (getRate : Outcome JsNumber) (times : list Z)
    (p : Process) (w : World) : Process * World :=
  fold_left (fun st now => aggregate getRate now st.1 st.2) times (p, w).

Definition running : Process :=
  {| isRunning := true; consecutiveErrors := 0; lastErrorTime := 0;
     lastSuccessfulAggregation := 0; aggregationCount := 0 |}.

(** A USD VWAP of 100 over one venue, and the fiat rate 95.5. *)
Definition vwap_100 : VwapResult :=
  {| vwap_pair := "btc-usd"; vwap_price := JNum (dec 100 1);
     vwap_volume := dec 1 1; vwap_sources := ["binance"];
     vwap_timestamp := 100000 |}.


(** The turns of a consumption run whose body failed. *)
Definition failed_turns (turns : list (bool * Z)) : list (bool * Z) :=
  filter (fun turn => turn.1 = false) turns.

(** The rows a tick may write for one of [pairs]: method "vwap", for the
    pair itself or its RUB counterpart, stamped with the clock reading
    taken for that pair. *)
Definition row_of_tick (clock : string -> Z) (pairs : list string)
    (r : CreatePriceHistoryInput) : Prop :=
  row_method r = "vwap"
  /\ exists pair, pair ∈ pairs
       /\ row_timestamp r = clock pair
       /\ (row_pair r = pair \/ row_pair r = replace "-usd" "-rub" pair).

(** The three venues of [world_three_venues], buffered in another order. *)
Definition world_three_venues_shuffled : World :=
  world_with [buffered (dec 44900 1) (dec 15 10) 99400 "coinbase";
              buffered (dec 45000 1) (dec 1 1) 99000 "binance";
              buffered (dec 45100 1) (dec 2 1) 99200 "kraken"]
             (fun _ => true).

(** A stream entry as the venue log delivers it. *)
Definition entry_btc : StreamFields :=
  {| field_pair := "btc-usd"; field_price := dec 45000 1;
     field_volume := dec 1 1; field_timestamp := 99000 |}.

(** Ten failed turns half a second apart with a successful turn after each. *)
Definition flaky_turns : list (bool * Z) :=
  flat_map (fun i => [(false, 1000 * i); (true, 1000 * i + 500)])
           (seqZ 1 10).

End StreamAggregatorSpec.


Module CbrRateSpec.
Import CbrRate.

(** The rate the Redis reply offers, when it is a positive number. *)
Definition positive_cached (cached : CachedReply) : option JsNumber :=
  match cached with
  | Ok (Some rate) => if js_gt0 rate then Some rate else None
  | _ => None
  end.

(** Sample data: a service that fetched 95.5 once, and replies. *)
Definition fetched_once : Service :=
  {| lastFetchTime := 1000; cachedRate := JNum (Q2Qc (955 # 10));
     lastError := None; consecutiveFailures := 0 |}.

End CbrRateSpec.

Module OhlcvSpec.
Import PriceHistoryRepository OhlcvRepository OhlcvAggregator.

Definition volume_of (r : PriceHistoryEntity) : Qc :=
  default 0%Qc (ph_volume r).

Definition total_volume (rows : list PriceHistoryEntity) : Qc :=
  Qcsum (map volume_of rows).

Definition total_price_volume (rows : list PriceHistoryEntity) : Qc :=
  Qcsum (map (fun r => (ph_price r * volume_of r)%Qc) rows).

Definition is_max (m : Qc) (l : list Qc) : Prop :=
  m ∈ l /\ forall x, x ∈ l -> (x <= m)%Qc.

Definition is_min (m : Qc) (l : list Qc) : Prop :=
  m ∈ l /\ forall x, x ∈ l -> (m <= x)%Qc.

(** The rows [aggregateInterval] loads for a pair and a period. *)
Definition loaded (periodStart periodEnd : Z) (pair : string) (db : Db)
  : list PriceHistoryEntity :=
  findByPairInRange
    {| PriceHistoryRepository.opt_pair := pair;
       PriceHistoryRepository.opt_from := Some periodStart;
       PriceHistoryRepository.opt_to := Some periodEnd;
       PriceHistoryRepository.opt_limit := None;
       PriceHistoryRepository.opt_offset := None;
       PriceHistoryRepository.opt_orderBy := Some asc |}
    (price_history db).

(** The rows of a candle table that belong to a pair. *)
Definition candles_of (pair : string) (rows : list OhlcvCandleEntity)
  : list OhlcvCandleEntity :=
  filter (fun r => candle_pair r = pair) rows.

(** The candle the specification describes for a result set that starts
    with [first] and ends with [final]. *)
Definition vwap_or_mean (first final : PriceHistoryEntity)
    (rows : list PriceHistoryEntity) : Qc :=
  if Qc_ltb 0 (total_volume rows)
  then (total_price_volume rows / total_volume rows)%Qc
  else ((ph_price first + ph_price final) / 2)%Qc.

(** Sample data: a canonical price row. *)
Definition canonical (pair : string) (time : Z) (price volume : Qc)
  : PriceHistoryEntity :=
  {| ph_pair := pair; ph_price := price; ph_timestamp := time;
     ph_method := "vwap"; ph_sources := ["binance"];
     ph_volume := Some volume |}.

Definition q (n : Z) (d : positive) : Qc := Q2Qc (n # d).

(** Scenario "candle aggregation": three prices inside the 5-minute period
    that starts at 0. *)
Definition db_three_prices : Db :=
  {| db_up := true;
     price_history := [canonical "btc-usd" 0 (q 100 1) (q 1 1);
                       canonical "btc-usd" 60000 (q 110 1) (q 2 1);
                       canonical "btc-usd" 120000 (q 105 1) (q 1 1)];
     candles := ∅ |}.

(** The same period with one more price, stamped exactly at the end of the
    period (300_000), which belongs to the next 5-minute block. *)
Definition db_boundary_price : Db :=
  {| db_up := true;
     price_history := [canonical "btc-usd" 0 (q 100 1) (q 1 1);
                       canonical "btc-usd" 60000 (q 110 1) (q 2 1);
                       canonical "btc-usd" 120000 (q 105 1) (q 1 1);
                       canonical "btc-usd" 300000 (q 500 1) (q 1 1)];
     candles := ∅ |}.

(** A day (period 0 .. 86_400_000) with 1_001 canonical prices, one every
    ten seconds from midnight. *)
Definition db_busy_day : Db :=
  {| db_up := true;
     price_history :=
       (fun i => canonical "btc-usd" (Z.of_nat i * 10000) (q 100 1) (q 1 1))
         <$> seq 0 1001;
     candles := ∅ |}.


(** The decimal a stored [toFixed(8)] string holds, in units of 1e-8;
    [None] for the three words that are not decimals. *)
Definition units (x : Fixed8) : option Z :=
  match x with F8 u => Some u | _ => None end.

(** A candle whose decimals satisfy low <= open <= high and
    low <= close <= high. *)
Definition well_formed (c : CreateOhlcvCandleInput) : Prop :=
  exists o h l cl,
    candle_open c = F8 o /\ candle_high c = F8 h /\ candle_low c = F8 l
    /\ candle_close c = F8 cl
    /\ l <= o <= h /\ l <= cl <= h.

(** A database that is down. *)
Definition db_down : Db :=
  {| db_up := false; price_history := []; candles := ∅ |}.


(** The order a query option asks for, as a relation on rows. *)
Definition in_order (o : option OrderBy) : relation PriceHistoryEntity :=
  match default desc o with
  | asc => ts_le
  | desc => ts_ge
  end.

(** Whether a row lies inside the optional bounds of a query. *)
Definition within (from to : option Z) (r : PriceHistoryEntity) : Prop :=
  match from with Some from => from <= ph_timestamp r | None => True end
  /\ match to with Some to => ph_timestamp r <= to | None => True end.

(** Two prices of btc-usd, one before and one after the range
    100_000 .. 200_000. *)
Definition db_gap : Db :=
  {| db_up := true;
     price_history := [canonical "btc-usd" 0 (q 100 1) (q 1 1);
                       canonical "btc-usd" 500000 (q 120 1) (q 1 1)];
     candles := ∅ |}.

End OhlcvSpec.

Module OhlcvRepositorySpec.
Import OhlcvRepository.

(** Sample data: a 5-minute candle of btc-usd and a table of three. *)
Definition candle_at (time : Z) : OhlcvCandleEntity :=
  {| candle_pair := "btc-usd"; candle_timestamp := time;
     candle_open := F8 10000000000; candle_high := F8 11000000000;
     candle_low := F8 10000000000; candle_close := F8 10500000000;
     candle_volume := F8 400000000; candle_vwap := Some (F8 10625000000);
     candle_trade_count := 3 |}.

Definition db_three_candles : Db :=
  {| db_up := true;
     price_history := [];
     candles := {[ "price_history_5min" :=
                     [candle_at 300000; candle_at 900000; candle_at 600000] ]} |}.

Definition page_of_two (cursor : option Cursor) : OhlcvQueryOptions :=
  {| opt_pair := "btc-usd"; opt_from := None; opt_to := None;
     opt_limit := Some 2; opt_cursor := cursor; opt_orderBy := None |}.


(** A row matches a query: it is a row of the pair, strictly older than the
    cursor when one is given, and inside the date range. *)
Definition matches (options : OhlcvQueryOptions) (r : OhlcvCandleEntity)
  : Prop :=
  candle_pair r = opt_pair options
  /\ from_option (fun cursor => candle_timestamp r < cursor_instant cursor)
       True (opt_cursor options)
  /\ from_option (fun from => from <= candle_timestamp r)
       True (opt_from options)
  /\ from_option (fun to => candle_timestamp r <= to)
       True (opt_to options).

#[global] Instance matches_dec options r : Decision (matches options r).
Proof.
  unfold matches.
  destruct (opt_cursor options), (opt_from options), (opt_to options);
    cbn; apply _.
Defined.

(** A list of rows stands in the order asked for. *)
Definition sorted_by (o : OrderBy) (rows : list OhlcvCandleEntity) : Prop :=
  match o with
  | asc => StronglySorted candle_ts_le rows
  | desc => StronglySorted candle_ts_ge rows
  end.

(** The conflict target of the upsert: (pair, period-start). *)
Definition candle_key (r : OhlcvCandleEntity) : string * Z :=
  (candle_pair r, candle_timestamp r).

(** No two rows of a candle table share a (pair, period-start). *)
Definition unique_keys (db : Db) : Prop :=
  forall name, NoDup (map candle_key (table db name)).

(** The rows of a pair that the date filters of a query keep. *)
Definition selected (from to : option Z) (rows : list OhlcvCandleEntity)
  : list OhlcvCandleEntity :=
  let rows :=
    match from with
    | Some from => filter (fun r => from <= candle_timestamp r) rows
    | None => rows
    end in
  match to with
  | Some to => filter (fun r => candle_timestamp r <= to) rows
  | None => rows
  end.

(** Every candle of the pair inside the date range, newest first. *)
Definition all_newest_first (interval : ChartInterval) (pair : string)
    (from to : option Z) (db : Db) : list OhlcvCandleEntity :=
  order_by desc (selected from to (pair_rows interval pair db)).

(** The offset pages 0, 1, ..., n-1 of size [limit]. *)
Definition offset_pages (interval : ChartInterval) (pair : string)
    (limit : Z) (n : nat) (db : Db) : list (list OhlcvCandleEntity) :=
  map (fun i => match getCandles interval pair limit (Z.of_nat i * limit) db with
                | Ok (candles, _) => candles
                | Throw => []
                end) (seq 0 n).

(** Five candles of btc-usd, inserted out of order. *)
Definition db_five_candles : Db :=
  {| db_up := true;
     price_history := [];
     candles := {[ "price_history_5min" :=
                     [candle_at 300000; candle_at 1500000; candle_at 900000;
                      candle_at 600000; candle_at 1200000] ]} |}.


(** Where a stream stands: before the first page with everything ahead, or
    after a page that ended with the row [x] with the rows after [x]
    ahead. *)
Definition stands_at (all : list OhlcvCandleEntity) (cursor : option Cursor)
    (ahead : list OhlcvCandleEntity) : Prop :=
  (cursor = None /\ ahead = all)
  \/ exists before x,
       all = before ++ x :: ahead
       /\ cursor = Some (Base64Iso (candle_timestamp x)).



End OhlcvRepositorySpec.

Module RateLimitSpec.
Import RateLimit.

(** The entries of a client's window that a check at [now] keeps: those the
    eviction ZREMRANGEBYSCORE 0 (now - window) leaves. *)
Definition current_window (config : RateLimitConfig) (now : Z)
    (key : string) (s : Store) : list (Z * Member) :=
  zremrangebyscore 0 (now - windowMs config) (zget s key).

Definition denied (config : RateLimitConfig) (now : Z) : RateLimitResult :=
  {| allowed := false; remaining := 0;
     resetTime := now + windowMs config;
     retryAfter := Some (windowMs config) |}.

(** Sample data: one request per minute, and an empty store. *)
Definition one_per_minute : RateLimitConfig :=
  {| enabled := true; windowMs := 60000; maxRequests := 1 |}.

Definition empty_store : Store :=
  {| redis_ok := true; zsets := ∅; ttl := ∅ |}.

(** The calls of a run that were allowed and whose time lies in the window
    (T − window, T], each with its result. *)
Definition allowed_in_window (config : RateLimitConfig) (T : Z)
    (calls : list (Z * string)) (results : list RateLimitResult)
  : list ((Z * string) * RateLimitResult) :=
  filter (fun cr => allowed cr.2 = true
                    /\ T - windowMs config < cr.1.1 <= T)
         (zip calls results).

(** Two requests per minute, and a run of five calls. *)
Definition two_per_minute : RateLimitConfig :=
  {| enabled := true; windowMs := 60000; maxRequests := 2 |}.

Definition five_calls : list (Z * string) :=
  [(1000, "a"); (2000, "b"); (3000, "c"); (61500, "d"); (62000, "e")].

(** A store in which the client made one request at 1_000. *)
Definition store_after_one : Store :=
  {| redis_ok := true;
     zsets := {[ "ratelimit:client" := [(1000, (1000, "a"))] ]};
     ttl := {[ "ratelimit:client" := 61 ]} |}.

End RateLimitSpec.

Module RetentionSpec.
Import PriceHistoryRepository OhlcvRepository RetentionService.

(** The number of rows the four tables hold. *)
Definition stored (db : Db) : Z :=
  Z.of_nat (length (price_history db))
  + Z.of_nat (length (table db (getTableName I5min)))
  + Z.of_nat (length (table db (getTableName I1hour)))
  + Z.of_nat (length (table db (getTableName I1day))).

(** A run only removes rows. *)
Definition only_removes (db db' : Db) : Prop :=
  price_history db' ⊆ price_history db
  /\ forall interval,
       table db' (getTableName interval) ⊆ table db (getTableName interval).

End RetentionSpec.

Module AlertsSpec.
Import AlertsService.

(** An alert as checkAggregator raises it. *)
Definition aggregator_alert (now : Z) : Alert :=
  {| alert_id := "aggregator-failures"; alert_severity := critical;
     alert_type := "aggregation_failures"; alert_timestamp := now;
     alert_resolved := false; alert_resolvedAt := None |}.

(** The alert once resolveAlert has written to it. *)
Definition resolved_at (now : Z) (alert : Alert) : Alert :=
  {| alert_id := alert_id alert;
     alert_severity := alert_severity alert;
     alert_type := alert_type alert;
     alert_timestamp := alert_timestamp alert;
     alert_resolved := true;
     alert_resolvedAt := Some now |}.

(** The alert that is active under an id, if any. *)
Definition active (st : Service) (alertId : string) : option Alert :=
  match activeAlerts st !! alertId with
  | Some ref => objects st !! ref
  | None => None
  end.

Definition with_webhook : Config :=
  {| enabled := true; webhook := true; aggregationFailures := 5 |}.

End AlertsSpec.
(** * Properties *)

(** ** Stream aggregator *)

Module StreamAggregatorFacts.
Import StreamAggregator StreamAggregatorSpec.

Lemma set_add_NoDup x s : NoDup s -> NoDup (set_add x s).
Proof.
  intros Hs. unfold set_add. case_decide; [done|].
  apply NoDup_app. split_and!; [done| |apply NoDup_singleton].
  intros y Hy Hy'. apply list_elem_of_singleton in Hy'. by subst.
Qed.

Lemma set_add_elem x y s : y ∈ set_add x s <-> y ∈ s \/ y = x.
Proof.
  unfold set_add. case_decide.
  - split; [by left|]. intros [? | ->]; done.
  - rewrite elem_of_app, list_elem_of_singleton. done.
Qed.

(** The loop of [calculateVwap] computes the two sums and the venue set. *)
Lemma vwap_loop trades : forall pv v srcs,
  NoDup srcs ->
  exists srcs',
    fold_left vwap_step trades (pv, v, srcs)
      = ((pv + sum_price_volume trades)%Qc, (v + sum_volume trades)%Qc, srcs')
    /\ NoDup srcs'
    /\ (forall x, x ∈ srcs' <->
                  x ∈ srcs \/ exists t, t ∈ trades /\ trade_exchange t = x).
Proof.
  induction trades as [|t trades IH]; intros pv v srcs Hnd.
  - exists srcs. unfold sum_price_volume, sum_volume. cbn. split_and!.
    + by rewrite !Qcplus_0_r.
    + done.
    + intros x. split; [by left|]. intros [?|(t & Ht & _)]; [done|].
      by apply elem_of_nil in Ht.
  - cbn [fold_left vwap_step].
    destruct (IH (pv + trade_price t * trade_volume t)%Qc
                 (v + trade_volume t)%Qc
                 (set_add (trade_exchange t) srcs)
                 (set_add_NoDup _ _ Hnd)) as (srcs' & Heq & Hnd' & Hin).
    exists srcs'. split_and!.
    + rewrite Heq. unfold sum_price_volume, sum_volume. cbn.
      by rewrite !Qcplus_assoc.
    + done.
    + intros x. rewrite Hin, set_add_elem. split.
      * intros [[? | ->] | (t' & Ht' & <-)]; [by left| |].
        -- right. exists t. split; [left|done].
        -- right. exists t'. split; [by right|done].
      * intros [? | (t' & Ht' & <-)]; [by left; left|].
        apply elem_of_cons in Ht' as [-> | Ht'].
        -- left. by right.
        -- right. by exists t'.
Qed.

(** What [calculateVwap] returns when Redis answers and the window holds a
    trade; the state it leaves has the pruned buffer. *)
Lemma calculateVwap_nonempty w pair now :
  redis_ok w = true ->
  window_trades w pair now <> [] ->
  exists srcs,
    calculateVwap pair now w
      = (Ok (Some {| vwap_pair := pair;
                     vwap_price :=
                       js_div (sum_price_volume (window_trades w pair now))
                              (sum_volume (window_trades w pair now));
                     vwap_volume := sum_volume (window_trades w pair now);
                     vwap_sources := srcs;
                     vwap_timestamp := now |}),
         set_zsets w
           (<[BUFFER_KEY_PREFIX +:+ pair :=
                filter (fun e => ~ in_score_range 0 (now - WINDOW_SIZE) e)
                  (zget w (BUFFER_KEY_PREFIX +:+ pair))]> (zsets w)))
    /\ NoDup srcs
    /\ (forall x, x ∈ srcs <->
          exists t, t ∈ window_trades w pair now /\ trade_exchange t = x).
Proof.
  intros Hok Hne.
  destruct (vwap_loop (window_trades w pair now) 0%Qc 0%Qc [] (NoDup_nil_2))
    as (srcs & Heq & Hnd & Hin).
  exists srcs. split_and!; [|done|].
  - unfold calculateVwap, bind, zrangebyscore. rewrite Hok.
    fold (window_trades w pair now).
    case_decide as Hlen.
    { apply length_zero_iff_nil in Hlen. done. }
    rewrite Heq, !Qcplus_0_l.
    unfold zremrangebyscore, ret. by rewrite Hok.
  - intros x. rewrite Hin. split.
    + intros [Hx|?]; [by apply elem_of_nil in Hx|done].
    + by right.
Qed.

Lemma cachePrice_price_history v w :
  price_history (cachePrice v w).2 = price_history w.
Proof.
  unfold cachePrice, bind, setex, publish.
  by destruct (redis_ok w).
Qed.

(** Whatever the fiat-rate collaborator answers, [savePrices] first persists
    the USD row when the database takes it. *)
Lemma savePrices_usd_first getRate v w :
  db_accepts w (usdInput v) = true ->
  exists rest,
    price_history (savePrices getRate v w).2
    = price_history w ++ usdInput v :: rest.
Proof.
  intros Husd. unfold savePrices, bind. unfold create at 1.
  rewrite Husd. cbn.
  destruct getRate as [rate|]; cbn; [|by exists []].
  destruct (js_gt0 rate); cbn; [|by exists []].
  unfold create. cbn.
  destruct (db_accepts w (rubInput v rate)); cbn; [|by exists []].
  exists [rubInput v rate].
  rewrite cachePrice_price_history. cbn. by rewrite <- app_assoc.
Qed.

(** C1. At a tick, for a pair whose buffer holds at least one trade with
    event-time in [now - 30_000, now], the canonical price computed is
    Σ(priceᵢ × volumeᵢ) / Σ(volumeᵢ) over exactly those trades, its sources
    are the distinct venues among them (a venue trading twice is listed
    once), and its volume is Σ volumeᵢ.  The row emitted for the pair is
    the first row the tick appends to the price history: its pair is the
    pair, its price column is that quotient written with eight decimals,
    its timestamp is the clock reading, its method is "vwap", its sources
    are those venues and its volume column is Σ volumeᵢ written with eight
    decimals. *)
Theorem C1_vwap_over_window w pair now :
  redis_ok w = true ->
  window_trades w pair now <> [] ->
  exists r w',
    calculateVwap pair now w = (Ok (Some r), w')
    /\ vwap_price r = js_div (sum_price_volume (window_trades w pair now)) (sum_volume (window_trades w pair now))
    /\ vwap_volume r = sum_volume (window_trades w pair now)
    /\ NoDup (vwap_sources r)
    /\ (forall x, x ∈ vwap_sources r <-> exists t, t ∈ window_trades w pair now /\ trade_exchange t = x)
    /\ vwap_pair r = pair
    /\ vwap_timestamp r = now
    /\ (forall getRate,
          db_accepts w
            {| row_pair := pair;
               row_price :=
                 toFixed8 (js_div (sum_price_volume (window_trades w pair now))
                             (sum_volume (window_trades w pair now)));
               row_timestamp := now;
               row_method := "vwap";
               row_sources := vwap_sources r;
               row_volume :=
                 toFixed8 (JNum (sum_volume (window_trades w pair now))) |}
          = true ->
          exists rest,
            price_history (aggregate_pair getRate now pair w).2
            = price_history w
              ++ {| row_pair := pair;
                    row_price :=
                      toFixed8 (js_div (sum_price_volume (window_trades w pair now))
                                  (sum_volume (window_trades w pair now)));
                    row_timestamp := now;
                    row_method := "vwap";
                    row_sources := vwap_sources r;
                    row_volume :=
                      toFixed8 (JNum (sum_volume (window_trades w pair now))) |}
                 :: rest).
Proof.
  intros Hok Hne.
  destruct (calculateVwap_nonempty w pair now Hok Hne) as (srcs & Heq & Hnd & Hin).
  eexists _, _. split; [exact Heq|]. cbn. split_and!; try done.
  intros getRate Husd. unfold aggregate_pair, bind. rewrite Heq.
  match goal with
  | |- context [savePrices getRate ?v ?w1] =>
      destruct (savePrices_usd_first getRate v w1 Husd) as [rest Hrows];
      destruct (savePrices getRate v w1) as [[[]|] w2]
  end; cbn in Hrows; exists rest.
  - destruct (cachePrice _ w2) as [[[]|] w3] eqn:Hc;
      apply (f_equal snd), (f_equal price_history) in Hc;
      rewrite cachePrice_price_history in Hc; cbn in Hc |- *;
      rewrite <- Hc, Hrows; reflexivity.
  - exact Hrows.
Qed.

Lemma C1_vwap_over_window_witness :
  exists r w',
    calculateVwap "btc-usd" 100000 world_dedup = (Ok (Some r), w')
    /\ vwap_price r = js_div (sum_price_volume (window_trades world_dedup "btc-usd" 100000)) (sum_volume (window_trades world_dedup "btc-usd" 100000))
    /\ vwap_volume r = sum_volume (window_trades world_dedup "btc-usd" 100000)
    /\ NoDup (vwap_sources r)
    /\ (forall x, x ∈ vwap_sources r <-> exists t, t ∈ window_trades world_dedup "btc-usd" 100000 /\ trade_exchange t = x)
    /\ vwap_pair r = "btc-usd"
    /\ vwap_timestamp r = 100000
    /\ (forall getRate,
          db_accepts world_dedup
            {| row_pair := "btc-usd";
               row_price :=
                 toFixed8 (js_div (sum_price_volume (window_trades world_dedup "btc-usd" 100000))
                             (sum_volume (window_trades world_dedup "btc-usd" 100000)));
               row_timestamp := 100000;
               row_method := "vwap";
               row_sources := vwap_sources r;
               row_volume :=
                 toFixed8 (JNum (sum_volume (window_trades world_dedup "btc-usd" 100000))) |}
          = true ->
          exists rest,
            price_history (aggregate_pair getRate 100000 "btc-usd" world_dedup).2
            = price_history world_dedup
              ++ {| row_pair := "btc-usd";
                    row_price :=
                      toFixed8 (js_div (sum_price_volume (window_trades world_dedup "btc-usd" 100000))
                                  (sum_volume (window_trades world_dedup "btc-usd" 100000)));
                    row_timestamp := 100000;
                    row_method := "vwap";
                    row_sources := vwap_sources r;
                    row_volume :=
                      toFixed8 (JNum (sum_volume (window_trades world_dedup "btc-usd" 100000))) |}
                 :: rest).
Proof.
  apply (C1_vwap_over_window world_dedup "btc-usd" 100000).
  - reflexivity.
  - vm_compute. discriminate.
Defined.

(** Scenario 3 of the specification: the price is the volume-weighted
    average 101 and one venue is listed. *)
Example source_dedup_scenario :
  match (calculateVwap "btc-usd" 100000 world_dedup).1 with
  | Ok (Some r) =>
      toFixed8 (vwap_price r) = F8 10100000000
      /\ vwap_sources r = ["binance"]
      /\ toFixed8 (JNum (vwap_volume r)) = F8 200000000
  | _ => False
  end.
Proof. by vm_compute. Qed.

(** Scenario 2 of the specification: 45011.11111111 over three venues. *)
Example multi_trade_scenario :
  match (calculateVwap "btc-usd" 100000 world_three_venues).1 with
  | Ok (Some r) =>
      toFixed8 (vwap_price r) = F8 4501111111111
      /\ vwap_sources r = ["binance"; "kraken"; "coinbase"]
      /\ toFixed8 (JNum (vwap_volume r)) = F8 450000000
  | _ => False
  end.
Proof. by vm_compute. Qed.

(** When the window holds a trade, the tick prunes the buffer: what stays
    has a score above [now - 30_000] (or a negative one, which
    ZREMRANGEBYSCORE 0 .. does not reach). *)
Lemma calculateVwap_prunes w pair now :
  redis_ok w = true ->
  window_trades w pair now <> [] ->
  forall e, e ∈ buffer (calculateVwap pair now w).2 pair ->
            now - WINDOW_SIZE < e.1 \/ e.1 < 0.
Proof.
  intros Hok Hne e.
  destruct (calculateVwap_nonempty w pair now Hok Hne) as (srcs & -> & _).
  unfold buffer, zget. cbn. rewrite lookup_insert_eq. cbn.
  rewrite list_elem_of_filter. unfold in_score_range. lia.
Qed.

(** When the window is empty the tick returns before the clean-up and the
    buffer is left as it was. *)
Lemma calculateVwap_empty w pair now :
  redis_ok w = true ->
  window_trades w pair now = [] ->
  calculateVwap pair now w = (Ok None, w).
Proof.
  intros Hok He. unfold calculateVwap, bind, zrangebyscore. rewrite Hok.
  fold (window_trades w pair now). rewrite He. by case_decide.
Qed.

(** Buffering keeps every trade scored by its event-time, so the window of
    a tick is a window of event-times. *)
Lemma processEntry_scored exchange fields w :
  scored_by_event_time w ->
  scored_by_event_time (processEntry exchange fields w).2.
Proof.
  intros Hw. unfold processEntry, zadd.
  destruct (redis_ok w); [|done]. cbn.
  intros key e. unfold zget. cbn.
  destruct (decide (BUFFER_KEY_PREFIX +:+ field_pair fields = key)) as [<-|Hne].
  - rewrite lookup_insert_eq. cbn.
    intros [He|He]%elem_of_app.
    + apply list_elem_of_filter in He as [_ He]. by apply Hw in He.
    + by apply list_elem_of_singleton in He as ->.
  - rewrite lookup_insert_ne by done. apply Hw.
Qed.

Lemma processBatch_scored exchange entries : forall w,
  scored_by_event_time w ->
  scored_by_event_time (processBatch exchange entries w).2.
Proof.
  induction entries as [|fields entries IH]; intros w Hw; [done|].
  cbn [processBatch]. unfold bind.
  pose proof (processEntry_scored exchange fields w Hw) as H1.
  destruct (processEntry exchange fields w) as [[[]|] w1]; [by apply IH|done].
Qed.

Lemma window_trades_event_time w pair now t :
  scored_by_event_time w ->
  t ∈ window_trades w pair now <->
  (exists score, (score, t) ∈ buffer w pair)
  /\ now - WINDOW_SIZE <= trade_timestamp t <= now.
Proof.
  intros Hw. unfold window_trades, buffer. rewrite list_elem_of_fmap. split.
  - intros ([score t'] & -> & [Hr He]%list_elem_of_filter). cbn.
    split; [by exists score|].
    apply Hw in He as Hs. unfold in_score_range in Hr. cbn in *. lia.
  - intros [[score He] Ht]. exists (score, t). split; [done|].
    apply list_elem_of_filter. split; [|done].
    apply Hw in He as Hs. unfold in_score_range. cbn in *. lia.
Qed.

(** A window whose volumes add up to 0 still yields a result, and its price
    is not a number of the data model: 0/0 or ±x/0. *)
Lemma calculateVwap_zero_volume w pair now :
  redis_ok w = true ->
  window_trades w pair now <> [] ->
  sum_volume (window_trades w pair now) = 0%Qc ->
  exists r w',
    calculateVwap pair now w = (Ok (Some r), w')
    /\ not_finite (vwap_price r).
Proof.
  intros Hok Hne Hz.
  destruct (calculateVwap_nonempty w pair now Hok Hne) as (srcs & -> & _).
  eexists _, _. split; [done|]. cbn. rewrite Hz.
  unfold js_div. rewrite decide_True by done.
  case_decide; [done|]. by destruct (Qc_ltb _ _).
Qed.

(** C2 (the code departs from the claim). A window whose only trade has
    volume 0 has Σ volume = 0; the tick still persists a USD row and a RUB
    row, caches both and publishes both, each with the price NaN.  In front
    of a database that refuses such a price the pair's aggregation is an
    error instead. *)
Theorem C2_zero_volume_row_is_emitted :
  let w' := (aggregate (Ok (JNum (dec 90 1))) 100000 running world_zero_volume).2 in
  sum_volume (window_trades world_zero_volume "btc-usd" 100000) = 0%Qc
  /\ (aggregate_pair (Ok (JNum (dec 90 1))) 100000 "btc-usd"
        world_zero_volume_strict).1 = Throw
  /\ price_history w'
    = [ {| row_pair := "btc-usd"; row_price := F8NaN; row_timestamp := 100000;
           row_method := "vwap"; row_sources := ["binance"];
           row_volume := F8 0 |};
        {| row_pair := "btc-rub"; row_price := F8NaN; row_timestamp := 100000;
           row_method := "vwap"; row_sources := ["binance"; "cbr"];
           row_volume := F8 0 |} ]
  /\ strings w' !! "price:btc-usd"
       = Some ({| cache_price := F8NaN; cache_timestamp := 100000;
                  cache_sources := ["binance"] |}, 60)
  /\ published w'
       = [ ("price:btc-rub",
            {| cache_price := F8NaN; cache_timestamp := 100000;
               cache_sources := ["binance"; "cbr"] |});
           ("price:btc-usd",
            {| cache_price := F8NaN; cache_timestamp := 100000;
               cache_sources := ["binance"] |}) ].
Proof.
  split; [by apply Qc_is_canon|]. by vm_compute.
Qed.

(** C3 (the code departs from the claim). A buffer whose only trade is
    older than [t - 30_000] is returned from before the clean-up: after the
    tick at t = 100_000 the trade of event-time 60_000 is still buffered. *)
Theorem C3_stale_only_buffer_is_not_pruned :
  let w' := (aggregate (Ok (JNum (dec 90 1))) 100000 running world_stale).2 in
  exists e, e ∈ buffer w' "btc-usd"
            /\ trade_timestamp e.2 = 60000
            /\ e.1 < 100000 - 30000.
Proof.
  exists (buffered (dec 100 1) (dec 1 1) 60000 "binance").
  split; [|by vm_compute].
  vm_compute. left.
Qed.

(** With a positive rate and a database that takes both rows, [savePrices]
    appends the USD row and then the RUB row, whether or not the cache
    write that follows succeeds. *)
Lemma savePrices_rows w vwap rate :
  js_gt0 rate = true ->
  db_accepts w (usdInput vwap) = true ->
  db_accepts w (rubInput vwap rate) = true ->
  price_history (savePrices (Ok rate) vwap w).2
    = price_history w ++ [usdInput vwap; rubInput vwap rate].
Proof.
  intros Hrate Husd Hrub.
  unfold savePrices, bind. unfold create at 1. rewrite Husd. cbn.
  rewrite Hrate. unfold create. cbn. rewrite Hrub.
  rewrite cachePrice_price_history. cbn. by rewrite <- app_assoc.
Qed.

(** C4. When the USD row of a tick is persisted and the fiat-rate
    collaborator answers a positive rate, a second row is persisted for the
    RUB pair, with price = vwap × rate, the USD row's sources followed by
    "cbr", and the USD row's event-time. *)
Theorem C4_rub_row_derived w vwap rate :
  js_gt0 rate = true ->
  db_accepts w (usdInput vwap) = true ->
  db_accepts w (rubInput vwap rate) = true ->
  exists usd rub,
    price_history (savePrices (Ok rate) vwap w).2
      = price_history w ++ [usd; rub]
    /\ row_pair usd = vwap_pair vwap
    /\ row_price usd = toFixed8 (vwap_price vwap)
    /\ row_pair rub = replace "-usd" "-rub" (row_pair usd)
    /\ row_price rub = toFixed8 (js_mul (vwap_price vwap) rate)
    /\ row_sources rub = row_sources usd ++ ["cbr"]
    /\ row_timestamp rub = row_timestamp usd
    /\ row_method rub = "vwap".
Proof.
  intros Hrate Husd Hrub.
  exists (usdInput vwap), (rubInput vwap rate). split; [|done].
  by apply savePrices_rows.
Qed.

(** Scenario 4 of the specification: a USD VWAP of 100 and the rate 95.5
    give a RUB row at 9550.00000000. *)
Lemma C4_rub_row_derived_witness :
  exists usd rub,
    price_history
      (savePrices (Ok (JNum (dec 955 10))) vwap_100 world_dedup).2
      = price_history world_dedup ++ [usd; rub]
    /\ row_pair usd = "btc-usd"
    /\ row_price usd = toFixed8 (JNum (dec 100 1))
    /\ row_pair rub = replace "-usd" "-rub" (row_pair usd)
    /\ row_price rub = toFixed8 (js_mul (JNum (dec 100 1)) (JNum (dec 955 10)))
    /\ row_sources rub = row_sources usd ++ ["cbr"]
    /\ row_timestamp rub = row_timestamp usd
    /\ row_method rub = "vwap".
Proof.
  apply (C4_rub_row_derived world_dedup vwap_100 (JNum (dec 955 10)));
    reflexivity.
Defined.

Example rub_derivation_scenario :
  toFixed8 (js_mul (JNum (dec 100 1)) (JNum (dec 955 10))) = F8 955000000000
  /\ map (replace "-usd" "-rub") USD_PAIRS = ["btc-rub"; "xmr-rub"; "eth-rub"].
Proof. by vm_compute. Qed.

(** Every tick stamps [lastSuccessfulAggregation], whatever happened to the
    pairs. *)
Lemma aggregate_stamps getRate now p w :
  lastSuccessfulAggregation (aggregate getRate now p w).1 = now.
Proof.
  unfold aggregate.
  destruct (fold_left _ _ _) as [p' w']. reflexivity.
Qed.

Lemma aggregate_step_keeps getRate now p w pair :
  isRunning (aggregate_step getRate now (p, w) pair).1 = isRunning p
  /\ consecutiveErrors (aggregate_step getRate now (p, w) pair).1
     = consecutiveErrors p.
Proof.
  unfold aggregate_step.
  destruct (aggregate_pair getRate now pair w) as [[[]|] w']; done.
Qed.

(** The parts of the health rule that the code does carry out. *)
Lemma checkHealth_unhealthy p now :
  isRunning p = false \/ 10 <= consecutiveErrors p ->
  status (checkHealth p now) = unhealthy.
Proof.
  intros [Hr|He]; unfold checkHealth; cbn.
  - by rewrite Hr.
  - rewrite (bool_decide_eq_false_2 (consecutiveErrors p < 5)) by lia.
    rewrite (bool_decide_eq_false_2 (consecutiveErrors p < 10)) by lia.
    by destruct (isRunning p),
         (bool_decide (now - lastSuccessfulAggregation p < AGGREGATION_INTERVAL * 3)).
Qed.

Lemma checkHealth_stale p now :
  AGGREGATION_INTERVAL * 3 <= now - lastSuccessfulAggregation p ->
  status (checkHealth p now) <> healthy.
Proof.
  intros Hs. unfold checkHealth; cbn.
  rewrite (bool_decide_eq_false_2 (_ < AGGREGATION_INTERVAL * 3)) by lia.
  by destruct (isRunning p), (bool_decide (consecutiveErrors p < 5)),
       (bool_decide (consecutiveErrors p < 10)).
Qed.

(** The tenth consecutive error of the consumption loop stops the process,
    and the stopped process is reported unhealthy. *)
Lemma circuit_breaker_unhealthy p now now' :
  consecutiveErrors p = MAX_CONSECUTIVE_ERRORS - 1 ->
  let p' := consume_iteration false now p in
  isRunning p' = false
  /\ consecutiveErrors p' = MAX_CONSECUTIVE_ERRORS
  /\ status (checkHealth p' now') = unhealthy.
Proof.
  intros He p'.
  assert (isRunning p' = false /\ consecutiveErrors p' = MAX_CONSECUTIVE_ERRORS)
    as [Hr Hc].
  { subst p'. unfold consume_iteration. cbn. rewrite He. done. }
  split_and!; [done..|]. apply checkHealth_unhealthy. by left.
Qed.

(** C9 (the code departs from the claim). With a database that rejects
    every insert, each per-pair aggregation of the tick at 100_000 fails and
    nothing is persisted; the tick is stamped as the last successful
    aggregation all the same, and the health check one millisecond later
    reports healthy.  With Redis unreachable during four ticks in a row no
    aggregation succeeds for more than 30 s, and the check still reports
    healthy. *)
Theorem C9_failed_tick_counts_as_successful :
  let getRate := Ok (JNum (dec 90 1)) in
  let '(p1, w1) := aggregate getRate 100000 running world_db_down in
  let '(p4, w4) :=
    ticks getRate [100000; 110000; 120000; 130000] running world_redis_down in
  map (fun pair =>
         Outcome_is_ok (aggregate_pair getRate 100000 pair world_db_down).1)
      USD_PAIRS = [false; false; false]
  /\ price_history w1 = []
  /\ aggregationCount p1 = 0
  /\ lastSuccessfulAggregation p1 = 100000
  /\ status (checkHealth p1 100001) = healthy
  /\ status (checkHealth running 100001) = degraded
  /\ map (fun pair =>
            Outcome_is_ok (aggregate_pair getRate 130000 pair world_redis_down).1)
         USD_PAIRS = [false; false; false]
  /\ price_history w4 = []
  /\ aggregationCount p4 = 0
  /\ status (checkHealth p4 130001) = healthy.
Proof.
  by vm_compute.
Qed.

End StreamAggregatorFacts.

(** ** CBR rate service *)

Module CbrRateFacts.
Import StreamAggregator StreamAggregatorFacts CbrRate CbrRateSpec.

Lemma js_gt0_not_NaN x : js_gt0 x = true -> js_isNaN x = false.
Proof. by destruct x. Qed.

Lemma valid_rate_positive x :
  js_isNaN x || js_le0 x = false -> js_gt0 x = true.
Proof.
  destruct x as [q| | |]; cbn; try done.
  by destruct (Qc_ltb 0 q).
Qed.

Lemma fetchRate_ok now response sv sv' :
  fetchRate now response sv = (Ok tt, sv') ->
  js_gt0 (cachedRate sv') = true.
Proof.
  unfold fetchRate. destruct response as [m|rate setex_ok]; [done|].
  destruct (js_isNaN rate || js_le0 rate) eqn:Hv; [done|].
  destruct setex_ok; cbn; [|done].
  intros [= <-]. cbn. by apply valid_rate_positive.
Qed.

(** A retry loop that reports success has stored a positive rate. *)
Lemma fetch_attempts_success n : forall now responses sv sv' rest,
  fetch_attempts n now responses sv = (true, sv', rest) ->
  js_gt0 (cachedRate sv') = true.
Proof.
  induction n as [|n IH]; intros now responses sv sv' rest; cbn; [done|].
  destruct (fetchRate now _ sv) as [[[]|] sv1] eqn:Hf.
  - intros [= <- _]. cbn. by eapply fetchRate_ok.
  - apply IH.
Qed.

(** The three ways past the Redis read end alike: the in-memory rate, the
    re-fetched rate, or the fallback. *)
Ltac after_redis_miss :=
  match goal with
  | |- context [js_gt0 (cachedRate ?sv)] =>
      destruct (js_gt0 (cachedRate sv)) eqn:?; [by eexists _, _|]
  end;
  match goal with
  | |- context [fetchRateWithRetry ?c ?n ?rs ?sv] =>
      let Hf := fresh "Hf" in
      destruct (fetchRateWithRetry c n rs sv) as [[[] ?] ?] eqn:Hf; cbn;
      [ rewrite (fetch_attempts_success _ _ _ _ _ _ Hf);
        eexists _, _; split_and!;
        [done | by apply (fetch_attempts_success _ _ _ _ _ _ Hf) | done]
      | by eexists _, _ ]
  end.

(** C10. [getRate] always settles, never rejects, and its value is always
    strictly positive: the Redis-cached rate when that is positive,
    otherwise the in-memory rate when that is positive, otherwise the rate a
    successful re-fetch stored, otherwise the fallback 90.  Hence
    [savePrices] takes the RUB branch whenever it asked for the rate: with a
    database that accepts both rows, the RUB row is persisted. *)
Theorem C10_getRate_total_and_positive config now cached responses sv :
  exists rate sv',
    getRate config now cached responses sv = (Ok rate, sv')
    /\ js_gt0 rate = true
    /\ rate =
         match positive_cached cached with
         | Some r => r
         | None =>
             if js_gt0 (cachedRate sv) then cachedRate sv
             else
               let '(success, sv1, _) :=
                 fetchRateWithRetry config now responses sv in
               if success then cachedRate sv1 else JNum FALLBACK_RATE
         end
    /\ (forall vwap w,
          db_accepts w (usdInput vwap) = true ->
          db_accepts w (rubInput vwap rate) = true ->
          price_history
            (savePrices (getRate config now cached responses sv).1 vwap w).2
          = price_history w ++ [usdInput vwap; rubInput vwap rate]).
Proof.
  assert (exists rate sv',
    getRate config now cached responses sv = (Ok rate, sv')
    /\ js_gt0 rate = true
    /\ rate =
         match positive_cached cached with
         | Some r => r
         | None =>
             if js_gt0 (cachedRate sv) then cachedRate sv
             else
               let '(success, sv1, _) :=
                 fetchRateWithRetry config now responses sv in
               if success then cachedRate sv1 else JNum FALLBACK_RATE
         end) as (rate & sv' & Hget & Hpos & Hrate).
  { unfold getRate, positive_cached.
    destruct cached as [[r|]|]; [destruct (js_gt0 r) eqn:Hr|..].
    - rewrite (js_gt0_not_NaN r Hr). cbn. by eexists _, _.
    - rewrite andb_false_r. after_redis_miss.
    - after_redis_miss.
    - after_redis_miss. }
  exists rate, sv'. split_and!; [done..|].
  intros vwap w Husd Hrub. rewrite Hget. cbn.
  by apply savePrices_rows.
Qed.

(** The boundary cases of the specification: with Redis down and every
    fetch failing, a service that never fetched answers the fallback 90 and
    one that fetched before answers its last known rate; a positive rate in
    Redis wins over both, and a cached 0 or NaN is passed over. *)
Example getRate_scenarios :
  let failing := [RequestFails "timeout"; RequestFails "timeout";
                  RequestFails "timeout"] in
  (getRate default_config 5000 Throw failing CbrRate.initial).1
    = Ok (JNum FALLBACK_RATE)
  /\ consecutiveFailures
       (getRate default_config 5000 Throw failing CbrRate.initial).2 = 3
  /\ (getRate default_config 5000 Throw failing fetched_once).1
     = Ok (JNum (Q2Qc (955 # 10)))
  /\ (getRate default_config 5000 (Ok (Some (JNum (Q2Qc 97)))) failing
        fetched_once).1
     = Ok (JNum (Q2Qc 97))
  /\ (getRate default_config 5000 (Ok (Some JNaN)) failing fetched_once).1
     = Ok (JNum (Q2Qc (955 # 10)))
  /\ (getRate default_config 5000 (Ok (Some (JNum 0%Qc)))
        [RequestFails "timeout"; UsdValue (JNum (Q2Qc 92)) true]
        CbrRate.initial).1
     = Ok (JNum (Q2Qc 92)).
Proof. by vm_compute. Qed.

End CbrRateFacts.

(** ** OHLCV aggregator *)

Module OhlcvAggregatorFacts.
Import PriceHistoryRepository OhlcvRepository OhlcvAggregator OhlcvSpec.

Lemma Qc_ltb_true a b : Qc_ltb a b = true <-> (a < b)%Qc.
Proof. unfold Qc_ltb. apply bool_decide_eq_true. Qed.

Lemma Qc_ltb_false a b : Qc_ltb a b = false <-> (b <= a)%Qc.
Proof.
  unfold Qc_ltb. rewrite bool_decide_eq_false. split.
  - apply Qcnot_lt_le.
  - intros H1 H2. by apply (Qcle_not_lt _ _ H1).
Qed.

(** The loop keeps a running maximum and minimum and the two sums. *)
Lemma ohlcv_loop rows : forall high low vol pv,
  exists high' low',
    fold_left ohlcv_step rows (high, low, vol, pv)
      = (high', low', (vol + total_volume rows)%Qc,
         (pv + total_price_volume rows)%Qc)
    /\ is_max high' (high :: map ph_price rows)
    /\ is_min low' (low :: map ph_price rows).
Proof.
  induction rows as [|r rows IH]; intros high low vol pv.
  - exists high, low. unfold total_volume, total_price_volume. cbn.
    rewrite !Qcplus_0_r. split_and!; [done|..].
    + split; [left|]. intros x ->%list_elem_of_singleton. apply Qcle_refl.
    + split; [left|]. intros x ->%list_elem_of_singleton. apply Qcle_refl.
  - cbn [fold_left ohlcv_step].
    edestruct IH as (high' & low' & -> & [Hmi Hm] & [Hli Hl]).
    exists high', low'. split_and!.
    + unfold total_volume, total_price_volume, volume_of. cbn.
      by rewrite !Qcplus_assoc.
    + split.
      * cbn. destruct (Qc_ltb high (ph_price r)) eqn:Hc.
        -- apply elem_of_cons in Hmi as [->|Hmi]; [right; left|by do 2 right].
        -- apply elem_of_cons in Hmi as [->|Hmi]; [left|by do 2 right].
      * intros x Hx. cbn in Hx.
        destruct (Qc_ltb high (ph_price r)) eqn:Hc.
        -- apply Qc_ltb_true in Hc.
           apply elem_of_cons in Hx as [->|Hx].
           ++ eapply Qcle_trans; [by apply Qclt_le_weak|]. apply Hm. left.
           ++ apply Hm. apply elem_of_cons in Hx as [->|Hx]; [left|by right].
        -- apply Qc_ltb_false in Hc.
           apply elem_of_cons in Hx as [->|Hx]; [apply Hm; left|].
           apply elem_of_cons in Hx as [->|Hx].
           ++ eapply Qcle_trans; [exact Hc|]. apply Hm. left.
           ++ apply Hm. by right.
    + split.
      * cbn. destruct (Qc_ltb (ph_price r) low) eqn:Hc.
        -- apply elem_of_cons in Hli as [->|Hli]; [right; left|by do 2 right].
        -- apply elem_of_cons in Hli as [->|Hli]; [left|by do 2 right].
      * intros x Hx. cbn in Hx.
        destruct (Qc_ltb (ph_price r) low) eqn:Hc.
        -- apply Qc_ltb_true in Hc.
           apply elem_of_cons in Hx as [->|Hx].
           ++ eapply Qcle_trans; [|by apply Qclt_le_weak]. apply Hl. left.
           ++ apply Hl. apply elem_of_cons in Hx as [->|Hx]; [left|by right].
        -- apply Qc_ltb_false in Hc.
           apply elem_of_cons in Hx as [->|Hx]; [apply Hl; left|].
           apply elem_of_cons in Hx as [->|Hx].
           ++ eapply Qcle_trans; [|exact Hc]. apply Hl. left.
           ++ apply Hl. by right.
Qed.

(** The candle built from a non-empty result set, field by field. *)
Lemma candle_of_fields pair periodStart first rest :
  exists final high low,
    last (first :: rest) = Some final
    /\ is_max high (map ph_price (first :: rest))
    /\ is_min low (map ph_price (first :: rest))
    /\ candle_of pair periodStart first (first :: rest)
       = {| candle_pair := pair;
            candle_timestamp := periodStart;
            candle_open := toFixed8 (JNum (ph_price first));
            candle_high := toFixed8 (JNum high);
            candle_low := toFixed8 (JNum low);
            candle_close := toFixed8 (JNum (ph_price final));
            candle_volume := toFixed8 (JNum (total_volume (first :: rest)));
            candle_vwap :=
              Some (toFixed8
                      (JNum (vwap_or_mean first final (first :: rest))));
            candle_trade_count := length (first :: rest) |}.
Proof.
  destruct (last (first :: rest)) as [final|] eqn:Hlast;
    [|by apply last_None in Hlast].
  destruct (ohlcv_loop (first :: rest) (ph_price first) (ph_price first)
              0%Qc 0%Qc) as (high & low & Hfold & [Hhi Hh] & [Hli Hl]).
  exists final, high, low. split_and!; [done|..].
  - split; [|intros x Hx; apply Hh; by right].
    apply elem_of_cons in Hhi as [->|Hhi]; [left|done].
  - split; [|intros x Hx; apply Hl; by right].
    apply elem_of_cons in Hli as [->|Hli]; [left|done].
  - unfold candle_of. rewrite Hfold, Hlast, !Qcplus_0_l. reflexivity.
Qed.

(** The [try] body for one pair: nothing is written when no row was loaded,
    otherwise the candle of the loaded rows is upserted. *)
Lemma aggregate_pair_result interval periodStart periodEnd pair db :
  db_up db = true ->
  aggregate_pair interval periodStart periodEnd pair db
  = match loaded periodStart periodEnd pair db with
    | [] => (Ok false, db)
    | first :: rest =>
        (Ok true,
         {| db_up := db_up db; price_history := price_history db;
            candles :=
              <[getTableName interval :=
                  upsert_row (candle_of pair periodStart first (first :: rest))
                    (table db (getTableName interval))]> (candles db) |})
    end.
Proof.
  intros Hup. unfold aggregate_pair. rewrite Hup.
  fold (loaded periodStart periodEnd pair db).
  destruct (loaded periodStart periodEnd pair db) as [|first rest]; [done|].
  unfold upsertCandle. by rewrite Hup.
Qed.

Lemma same_key_pair c r : same_key c r = true -> candle_pair r = candle_pair c.
Proof.
  unfold same_key. intros [H _]%andb_prop. by apply bool_decide_eq_true in H.
Qed.

(** An upsert touches the rows of its own pair only. *)
Lemma candles_of_upsert_other c rows pair :
  candle_pair c <> pair ->
  candles_of pair (upsert_row c rows) = candles_of pair rows.
Proof.
  intros Hne. unfold candles_of, upsert_row.
  destruct (existsb (same_key c) rows).
  - induction rows as [|r rows IH]; [done|]. cbn [map].
    rewrite !filter_cons, IH.
    destruct (same_key c r) eqn:Hk; [|done].
    apply same_key_pair in Hk.
    rewrite !decide_False; congruence.
  - rewrite filter_app, filter_cons, decide_False by done.
    by rewrite filter_nil, app_nil_r.
Qed.

Lemma candles_of_upsert_same c rows :
  candles_of (candle_pair c) (upsert_row c rows)
  = upsert_row c (candles_of (candle_pair c) rows).
Proof.
  unfold candles_of, upsert_row.
  assert (existsb (same_key c) (filter (fun r => candle_pair r = candle_pair c) rows)
          = existsb (same_key c) rows) as ->.
  { induction rows as [|r rows IH]; [done|].
    rewrite filter_cons. cbn [existsb].
    destruct (same_key c r) eqn:Hk.
    - apply same_key_pair in Hk as Hp. rewrite decide_True by done.
      cbn. by rewrite Hk.
    - case_decide; cbn; by rewrite ?Hk, IH. }
  destruct (existsb (same_key c) rows).
  - induction rows as [|r rows IH]; [done|]. cbn [map].
    rewrite !filter_cons, IH.
    destruct (same_key c r) eqn:Hk.
    + apply same_key_pair in Hk as Hp.
      rewrite !decide_True by done. cbn. by rewrite Hk.
    + case_decide; [|done]. cbn. by rewrite Hk.
  - rewrite filter_app, filter_cons, decide_True by done.
    by rewrite filter_nil.
Qed.

Lemma upsert_row_elem c rows : c ∈ upsert_row c rows.
Proof.
  unfold upsert_row. destruct (existsb (same_key c) rows) eqn:He.
  - apply existsb_exists in He as (r & Hr & Hk).
    apply list_elem_of_In, in_map_iff. exists r. by rewrite Hk.
  - apply elem_of_app. right. left.
Qed.

Lemma candle_of_pair pair periodStart first rows :
  candle_pair (candle_of pair periodStart first rows) = pair.
Proof.
  unfold candle_of. by destruct (fold_left _ _ _) as [[[? ?] ?] ?].
Qed.

(** The loop over the pairs: the database stays up, [price_history] is only
    read, and in the candle table each pair of the list gets its own candle
    upserted, or nothing when no row was loaded. *)
Lemma aggregate_fold interval periodStart periodEnd pairs :
  forall n db,
    NoDup pairs ->
    db_up db = true ->
    let res := fold_left (aggregate_step interval periodStart periodEnd)
                 pairs (n, db) in
    db_up res.2 = true
    /\ price_history res.2 = price_history db
    /\ forall pair,
         candles_of pair (table res.2 (getTableName interval))
         = if decide (pair ∈ pairs) then
             match loaded periodStart periodEnd pair db with
             | [] => candles_of pair (table db (getTableName interval))
             | first :: rest =>
                 upsert_row (candle_of pair periodStart first (first :: rest))
                   (candles_of pair (table db (getTableName interval)))
             end
           else candles_of pair (table db (getTableName interval)).
Proof.
  induction pairs as [|p0 pairs IH]; intros n db Hnd Hup; [done|].
  apply NoDup_cons in Hnd as [Hp0 Hnd].
  cbn [fold_left].
  assert (aggregate_step interval periodStart periodEnd (n, db) p0
          = match loaded periodStart periodEnd p0 db with
            | [] => (n, db)
            | first :: rest =>
                (S n,
                 {| db_up := db_up db; price_history := price_history db;
                    candles :=
                      <[getTableName interval :=
                          upsert_row
                            (candle_of p0 periodStart first (first :: rest))
                            (table db (getTableName interval))]> (candles db) |})
            end) as ->.
  { unfold aggregate_step. rewrite aggregate_pair_result by done.
    by destruct (loaded periodStart periodEnd p0 db). }
  destruct (loaded periodStart periodEnd p0 db) as [|first rest] eqn:Hl.
  - destruct (IH n db Hnd Hup) as (Hup' & Hph & Hc).
    split_and!; [done..|]. intros pair. rewrite Hc.
    destruct (decide (pair = p0)) as [->|Hne].
    + rewrite decide_False, decide_True, Hl by (done || left). done.
    + destruct (decide (pair ∈ pairs)) as [Hin|Hin].
      * by rewrite decide_True by by right.
      * rewrite decide_False; [done|]. by intros [?|?]%elem_of_cons.
  - set (db1 := {| db_up := _ |}).
    destruct (IH (S n) db1 Hnd Hup) as (Hup' & Hph & Hc).
    assert (table db1 (getTableName interval)
            = upsert_row (candle_of p0 periodStart first (first :: rest))
                (table db (getTableName interval))) as Ht.
    { unfold table at 1. cbn. by rewrite lookup_insert_eq. }
    split_and!; [done..|]. intros pair. rewrite Hc, Ht.
    unfold loaded in *. cbn [price_history db1].
    destruct (decide (pair = p0)) as [->|Hne].
    + rewrite decide_False, decide_True, Hl by (done || left).
      rewrite <- (candle_of_pair p0 periodStart first (first :: rest)) at 1.
      rewrite candles_of_upsert_same. by rewrite candle_of_pair.
    + rewrite (candles_of_upsert_other _ _ pair)
        by by rewrite candle_of_pair.
      destruct (decide (pair ∈ pairs)) as [Hin|Hin].
      * rewrite (decide_True (P := pair ∈ p0 :: pairs)) by by right. done.
      * rewrite (decide_False (P := pair ∈ p0 :: pairs)); [done|].
        by intros [?|?]%elem_of_cons.
Qed.

(** C5. For a pair whose loaded canonical prices are not empty, the candle
    upserted for the period has open = the first row's price, close = the
    last row's price, high = the maximum price, low = the minimum price,
    volume = Σ row volumes, trade_count = the number of rows, and
    vwap = Σ(price × volume) / Σ volume when Σ volume > 0 and the mean of
    open and close otherwise; for a pair with no rows nothing is written. *)
Theorem C5_candle_from_loaded_prices interval periodStart periodEnd db pair :
  db_up db = true ->
  pair ∈ USD_PAIRS ++ RUB_PAIRS ->
  let db' := (aggregateInterval interval periodStart periodEnd db).2 in
  let tableName := getTableName interval in
  match loaded periodStart periodEnd pair db with
  | [] => candles_of pair (table db' tableName)
          = candles_of pair (table db tableName)
  | first :: rest =>
      exists c final high low,
        c ∈ table db' tableName
        /\ candles_of pair (table db' tableName)
           = upsert_row c (candles_of pair (table db tableName))
        /\ last (first :: rest) = Some final
        /\ is_max high (map ph_price (first :: rest))
        /\ is_min low (map ph_price (first :: rest))
        /\ c = {| candle_pair := pair;
                  candle_timestamp := periodStart;
                  candle_open := toFixed8 (JNum (ph_price first));
                  candle_high := toFixed8 (JNum high);
                  candle_low := toFixed8 (JNum low);
                  candle_close := toFixed8 (JNum (ph_price final));
                  candle_volume :=
                    toFixed8 (JNum (total_volume (first :: rest)));
                  candle_vwap :=
                    Some (toFixed8
                            (JNum (vwap_or_mean first final (first :: rest))));
                  candle_trade_count := length (first :: rest) |}
  end.
Proof.
  intros Hup Hpair db' tableName.
  assert (NoDup (USD_PAIRS ++ RUB_PAIRS)) as Hnd
    by (apply (bool_decide_unpack _); by vm_compute).
  destruct (aggregate_fold interval periodStart periodEnd _ 0%nat db Hnd Hup)
    as (_ & _ & Hc).
  specialize (Hc pair). rewrite decide_True in Hc by done.
  fold (aggregateInterval interval periodStart periodEnd db) in Hc.
  fold db' tableName in Hc.
  destruct (loaded periodStart periodEnd pair db) as [|first rest]; [done|].
  destruct (candle_of_fields pair periodStart first rest)
    as (final & high & low & Hlast & Hmax & Hmin & Hcandle).
  exists (candle_of pair periodStart first (first :: rest)), final, high, low.
  split_and!; try done.
  assert (candle_of pair periodStart first (first :: rest)
            ∈ candles_of pair (table db' tableName)) as Hin.
  { rewrite Hc. apply upsert_row_elem. }
  unfold candles_of in Hin. by apply list_elem_of_filter in Hin as [_ ?].
Qed.

Lemma C5_candle_from_loaded_prices_witness :
  let db' := (aggregateInterval I5min 0 300000 db_three_prices).2 in
  let tableName := getTableName I5min in
  match loaded 0 300000 "btc-usd" db_three_prices with
  | [] => candles_of "btc-usd" (table db' tableName)
          = candles_of "btc-usd" (table db_three_prices tableName)
  | first :: rest =>
      exists c final high low,
        c ∈ table db' tableName
        /\ candles_of "btc-usd" (table db' tableName)
           = upsert_row c (candles_of "btc-usd" (table db_three_prices tableName))
        /\ last (first :: rest) = Some final
        /\ is_max high (map ph_price (first :: rest))
        /\ is_min low (map ph_price (first :: rest))
        /\ c = {| candle_pair := "btc-usd";
                  candle_timestamp := 0;
                  candle_open := toFixed8 (JNum (ph_price first));
                  candle_high := toFixed8 (JNum high);
                  candle_low := toFixed8 (JNum low);
                  candle_close := toFixed8 (JNum (ph_price final));
                  candle_volume :=
                    toFixed8 (JNum (total_volume (first :: rest)));
                  candle_vwap :=
                    Some (toFixed8
                            (JNum (vwap_or_mean first final (first :: rest))));
                  candle_trade_count := length (first :: rest) |}
  end.
Proof.
  apply (C5_candle_from_loaded_prices I5min 0 300000 db_three_prices "btc-usd").
  - reflexivity.
  - left.
Defined.

(** Scenario 5 of the specification. *)
Example candle_aggregation_scenario :
  table (aggregateInterval I5min 0 300000 db_three_prices).2 "price_history_5min"
  = [ {| candle_pair := "btc-usd"; candle_timestamp := 0;
         candle_open := F8 10000000000; candle_high := F8 11000000000;
         candle_low := F8 10000000000; candle_close := F8 10500000000;
         candle_volume := F8 400000000;
         candle_vwap := Some (F8 10625000000);
         candle_trade_count := 3 |} ]
  /\ (aggregateInterval I5min 0 300000 db_three_prices).1 = 1%nat.
Proof. by vm_compute. Qed.

#[local] Instance ts_le_trans : Transitive ts_le.
Proof. unfold ts_le. intros x y z. lia. Qed.

#[local] Instance ts_le_total : Total ts_le.
Proof. unfold ts_le. intros x y. lia. Qed.

(** What the aggregator does load: rows of the pair, stamped inside the
    closed interval from periodStart to periodEnd, by ascending event-time,
    and never more than the default page of 1_000 rows (below the cap of
    10_000). *)
Lemma loaded_rows periodStart periodEnd pair db :
  (forall r, r ∈ loaded periodStart periodEnd pair db ->
             r ∈ price_history db /\ ph_pair r = pair
             /\ periodStart <= ph_timestamp r <= periodEnd)
  /\ StronglySorted ts_le (loaded periodStart periodEnd pair db)
  /\ Z.of_nat (length (loaded periodStart periodEnd pair db))
       <= DEFAULT_LIMIT <= MAX_LIMIT.
Proof.
  unfold loaded, findByPairInRange. cbn.
  set (sel := filter _ (filter _ (filter _ _))).
  split_and!.
  - intros r Hr%subseteq_take.
    rewrite merge_sort_Permutation in Hr. unfold sel in Hr.
    rewrite !list_elem_of_filter in Hr.
    destruct Hr as (Hto & Hfrom & Hpair & Hin). done.
  - rewrite <- (take_drop (Z.to_nat (DEFAULT_LIMIT `min` MAX_LIMIT))
                  (merge_sort ts_le sel)) at 1.
    pose proof (StronglySorted_merge_sort ts_le sel) as Hs.
    rewrite <- (take_drop (Z.to_nat (DEFAULT_LIMIT `min` MAX_LIMIT))
                  (merge_sort ts_le sel)) in Hs.
    apply StronglySorted_app_1_l in Hs.
    by rewrite take_drop.
  - rewrite length_take. unfold DEFAULT_LIMIT, MAX_LIMIT. lia.
  - done.
Qed.

(** The aggregator passes no limit, so a period with more rows than the
    default page is cut to its first 1_000 rows. *)
Example default_page_truncates :
  length (price_history db_busy_day) = 1001%nat
  /\ length (loaded 0 86400000 "btc-usd" db_busy_day) = 1000%nat
  /\ ph_timestamp <$> last (loaded 0 86400000 "btc-usd" db_busy_day)
     = Some 9990000.
Proof. by vm_compute. Qed.

(** C6 (the code departs from the claim). A canonical price stamped exactly
    at periodEnd is loaded with the period that ends there: it closes the
    candle of the block starting at 0 at 500, and it is loaded again as the
    first price of the block starting at 300_000. *)
Theorem C6_price_at_period_end_is_loaded :
  map ph_timestamp (loaded 0 300000 "btc-usd" db_boundary_price)
    = [0; 60000; 120000; 300000]
  /\ map ph_timestamp (loaded 300000 600000 "btc-usd" db_boundary_price)
    = [300000]
  /\ map (fun c => (candle_close c, candle_high c, candle_trade_count c))
       (table (aggregateInterval I5min 0 300000 db_boundary_price).2
              "price_history_5min")
    = [(F8 50000000000, F8 50000000000, 4%nat)].
Proof. by vm_compute. Qed.

End OhlcvAggregatorFacts.

(** ** OHLCV repository: cursor pagination *)

Module OhlcvRepositoryFacts.
Import OhlcvRepository OhlcvRepositorySpec.

#[local] Instance candle_ts_ge_trans : Transitive candle_ts_ge.
Proof. unfold candle_ts_ge. intros x y z. lia. Qed.

#[local] Instance candle_ts_ge_total : Total candle_ts_ge.
Proof. unfold candle_ts_ge. intros x y. lia. Qed.

Lemma StronglySorted_take {A} (R : relation A) n (l : list A) :
  StronglySorted R l -> StronglySorted R (take n l).
Proof.
  intros Hs. rewrite <- (take_drop n l) in Hs.
  by apply StronglySorted_app_1_l in Hs.
Qed.

(** The SELECT asks for at most [limit + 1] rows. *)
Lemma fetch_length interval options db :
  0 <= default 100 (opt_limit options) ->
  Z.of_nat (length (fetch interval options db))
    <= default 100 (opt_limit options) + 1.
Proof. intros Hl. unfold fetch. rewrite length_take. lia. Qed.

(** By default the rows come newest first. *)
Lemma fetch_default_order interval options db :
  opt_orderBy options = None ->
  StronglySorted candle_ts_ge (fetch interval options db).
Proof.
  intros Ho. unfold fetch. rewrite Ho. cbn.
  apply StronglySorted_take, StronglySorted_merge_sort; apply _.
Qed.

(** C7, as the specification words it, fails: with three candles and a page
    size of 2 the third row (period-start 300_000) is fetched and dropped,
    and [nextCursor] encodes the period-start of the last row returned
    (600_000), not that of the dropped row. *)
Lemma C7_next_cursor_is_not_the_dropped_row :
  exists page dropped,
    getCandlesWithCursor I5min (page_of_two None) db_three_candles = Ok page
    /\ fetch I5min (page_of_two None) db_three_candles
       = page_candles page ++ [dropped]
    /\ hasMore page = true
    /\ candle_timestamp dropped = 300000
    /\ nextCursor page <> Some (Base64Iso (candle_timestamp dropped))
    /\ nextCursor page = Some (Base64Iso 600000).
Proof.
  eexists _, (candle_at 300000). split; [by vm_compute|].
  by vm_compute.
Qed.

#[local] Instance candle_ts_le_trans : Transitive candle_ts_le.
Proof. unfold candle_ts_le. intros x y z. lia. Qed.

#[local] Instance candle_ts_le_total : Total candle_ts_le.
Proof. unfold candle_ts_le. intros x y. lia. Qed.

(** The WHERE clauses of the query keep the rows that match it. *)
Lemma fetch_matching interval options db :
  fetch interval options db
  = take (Z.to_nat (default 100 (opt_limit options) + 1))
      (order_by (default desc (opt_orderBy options))
         (filter (matches options) (table db (getTableName interval)))).
Proof.
  unfold fetch. do 2 f_equal.
  destruct options as [pair from to lim cursor o]. cbn.
  destruct cursor as [cursor|], from as [from|], to as [to|]; cbn;
    rewrite ?list_filter_filter; apply list_filter_iff;
    intros r; unfold matches; cbn; tauto.
Qed.

Lemma order_by_sorted o rows : sorted_by o (order_by o rows).
Proof. destruct o; cbn; apply StronglySorted_merge_sort; apply _. Qed.

Lemma order_by_Permutation o rows : order_by o rows ≡ₚ rows.
Proof. destruct o; cbn; apply merge_sort_Permutation. Qed.

(** C7 (amended). A cursor-paginated candle query with page size [limit]
    fetches the first [limit + 1] of the rows that match it, taken in the
    order asked for (all of them when no more than [limit + 1] match);
    [hasMore] is true exactly when more than [limit] rows match; the page
    is the first [limit] matching rows; when [hasMore] is true (and the
    page size is at least 1) the one extra row, the matching row at
    position [limit], is dropped and the period-start of the last row
    returned is emitted as [nextCursor], otherwise [nextCursor] is null;
    when the caller supplied a cursor and the page is not empty the first
    returned row's period-start is emitted as [previousCursor], otherwise
    [previousCursor] is null; and without an explicit order the rows are
    descending by period-start. *)
Theorem C7_cursor_page interval options db :
  db_up db = true ->
  0 <= default 100 (opt_limit options) ->
  let limit := default 100 (opt_limit options) in
  let rows := fetch interval options db in
  exists matching page,
    matching ≡ₚ filter (matches options) (table db (getTableName interval))
    /\ sorted_by (default desc (opt_orderBy options)) matching
    /\ getCandlesWithCursor interval options db = Ok page
    /\ rows = take (Z.to_nat (limit + 1)) matching
    /\ Z.of_nat (length rows) = Z.min (limit + 1) (Z.of_nat (length matching))
    /\ hasMore page = bool_decide (limit < Z.of_nat (length matching))
    /\ hasMore page = bool_decide (limit < Z.of_nat (length rows))
    /\ page_candles page = take (Z.to_nat limit) matching
    /\ page_candles page = take (Z.to_nat limit) rows
    /\ (hasMore page = true -> 1 <= limit ->
        exists final dropped,
          rows = page_candles page ++ [dropped]
          /\ matching !! Z.to_nat limit = Some dropped
          /\ last (page_candles page) = Some final
          /\ nextCursor page = Some (Base64Iso (candle_timestamp final)))
    /\ (hasMore page = false -> nextCursor page = None)
    /\ (limit = 0 -> nextCursor page = None)
    /\ (forall cursor first rest,
          opt_cursor options = Some cursor ->
          page_candles page = first :: rest ->
          previousCursor page = Some (Base64Iso (candle_timestamp first)))
    /\ (opt_cursor options = None -> previousCursor page = None)
    /\ (page_candles page = [] -> previousCursor page = None)
    /\ (opt_orderBy options = None ->
        StronglySorted candle_ts_ge (page_candles page)).
Proof.
  intros Hup Hlim limit rows.
  set (matching := order_by (default desc (opt_orderBy options))
                     (filter (matches options)
                        (table db (getTableName interval)))).
  assert (rows = take (Z.to_nat (limit + 1)) matching) as Hrows
    by apply fetch_matching.
  assert (Z.of_nat (length rows)
          = Z.min (limit + 1) (Z.of_nat (length matching))) as Hlen.
  { rewrite Hrows, length_take. lia. }
  assert (take (Z.to_nat limit) rows = take (Z.to_nat limit) matching)
    as Htake.
  { rewrite Hrows, take_take. f_equal. lia. }
  exists matching. unfold getCandlesWithCursor. rewrite Hup.
  fold limit rows. eexists.
  split; [apply order_by_Permutation|].
  split; [apply order_by_sorted|].
  split; [reflexivity|]. cbn.
  split; [exact Hrows|]. split; [exact Hlen|].
  assert (bool_decide (limit < Z.of_nat (length rows))
          = bool_decide (limit < Z.of_nat (length matching))) as Hsame.
  { apply bool_decide_ext. lia. }
  split; [exact Hsame|]. split; [reflexivity|].
  destruct (bool_decide (limit < Z.of_nat (length rows))) eqn:Hmore.
  - apply bool_decide_eq_true in Hmore.
    assert (length rows = S (Z.to_nat limit)) as Hn by lia.
    split; [exact Htake|]. split; [reflexivity|].
    split.
    { intros _ Hone.
      destruct (last (take (Z.to_nat limit) rows)) as [final|] eqn:Hlast.
      - destruct (drop (Z.to_nat limit) rows) as [|dropped tl] eqn:Hdrop.
        { apply (f_equal length) in Hdrop. rewrite length_drop in Hdrop.
          cbn in Hdrop. lia. }
        assert (tl = []) as ->.
        { apply (f_equal length) in Hdrop. rewrite length_drop in Hdrop.
          cbn in Hdrop. apply length_zero_iff_nil. lia. }
        exists final, dropped. split_and!; [| |done..].
        + by rewrite <- Hdrop, take_drop.
        + assert (rows !! Z.to_nat limit = Some dropped) as Hd.
          { rewrite <- (take_drop (Z.to_nat limit) rows) at 1.
            rewrite Hdrop, lookup_app_r by (rewrite length_take; lia).
            rewrite length_take.
            replace (Z.to_nat limit - Z.to_nat limit `min` length rows)%nat
              with 0%nat by lia.
            done. }
          rewrite Hrows in Hd. rewrite lookup_take_Some in Hd. tauto.
      - apply last_None in Hlast. apply (f_equal length) in Hlast.
        rewrite length_take in Hlast. cbn in Hlast. lia. }
    split; [done|].
    split.
    { intros H0. replace (Z.to_nat limit) with 0%nat by lia.
      by rewrite take_0. }
    split; [by intros cursor first rest -> ->|].
    split; [by intros ->|].
    split; [by intros ->; destruct (opt_cursor options)|].
    intros Ho. by apply StronglySorted_take, fetch_default_order.
  - apply bool_decide_eq_false in Hmore.
    split; [by rewrite <- Htake, take_ge by lia|].
    split; [by rewrite take_ge by lia|].
    split; [done|]. split; [done|]. split; [done|].
    split; [by intros cursor first rest -> ->|].
    split; [by intros ->|].
    split; [by intros ->; destruct (opt_cursor options)|].
    intros Ho. by apply fetch_default_order.
Qed.

Lemma C7_cursor_page_witness :
  let limit := 2 in
  let rows := fetch I5min (page_of_two (Some (Base64Iso 1500000))) db_five_candles in
  exists matching page,
    matching ≡ₚ filter (matches (page_of_two (Some (Base64Iso 1500000)))) (table db_five_candles (getTableName I5min))
    /\ sorted_by (default desc (opt_orderBy (page_of_two (Some (Base64Iso 1500000))))) matching
    /\ getCandlesWithCursor I5min (page_of_two (Some (Base64Iso 1500000))) db_five_candles = Ok page
    /\ rows = take (Z.to_nat (limit + 1)) matching
    /\ Z.of_nat (length rows) = Z.min (limit + 1) (Z.of_nat (length matching))
    /\ hasMore page = bool_decide (limit < Z.of_nat (length matching))
    /\ hasMore page = bool_decide (limit < Z.of_nat (length rows))
    /\ page_candles page = take (Z.to_nat limit) matching
    /\ page_candles page = take (Z.to_nat limit) rows
    /\ (hasMore page = true -> 1 <= limit ->
        exists final dropped,
          rows = page_candles page ++ [dropped]
          /\ matching !! Z.to_nat limit = Some dropped
          /\ last (page_candles page) = Some final
          /\ nextCursor page = Some (Base64Iso (candle_timestamp final)))
    /\ (hasMore page = false -> nextCursor page = None)
    /\ (limit = 0 -> nextCursor page = None)
    /\ (forall cursor first rest,
          opt_cursor (page_of_two (Some (Base64Iso 1500000))) = Some cursor ->
          page_candles page = first :: rest ->
          previousCursor page = Some (Base64Iso (candle_timestamp first)))
    /\ (opt_cursor (page_of_two (Some (Base64Iso 1500000))) = None -> previousCursor page = None)
    /\ (page_candles page = [] -> previousCursor page = None)
    /\ (opt_orderBy (page_of_two (Some (Base64Iso 1500000))) = None ->
        StronglySorted candle_ts_ge (page_candles page)).
Proof.
  apply (C7_cursor_page I5min (page_of_two (Some (Base64Iso 1500000)))
           db_five_candles).
  - reflexivity.
  - cbn. lia.
Defined.

(** Following [nextCursor] from the first page of two reaches the dropped
    row, and that page reports the row as its [previousCursor]. *)
Example cursor_pages_scenario :
  match getCandlesWithCursor I5min (page_of_two None) db_three_candles with
  | Ok page1 =>
      map candle_timestamp (page_candles page1) = [900000; 600000]
      /\ match getCandlesWithCursor I5min (page_of_two (nextCursor page1))
                 db_three_candles with
         | Ok page2 =>
             map candle_timestamp (page_candles page2) = [300000]
             /\ hasMore page2 = false
             /\ nextCursor page2 = None
             /\ previousCursor page2 = Some (Base64Iso 300000)
         | Throw => False
         end
  | Throw => False
  end.
Proof. by vm_compute. Qed.

End OhlcvRepositoryFacts.

(** ** Rate limiter *)

Module RateLimitFacts.
Import RateLimit RateLimitSpec.

Section EnabledLimiter.

(** One client, one endpoint, and a limiter that is switched on. *)
Variable config : RateLimitConfig.
Variable clientId : string.
Variable endpoint : option string.
Hypothesis limiter_enabled : enabled config = true.

Let key : string := rate_key clientId endpoint.
Let check (now : Z) (random : string) (s : Store) : RateLimitResult * Store :=
  checkLimit config now random clientId endpoint s.

(** What one check leaves in the store: the evicted window with the current
    request added, whatever the verdict. *)
Lemma checkLimit_store now random s :
  redis_ok s = true ->
  redis_ok (check now random s).2 = true
  /\ zget (check now random s).2 key
     = zadd now (now, random) (current_window config now key s)
  /\ ttl (check now random s).2 !! key
     = Some (ceil_div (windowMs config) 1000 + 1).
Proof.
  intros Hok. unfold check, checkLimit.
  rewrite limiter_enabled, Hok. cbn. fold key.
  destruct (bool_decide _); cbn; unfold zget; cbn;
    by rewrite !lookup_insert_eq.
Qed.

Lemma checkLimit_verdict now random s :
  redis_ok s = true ->
  (check now random s).1
  = if bool_decide (maxRequests config <= zcard (current_window config now key s))
    then denied config now
    else {| allowed := true;
            remaining :=
              Z.max 0 (maxRequests config
                       - zcard (current_window config now key s) - 1);
            resetTime := now + windowMs config;
            retryAfter := None |}.
Proof.
  intros Hok. unfold check, checkLimit, current_window.
  rewrite limiter_enabled, Hok. cbn. fold key. by destruct (bool_decide _).
Qed.

(** An entry that is inside the window of a check and is not the member
    being added is still there after the check. *)
Lemma checkLimit_keeps now random s e :
  redis_ok s = true ->
  e ∈ zget s key ->
  now - windowMs config < e.1 ->
  e.2 <> (now, random) ->
  e ∈ zget (check now random s).2 key.
Proof.
  intros Hok He Hw Hm.
  destruct (checkLimit_store now random s Hok) as (_ & -> & _).
  unfold zadd, current_window, zremrangebyscore.
  apply elem_of_app. left. rewrite !list_elem_of_filter.
  split_and!; [done| |done].
  intros [_ Hle]. lia.
Qed.

(** The member of the check itself is there too. *)
Lemma checkLimit_records now random s :
  redis_ok s = true ->
  (now, (now, random)) ∈ zget (check now random s).2 key.
Proof.
  intros Hok.
  destruct (checkLimit_store now random s Hok) as (_ & -> & _).
  unfold zadd. apply elem_of_app. right. left.
Qed.

(** A burst of calls that all fall inside the window ending at [T] leaves
    every one of its members in the store. *)
Lemma checkLimits_keep T calls :
  forall s,
    redis_ok s = true ->
    NoDup calls ->
    (forall call, call ∈ calls -> T - windowMs config < call.1 <= T) ->
    let s' := (checkLimits config clientId endpoint calls s).2 in
    redis_ok s' = true
    /\ (forall e, e ∈ zget s key -> T - windowMs config < e.1 ->
                  e.2 ∉ calls -> e ∈ zget s' key)
    /\ (forall call, call ∈ calls -> (call.1, call) ∈ zget s' key).
Proof.
  induction calls as [|[now random] calls IH]; intros s Hok Hnd Hin.
  { cbn. split_and!; [done..|]. intros call Hc. by apply elem_of_nil in Hc. }
  apply NoDup_cons in Hnd as [Hfresh Hnd].
  cbn [checkLimits].
  pose proof (checkLimit_store now random s Hok) as (Hok1 & _).
  pose proof (checkLimit_keeps now random s) as Hkeep.
  pose proof (checkLimit_records now random s Hok) as Hrec.
  unfold check in Hok1, Hkeep, Hrec.
  destruct (checkLimit config now random clientId endpoint s) as [r s1].
  cbn in Hok1, Hkeep, Hrec.
  assert (forall call, call ∈ calls -> T - windowMs config < call.1 <= T)
    as Hin'.
  { intros call Hc. apply Hin. by right. }
  destruct (IH s1 Hok1 Hnd Hin') as (Hok' & Hold & Hnew).
  destruct (checkLimits config clientId endpoint calls s1) as [rs s2].
  cbn in *.
  assert (T - windowMs config < now <= T) as Hnow.
  { apply (Hin (now, random)). left. }
  split_and!; [done|..].
  - intros e He Hw Hnot. apply Hold; [|done|].
    + apply Hkeep; [done..|lia|].
      intros Heq. apply Hnot. rewrite Heq. left.
    + intros Hc. apply Hnot. by right.
  - intros call [->|Hc]%elem_of_cons.
    + apply Hold; [done|cbn; lia|done].
    + by apply Hnew.
Qed.

(** After [max] distinct requests inside the window that ends at [T], the
    window of a check at [T] is full. *)
Lemma burst_fills_window T calls s :
  redis_ok s = true ->
  length calls = Z.to_nat (maxRequests config) ->
  NoDup calls ->
  (forall call, call ∈ calls -> T - windowMs config < call.1 <= T) ->
  let s1 := (checkLimits config clientId endpoint calls s).2 in
  redis_ok s1 = true
  /\ maxRequests config <= zcard (current_window config T key s1).
Proof.
  intros Hok Hlen Hnd Hin s1.
  destruct (checkLimits_keep T calls s Hok Hnd Hin) as (Hok1 & _ & Hnew).
  fold s1 in Hok1, Hnew. split; [done|].
  assert (map (fun call : Z * string => (call.1, call)) calls
            ⊆+ current_window config T key s1) as Hsub.
  { apply NoDup_submseteq.
    - apply NoDup_fmap_2; [|done]. by intros x y [= _ ->].
    - intros e (call & -> & Hc)%list_elem_of_fmap.
      unfold current_window, zremrangebyscore.
      apply list_elem_of_filter. split; [|by apply Hnew].
      cbn. specialize (Hin call Hc). intros [_ Hle]. lia. }
  apply submseteq_length in Hsub. rewrite length_map in Hsub.
  unfold zcard. lia.
Qed.

(** C8 (amended). For a check with the limiter enabled and Redis answering,
    let c be the count of the window after evicting the entries scored up to
    now − window.  If c ≥ max the result is
    {allowed:false, remaining:0, resetTime: now+window, retryAfter: window};
    if c < max the request is allowed with max(0, max − c − 1) remaining.
    The current request is added to the window in both cases.  In
    particular, after M = max requests whose times lie inside the window
    that ends at T, a request at T is denied with retryAfter = W. *)
Theorem C8_sliding_window s :
  redis_ok s = true ->
  (forall now random,
     let c := zcard (current_window config now key s) in
     let '(r, s') := checkLimit config now random clientId endpoint s in
     (maxRequests config <= c -> r = denied config now)
     /\ (c < maxRequests config ->
         allowed r = true
         /\ remaining r = Z.max 0 (maxRequests config - c - 1)
         /\ resetTime r = now + windowMs config
         /\ retryAfter r = None)
     /\ zget s' key = zadd now (now, random) (current_window config now key s))
  /\ (forall calls T random,
        length calls = Z.to_nat (maxRequests config) ->
        NoDup calls ->
        (forall call, call ∈ calls -> T - windowMs config < call.1 <= T) ->
        let s1 := (checkLimits config clientId endpoint calls s).2 in
        (checkLimit config T random clientId endpoint s1).1 = denied config T
        /\ forall w, retryAfter (denied config T) = Some w -> w <= windowMs config).
Proof.
  intros Hok. split.
  - intros now random c.
    pose proof (checkLimit_verdict now random s Hok) as Hv.
    pose proof (checkLimit_store now random s Hok) as (_ & Hs & _).
    unfold check in Hv, Hs.
    destruct (checkLimit config now random clientId endpoint s) as [r s'].
    cbn in Hv, Hs. fold c in Hv.
    split_and!; [| |done].
    + intros Hc. by rewrite Hv, bool_decide_eq_true_2.
    + intros Hc. by rewrite Hv, bool_decide_eq_false_2 by lia.
  - intros calls T random Hlen Hnd Hin s1. split.
    + destruct (burst_fills_window T calls s Hok Hlen Hnd Hin)
        as [Hok1 Hfull].
      fold s1 in Hok1, Hfull.
      pose proof (checkLimit_verdict T random s1 Hok1) as Hv.
      unfold check in Hv. by rewrite Hv, bool_decide_eq_true_2.
    + intros w [= <-]. lia.
Qed.

End EnabledLimiter.

(** C8, as the specification words it, fails: a denied request is recorded.
    With one request per minute, the request at 2_000 is denied and enters
    the window; at 61_500 the request of 1_000 has left the window but the
    denied one has not, and the caller is denied again. *)
Lemma C8_denied_request_is_recorded :
  let s1 := (checkLimit one_per_minute 1000 "a" "client" None empty_store).2 in
  let '(r2, s2) := checkLimit one_per_minute 2000 "b" "client" None s1 in
  let '(r3, s3) := checkLimit one_per_minute 61500 "c" "client" None s2 in
  allowed r2 = false
  /\ zget s2 "ratelimit:client" = [(1000, (1000, "a")); (2000, (2000, "b"))]
  /\ current_window one_per_minute 61500 "ratelimit:client" s2
     = [(2000, (2000, "b"))]
  /\ allowed r3 = false.
Proof. by vm_compute. Qed.

(** One request per minute: the request at 1_000 finds an empty window, is
    allowed and recorded; the burst of that one request fills the window,
    and the request at 2_000 is denied. *)
Lemma C8_sliding_window_witness :
  (let '(r, s') := checkLimit one_per_minute 1000 "a" "client" None empty_store in
   allowed r = true
   /\ remaining r = 0
   /\ resetTime r = 61000
   /\ retryAfter r = None
   /\ zget s' "ratelimit:client" = [(1000, (1000, "a"))])
  /\ (checkLimit one_per_minute 2000 "b" "client" None
        (checkLimits one_per_minute "client" None [(1000, "a")] empty_store).2).1
     = denied one_per_minute 2000.
Proof.
  destruct (C8_sliding_window one_per_minute "client" None eq_refl
              empty_store eq_refl) as [Hcheck Hburst].
  split.
  - specialize (Hcheck 1000 "a").
    destruct (checkLimit one_per_minute 1000 "a" "client" None empty_store)
      as [r s'].
    destruct Hcheck as (_ & Hallowed & Hstore).
    destruct Hallowed as (Ha & Hr & Ht & Hn); [by vm_compute|].
    split_and!; [exact Ha|exact Hr|exact Ht|exact Hn|exact Hstore].
  - apply (Hburst [(1000, "a")] 2000 "b").
    + reflexivity.
    + apply NoDup_singleton.
    + intros call ->%list_elem_of_singleton. cbn. lia.
Defined.

(** Scenario 7 of the specification, with the defaults (100 per 60 s): 100
    rapid calls are allowed and the 101st is denied. *)
Example hundred_and_first_scenario :
  let calls := (fun i => (Z.of_nat i, "r")) <$> seq 0 100 in
  let '(rs, s) := checkLimits default_config "client" None calls empty_store in
  forallb allowed rs = true
  /\ length rs = 100%nat
  /\ (checkLimit default_config 100 "r" "client" None s).1
     = denied default_config 100.
Proof. by vm_compute. Qed.

End RateLimitFacts.

(** ** Rate limiter: further properties *)

Module RateLimitExtra.
Import RateLimit RateLimitSpec RateLimitFacts.

Section Limiter.

Variable config : RateLimitConfig.
Variable clientId : string.
Variable endpoint : option string.
Hypothesis limiter_enabled : enabled config = true.

Let key : string := rate_key clientId endpoint.

Lemma checkLimits_snoc calls now random s :
  checkLimits config clientId endpoint (calls ++ [(now, random)]) s
  = let '(rs, s1) := checkLimits config clientId endpoint calls s in
    let '(r, s2) := checkLimit config now random clientId endpoint s1 in
    (rs ++ [r], s2).
Proof.
  revert s. induction calls as [|[t x] calls IH]; intros s; cbn.
  - by destruct (checkLimit config now random clientId endpoint s).
  - destruct (checkLimit config t x clientId endpoint s) as [r0 s0].
    rewrite IH.
    destruct (checkLimits config clientId endpoint calls s0) as [rs s1].
    by destruct (checkLimit config now random clientId endpoint s1).
Qed.

Lemma checkLimits_length calls s :
  length (checkLimits config clientId endpoint calls s).1 = length calls.
Proof.
  revert s. induction calls as [|[t x] calls IH]; intros s; cbn; [done|].
  destruct (checkLimit config t x clientId endpoint s) as [r0 s0].
  specialize (IH s0).
  destruct (checkLimits config clientId endpoint calls s0) as [rs s1].
  cbn in *. by rewrite IH.
Qed.

(** A run whose calls are all made by [T] keeps in the store every one of
    its members that is younger than [T − window]. *)
Lemma checkLimits_keep_recent T calls :
  forall s,
    redis_ok s = true ->
    NoDup calls ->
    (forall call, call ∈ calls -> call.1 <= T) ->
    let s' := (checkLimits config clientId endpoint calls s).2 in
    redis_ok s' = true
    /\ (forall e, e ∈ zget s key -> T - windowMs config < e.1 ->
                  e.2 ∉ calls -> e ∈ zget s' key)
    /\ (forall call, call ∈ calls -> T - windowMs config < call.1 ->
                     (call.1, call) ∈ zget s' key).
Proof.
  induction calls as [|[now random] calls IH]; intros s Hok Hnd Hin.
  { cbn. split_and!; [done..|]. intros call Hc. by apply elem_of_nil in Hc. }
  apply NoDup_cons in Hnd as [Hfresh Hnd].
  cbn [checkLimits].
  pose proof (checkLimit_store config clientId endpoint limiter_enabled
                now random s Hok) as (Hok1 & _).
  pose proof (checkLimit_keeps config clientId endpoint limiter_enabled
                now random s) as Hkeep.
  pose proof (checkLimit_records config clientId endpoint limiter_enabled
                now random s Hok) as Hrec.
  destruct (checkLimit config now random clientId endpoint s) as [r s1].
  cbn in Hok1, Hkeep, Hrec.
  assert (forall call, call ∈ calls -> call.1 <= T) as Hin'.
  { intros call Hc. apply Hin. by right. }
  destruct (IH s1 Hok1 Hnd Hin') as (Hok' & Hold & Hnew).
  destruct (checkLimits config clientId endpoint calls s1) as [rs s2].
  cbn in *.
  assert (now <= T) as Hnow by (apply (Hin (now, random)); left).
  split_and!; [done|..].
  - intros e He Hw Hnot. apply Hold; [|done|].
    + apply Hkeep; [done..|lia|].
      intros Heq. apply Hnot. rewrite Heq. left.
    + intros Hc. apply Hnot. by right.
  - intros call [->|Hc]%elem_of_cons Hw.
    + apply Hold; [done|done|done].
    + by apply Hnew.
Qed.

(** The window a check at [T] counts holds at least the members of the
    earlier calls that are younger than [T − window]. *)
Lemma recent_calls_counted T calls s :
  redis_ok s = true ->
  NoDup calls ->
  (forall call, call ∈ calls -> call.1 <= T) ->
  let s1 := (checkLimits config clientId endpoint calls s).2 in
  redis_ok s1 = true
  /\ Z.of_nat (length (filter (fun call => T - windowMs config < call.1) calls))
     <= zcard (current_window config T key s1).
Proof.
  intros Hok Hnd Hin s1.
  destruct (checkLimits_keep_recent T calls s Hok Hnd Hin) as (Hok1 & _ & Hnew).
  fold s1 in Hok1, Hnew. split; [done|].
  assert (map (fun call : Z * string => (call.1, call))
              (filter (fun call => T - windowMs config < call.1) calls)
            ⊆+ current_window config T key s1) as Hsub.
  { apply NoDup_submseteq.
    - apply NoDup_fmap_2; [by intros x y [= _ ->]|]. by apply NoDup_filter.
    - intros e (call & -> & [Hw Hc]%list_elem_of_filter)%list_elem_of_fmap.
      unfold current_window, zremrangebyscore.
      apply list_elem_of_filter. split; [|by apply Hnew].
      cbn. intros [_ Hle]. lia. }
  apply submseteq_length in Hsub. rewrite length_map in Hsub.
  unfold zcard. lia.
Qed.

(** X1.  Sliding-window safety: for calls made in clock order with distinct
    members against a store that answers and a limit >= 0, the calls that
    were allowed and fall in any window (T − window, T] number at most
    [maxRequests], whatever the store held before. *)
Theorem allowed_never_exceeds_limit T calls s :
  redis_ok s = true ->
  0 <= maxRequests config ->
  NoDup calls ->
  StronglySorted (fun a b : Z * string => a.1 <= b.1) calls ->
  Z.of_nat (length (allowed_in_window config T calls
              (checkLimits config clientId endpoint calls s).1))
  <= maxRequests config.
Proof.
  intros Hok Hmax. induction calls as [|[now random] calls IH] using rev_ind.
  { intros _ _. cbn. lia. }
  intros [Hnd [_ _]]%NoDup_app Hsorted.
  pose proof (StronglySorted_app_1_l _ _ _ Hsorted) as Hs1.
  assert (forall call, call ∈ calls -> call.1 <= now) as Hbefore.
  { intros call Hc.
    apply (StronglySorted_app_1_elem_of _ _ _ call (now, random) Hsorted);
      [done|left]. }
  specialize (IH Hnd Hs1).
  rewrite checkLimits_snoc.
  pose proof (checkLimits_length calls s) as Hlen.
  destruct (recent_calls_counted now calls s Hok Hnd Hbefore) as [Hok1 Hcount].
  destruct (checkLimits config clientId endpoint calls s) as [rs s1].
  cbn [fst snd] in *.
  pose proof (checkLimit_verdict config clientId endpoint limiter_enabled
                now random s1 Hok1) as Hverdict.
  destruct (checkLimit config now random clientId endpoint s1) as [r s2].
  cbn [fst snd] in *.
  unfold allowed_in_window in *.
  rewrite zip_with_app by done. rewrite filter_app, length_app.
  cbn [zip_with]. rewrite filter_cons, filter_nil. cbn [fst snd].
  destruct (decide (allowed r = true /\ T - windowMs config < now <= T))
    as [[Hallowed Hwin]|_]; [|cbn; lia].
  cbn [length].
  (* the last call was allowed: fewer than [maxRequests] entries were in
     its window, and these include every earlier call of the window. *)
  fold key in Hverdict, Hcount.
  destruct (bool_decide_reflect
              (maxRequests config <= zcard (current_window config now key s1)))
    as [Hfull|Hroom]; [by rewrite Hverdict in Hallowed|].
  assert (Z.of_nat (length (filter
            (fun cr : Z * string * RateLimitResult =>
               allowed cr.2 = true /\ T - windowMs config < cr.1.1 <= T)
            (zip calls rs)))
          <= Z.of_nat (length (filter (fun call : Z * string =>
                               now - windowMs config < call.1) calls)))
    as Hle.
  { clear -Hwin Hlen. revert rs Hlen.
    induction calls as [|c calls IHc]; intros [|r0 rs] Hlen;
      cbn [length] in Hlen; try done.
    cbn [zip_with]. rewrite !filter_cons. cbn [fst snd].
    specialize (IHc rs ltac:(lia)).
    destruct (decide (allowed r0 = true /\ _)) as [[_ ?]|_];
      destruct (decide (now - windowMs config < c.1)); cbn; lia. }
  lia.
Qed.

(** getStatus counts the scores of [now − window, now] and checkLimit what
    the eviction of [0, now − window] leaves; on a store whose scores lie
    in [0, now] and miss the boundary the two are the same list. *)
Lemma status_window_is_check_window now z :
  (forall e, e ∈ z -> 0 <= e.1 <= now /\ e.1 <> now - windowMs config) ->
  filter (fun e : Z * (Z * string) => now - windowMs config <= e.1 <= now) z
  = zremrangebyscore 0 (now - windowMs config) z.
Proof.
  unfold zremrangebyscore.
  induction z as [|e z IH]; intros Hz; [done|].
  rewrite !filter_cons, IH by (intros e' He'; apply Hz; by right).
  destruct (Hz e) as [Hrange Hne]; [left|].
  destruct (decide (now - windowMs config <= e.1 <= now));
    destruct (decide (~ 0 <= e.1 <= now - windowMs config)); try done; lia.
Qed.

End Limiter.

(** X2.  getStatus foretells checkLimit: when the client's scores lie in
    [0, now] and none sits exactly on now − window, both give the same
    verdict at [now], and getStatus reports one more remaining request
    than an allowed check does (the check counts itself). *)
Theorem getStatus_foretells_checkLimit config clientId endpoint now random s :
  (forall e, e ∈ zget s (rate_key clientId endpoint) ->
             0 <= e.1 <= now /\ e.1 <> now - windowMs config) ->
  let status := getStatus config now clientId endpoint s in
  let result := (checkLimit config now random clientId endpoint s).1 in
  allowed status = allowed result
  /\ resetTime status = resetTime result
  /\ (enabled config = true -> redis_ok s = true -> allowed result = true ->
      remaining status = remaining result + 1).
Proof.
  intros Hz. unfold getStatus, checkLimit, zcount.
  destruct (enabled config); cbn [negb]; [|done].
  destruct (redis_ok s); [|done].
  rewrite (status_window_is_check_window config now _ Hz).
  fold (zcard (zremrangebyscore 0 (now - windowMs config)
                 (zget s (rate_key clientId endpoint)))).
  set (count := zcard _).
  destruct (bool_decide_reflect (maxRequests config <= count)) as [Hfull|Hroom];
    cbn.
  - split_and!; [|done..]. apply bool_decide_eq_false. lia.
  - split_and!; [|done|intros; lia]. apply bool_decide_eq_true. lia.
Qed.

(** A score exactly on the boundary now − window is counted by getStatus
    (ZCOUNT is inclusive) and evicted by checkLimit: with one request per
    minute recorded at 1_000, getStatus at 61_000 reports the limit as
    reached while the check at the same instant is allowed. *)
Example boundary_score_status_differs :
  allowed (getStatus one_per_minute 61000 "client" None store_after_one)
  = false
  /\ allowed (checkLimit one_per_minute 61000 "b" "client" None
                store_after_one).1 = true.
Proof. by vm_compute. Qed.

(** X3.  resetLimit gives the client its full quota back and touches no
    other key: after it the client's window is empty, getStatus reports
    max(0, maxRequests) remaining, and every other key reads as before. *)
Theorem resetLimit_restores_quota config clientId endpoint now s :
  redis_ok s = true ->
  enabled config = true ->
  let s' := resetLimit clientId endpoint s in
  zget s' (rate_key clientId endpoint) = []
  /\ remaining (getStatus config now clientId endpoint s')
     = Z.max 0 (maxRequests config)
  /\ (forall key, key <> rate_key clientId endpoint ->
                  zget s' key = zget s key /\ ttl s' !! key = ttl s !! key).
Proof.
  intros Hok Hen s'.
  assert (redis_ok s' = true) as Hok'.
  { unfold s', resetLimit. by rewrite Hok. }
  assert (zget s' (rate_key clientId endpoint) = []) as Hempty.
  { unfold s', resetLimit, zget. rewrite Hok. cbn [zsets].
    by rewrite lookup_delete_eq. }
  split_and!; [done|..].
  - unfold getStatus, zcount. rewrite Hen, Hok', Hempty. cbn [negb].
    rewrite filter_nil. cbn. f_equal. lia.
  - intros key Hkey. unfold s', resetLimit, zget. rewrite Hok. cbn [zsets ttl].
    by rewrite !lookup_delete_ne.
Qed.

(** X4.  enforceLimit throws exactly when the limiter is on, the store
    answers and the evicted window already holds [maxRequests] entries;
    the error then carries remaining 0 and retryAfter = window, and the
    store is the one checkLimit leaves (the refused request is recorded). *)
Theorem enforceLimit_throws_iff config clientId endpoint now random s :
  let key := rate_key clientId endpoint in
  let outcome := enforceLimit config now random clientId endpoint s in
  outcome.2 = (checkLimit config now random clientId endpoint s).2
  /\ ((exists error, outcome.1 = Exceeded error)
      <-> enabled config = true /\ redis_ok s = true
          /\ maxRequests config <= zcard (current_window config now key s))
  /\ (forall error, outcome.1 = Exceeded error ->
        error = {| error_remaining := 0;
                   error_resetTime := now + windowMs config;
                   error_retryAfter := Some (windowMs config) |}
        /\ (now, (now, random)) ∈ zget outcome.2 key).
Proof.
  cbn zeta. unfold enforceLimit, checkLimit, current_window.
  destruct (enabled config); cbn [negb].
  2:{ cbn. split_and!; [done| |done]. split; [by intros [? ?]|by intros [? _]]. }
  destruct (redis_ok s) eqn:Hok.
  2:{ cbn. split_and!; [done| |done].
      split; [by intros [? ?]|by intros (_ & ? & _)]. }
  set (count := zcard _).
  destruct (bool_decide_reflect (maxRequests config <= count)) as [Hfull|Hroom];
    cbn.
  - split_and!; [done| |].
    + split; [done|]. intros _. by eexists.
    + intros error [= <-]. split; [done|].
      unfold zget. cbn. rewrite lookup_insert_eq. cbn.
      unfold zadd. apply elem_of_app. right. left.
  - split_and!; [done| |done].
    split; [by intros [? ?]|]. intros (_ & _ & ?). lia.
Qed.

(** X4 at work: one request per minute, the second call within the minute
    throws. *)
Example enforceLimit_second_call_throws :
  let '(first, s1) :=
    enforceLimit one_per_minute 1000 "a" "client" None empty_store in
  let '(second, _) := enforceLimit one_per_minute 2000 "b" "client" None s1 in
  first = Passed {| allowed := true; remaining := 0; resetTime := 61000;
                    retryAfter := None |}
  /\ second = Exceeded {| error_remaining := 0; error_resetTime := 62000;
                          error_retryAfter := Some 60000 |}.
Proof. by vm_compute. Qed.

Lemma allowed_never_exceeds_limit_witness :
  Z.of_nat (length (allowed_in_window two_per_minute 62000 five_calls
              (checkLimits two_per_minute "client" None five_calls
                 empty_store).1))
  <= maxRequests two_per_minute.
Proof.
  apply (allowed_never_exceeds_limit two_per_minute "client" None eq_refl
           62000 five_calls empty_store).
  - reflexivity.
  - by vm_compute.
  - apply (bool_decide_unpack _). by vm_compute.
  - repeat (apply SSorted_cons; [|repeat constructor; cbn; lia]).
    apply SSorted_nil.
Defined.

Lemma getStatus_foretells_checkLimit_witness :
  allowed (getStatus two_per_minute 2000 "client" None store_after_one)
  = allowed (checkLimit two_per_minute 2000 "b" "client" None
               store_after_one).1.
Proof.
  apply (getStatus_foretells_checkLimit two_per_minute "client" None 2000 "b"
           store_after_one).
  intros e He. vm_compute in He. apply list_elem_of_singleton in He as ->.
  cbn. lia.
Defined.

Lemma resetLimit_restores_quota_witness :
  zget (resetLimit "client" None store_after_one) (rate_key "client" None)
  = [].
Proof.
  apply (resetLimit_restores_quota two_per_minute "client" None 0
           store_after_one); reflexivity.
Defined.

End RateLimitExtra.

(** ** Stream aggregator: further properties *)

Module StreamAggregatorExtra.
Import StreamAggregator StreamAggregatorSpec StreamAggregatorFacts.

(** *** The order of the buffer *)

Lemma Qcsum_Permutation l k : l ≡ₚ k -> Qcsum l = Qcsum k.
Proof.
  induction 1 as [|x l k _ IH|x y l|l k m _ IH1 _ IH2]; cbn.
  - done.
  - by rewrite IH.
  - rewrite !Qcplus_assoc. by rewrite (Qcplus_comm y x).
  - by rewrite IH1.
Qed.

Lemma window_trades_Permutation w1 w2 pair now :
  buffer w1 pair ≡ₚ buffer w2 pair ->
  window_trades w1 pair now ≡ₚ window_trades w2 pair now.
Proof.
  unfold buffer, window_trades. intros Hp. by rewrite Hp.
Qed.

(** X6.  The VWAP does not depend on the order in which the buffer holds
    its trades: two stores whose buffers of the pair are permutations of
    each other give the same price and volume and the same venues. *)
Theorem vwap_order_independent w1 w2 pair now :
  redis_ok w1 = true ->
  redis_ok w2 = true ->
  buffer w1 pair ≡ₚ buffer w2 pair ->
  match (calculateVwap pair now w1).1, (calculateVwap pair now w2).1 with
  | Ok (Some r1), Ok (Some r2) =>
      vwap_price r1 = vwap_price r2
      /\ vwap_volume r1 = vwap_volume r2
      /\ vwap_sources r1 ≡ₚ vwap_sources r2
  | Ok None, Ok None => True
  | _, _ => False
  end.
Proof.
  intros Hok1 Hok2 Hp.
  pose proof (window_trades_Permutation w1 w2 pair now Hp) as Hw.
  destruct (decide (window_trades w1 pair now = [])) as [He|Hne].
  - assert (window_trades w2 pair now = []) as He2.
    { apply Permutation_nil_r. by rewrite <- Hw, He. }
    by rewrite !calculateVwap_empty.
  - assert (window_trades w2 pair now <> []) as Hne2.
    { intros He2. apply Hne. apply Permutation_nil_r. by rewrite Hw, He2. }
    destruct (calculateVwap_nonempty w1 pair now Hok1 Hne)
      as (srcs1 & -> & Hnd1 & Hin1).
    destruct (calculateVwap_nonempty w2 pair now Hok2 Hne2)
      as (srcs2 & -> & Hnd2 & Hin2).
    cbn.
    assert (sum_volume (window_trades w1 pair now)
            = sum_volume (window_trades w2 pair now)) as ->.
    { unfold sum_volume. apply Qcsum_Permutation. by rewrite Hw. }
    assert (sum_price_volume (window_trades w1 pair now)
            = sum_price_volume (window_trades w2 pair now)) as ->.
    { unfold sum_price_volume. apply Qcsum_Permutation. by rewrite Hw. }
    split_and!; [done..|].
    apply NoDup_Permutation; [done..|].
    intros x. rewrite Hin1, Hin2.
    split; intros (t & Ht & Hx); exists t; split; try done.
    + by rewrite <- Hw.
    + by rewrite Hw.
Qed.

(** *** Redelivery *)

Lemma zadd_present {A} `{EqDecision A} (score : Z) (member : A)
    (z : list (Z * A)) :
  NoDup z.*2 ->
  (score, member) ∈ z ->
  filter (fun e => e.2 <> member) z ++ [(score, member)] ≡ₚ z.
Proof.
  induction z as [|[s m] z IH]; intros Hnd Hin.
  { by apply elem_of_nil in Hin. }
  cbn in Hnd. apply NoDup_cons in Hnd as [Hfresh Hnd].
  rewrite filter_cons. cbn [snd].
  apply elem_of_cons in Hin as [[= <- <-]|Hin].
  - rewrite decide_False by (intros ?; done).
    assert (filter (fun e : Z * A => e.2 <> member) z = z) as ->.
    { clear -Hfresh. induction z as [|[s m] z IH]; [done|].
      rewrite filter_cons. cbn [snd]. cbn in Hfresh.
      apply not_elem_of_cons in Hfresh as [Hne Hfresh].
      rewrite decide_True by done. by rewrite IH. }
    by rewrite <- Permutation_cons_append.
  - assert (m <> member) as Hne.
    { intros ->. apply Hfresh. apply list_elem_of_fmap. by exists (score, member). }
    rewrite decide_True by done. cbn. f_equiv. by apply IH.
Qed.

(** X7.  A redelivered stream entry is not buffered twice: when the trade
    of the entry is in the buffer already under its event-time (members of
    a sorted set being unique), processing the entry again leaves the same
    trades in the buffer, and so the same window and the same VWAP sums. *)
Theorem redelivery_keeps_buffer exchange fields w now :
  redis_ok w = true ->
  let pair := field_pair fields in
  let trade := {| trade_price := field_price fields;
                  trade_volume := field_volume fields;
                  trade_timestamp := field_timestamp fields;
                  trade_exchange := exchange |} in
  NoDup (buffer w pair).*2 ->
  (field_timestamp fields, trade) ∈ buffer w pair ->
  let w' := (processEntry exchange fields w).2 in
  buffer w' pair ≡ₚ buffer w pair
  /\ sum_price_volume (window_trades w' pair now)
     = sum_price_volume (window_trades w pair now)
  /\ sum_volume (window_trades w' pair now)
     = sum_volume (window_trades w pair now).
Proof.
  intros Hok pair trade Hnd Hin w'.
  assert (buffer w' pair ≡ₚ buffer w pair) as Hp.
  { unfold w', processEntry, zadd, buffer. rewrite Hok. cbn [snd].
    unfold zget at 1. cbn [zsets set_zsets]. rewrite lookup_insert_eq.
    cbn [default]. by apply zadd_present. }
  pose proof (window_trades_Permutation w' w pair now Hp) as Hw.
  split_and!; [done|..].
  - unfold sum_price_volume. apply Qcsum_Permutation. by rewrite Hw.
  - unfold sum_volume. apply Qcsum_Permutation. by rewrite Hw.
Qed.

(** *** What a tick leaves alone *)

Lemma calculateVwap_frame pair now w :
  let w' := (calculateVwap pair now w).2 in
  strings w' = strings w
  /\ published w' = published w
  /\ price_history w' = price_history w
  /\ redis_ok w' = redis_ok w
  /\ (forall key, key <> BUFFER_KEY_PREFIX +:+ pair -> zget w' key = zget w key)
  /\ buffer w' pair `sublist_of` buffer w pair.
Proof.
  cbn zeta. unfold calculateVwap, bind, zrangebyscore.
  destruct (redis_ok w) eqn:Hok; [|done].
  case_decide; [done|].
  destruct (fold_left _ _ _) as [[pv v] srcs].
  unfold zremrangebyscore. rewrite Hok. cbn.
  split_and!; [done..| |].
  - intros key Hkey. unfold zget. cbn. by rewrite lookup_insert_ne.
  - unfold buffer, zget at 1. cbn. rewrite lookup_insert_eq. cbn.
    apply sublist_filter.
Qed.

(** X8.  calculateVwap writes nothing but its own buffer, and only removes
    from it: cache, channel log and price history are as before, every
    other buffer is as before, and the pair's buffer is a sublist of what
    it was. *)
Theorem calculateVwap_only_prunes pair now w :
  let w' := (calculateVwap pair now w).2 in
  strings w' = strings w
  /\ published w' = published w
  /\ price_history w' = price_history w
  /\ redis_ok w' = redis_ok w
  /\ (forall key, key <> BUFFER_KEY_PREFIX +:+ pair -> zget w' key = zget w key)
  /\ buffer w' pair `sublist_of` buffer w pair.
Proof. apply calculateVwap_frame. Qed.

Lemma calculateVwap_result pair now w r w' :
  calculateVwap pair now w = (Ok (Some r), w') ->
  vwap_pair r = pair /\ vwap_timestamp r = now.
Proof.
  unfold calculateVwap, bind, zrangebyscore.
  destruct (redis_ok w) eqn:Hok; [|done].
  case_decide; [done|].
  destruct (fold_left _ _ _) as [[pv v] srcs].
  unfold zremrangebyscore. rewrite Hok. cbn. by intros [= <- _].
Qed.

(** The rows [savePrices] appends: none, the USD row, or the USD row and
    the RUB row. *)
Lemma savePrices_appends getRate v w :
  exists rows,
    price_history (savePrices getRate v w).2 = price_history w ++ rows
    /\ (length rows <= 2)%nat
    /\ (Outcome_is_ok (savePrices getRate v w).1 = true ->
        (1 <= length rows)%nat)
    /\ Forall (fun r => row_timestamp r = vwap_timestamp v
                        /\ row_method r = "vwap"
                        /\ (row_pair r = vwap_pair v
                            \/ row_pair r
                               = replace "-usd" "-rub" (vwap_pair v))) rows.
Proof.
  unfold savePrices, bind, create.
  destruct (db_accepts w (usdInput v)) eqn:Husd; cbn.
  2:{ exists []. rewrite app_nil_r.
      split_and!; [done|cbn; lia|done|constructor]. }
  destruct getRate as [rate|]; cbn.
  2:{ exists [usdInput v]. split_and!; [done|cbn; lia|done|].
      repeat constructor. }
  destruct (js_gt0 rate); cbn.
  2:{ exists [usdInput v]. split_and!; [done|cbn; lia|cbn; lia|].
      repeat constructor. }
  destruct (db_accepts w (rubInput v rate)); cbn.
  2:{ exists [usdInput v]. split_and!; [done|cbn; lia|done|].
      repeat constructor. }
  exists [usdInput v; rubInput v rate].
  rewrite cachePrice_price_history. cbn. rewrite <- app_assoc.
  split_and!; [done|lia|lia|].
  repeat constructor; by right.
Qed.

(** What one pass of the loop over the pairs does to the counter and to
    the table. *)
Lemma aggregate_step_appends getRate clock p w pair :
  let st := aggregate_step (getRate pair) (clock pair) (p, w) pair in
  exists rows,
    price_history st.2 = price_history w ++ rows
    /\ (length rows <= 2)%nat
    /\ aggregationCount p <= aggregationCount st.1
       <= aggregationCount p + Z.of_nat (length rows)
    /\ aggregationCount st.1 <= aggregationCount p + 1
    /\ Forall (row_of_tick clock [pair]) rows.
Proof.
  cbn zeta. unfold aggregate_step, aggregate_pair, bind.
  generalize (getRate pair). intros rate.
  pose proof (calculateVwap_frame pair (clock pair) w) as (_ & _ & Hph & _).
  cbn zeta in Hph.
  destruct (calculateVwap pair (clock pair) w) as [[[v|]|] w1] eqn:Hv;
    cbn in Hph.
  2,3: exists []; rewrite app_nil_r; cbn;
       split_and!; first [done|lia|constructor].
  apply calculateVwap_result in Hv as [Hpair Hnow].
  destruct (savePrices_appends rate v w1)
    as (rows & Hrows & Hlen & Hone & Hall).
  assert (Forall (row_of_tick clock [pair]) rows) as Hall'.
  { eapply Forall_impl; [exact Hall|].
    intros r (Ht & Hm & Hp). rewrite Hnow in Ht. rewrite Hpair in Hp.
    split; [done|]. exists pair. split_and!; [left|done..]. }
  destruct (savePrices rate v w1) as [[[]|] w2]; cbn in Hrows, Hone.
  - pose proof (cachePrice_price_history v w2) as Hc.
    destruct (cachePrice v w2) as [[[]|] w3]; cbn in Hc |- *;
      exists rows; rewrite Hc, Hrows, Hph;
      (split_and!; first [done|lia|specialize (Hone eq_refl); lia]).
  - exists rows. cbn. rewrite Hrows, Hph.
    split_and!; first [done|lia].
Qed.

Lemma row_of_tick_mono clock pairs pairs' r :
  pairs ⊆ pairs' -> row_of_tick clock pairs r -> row_of_tick clock pairs' r.
Proof.
  intros Hsub (Hm & pair & Hin & Ht & Hp).
  split; [done|]. exists pair. split_and!; [by apply Hsub|done..].
Qed.

(** The tick of [aggregate] is the tick of [aggregate_timed] whose clock
    readings coincide and whose rate is the same for every pair. *)
Lemma aggregate_timed_same_reading getRate now p w :
  aggregate getRate now p w
  = aggregate_timed (fun _ => getRate) (fun _ => now) now p w.
Proof. reflexivity. Qed.

(** X9.  A tick only appends to the price history: at most six rows, each
    with method "vwap", for a USD pair or its RUB counterpart, and stamped
    with the clock reading [calculateVwap] took for that pair (the three
    pairs have their own readings, and the rate is awaited anew for each);
    the counter of aggregations grows by at most three and by no more than
    the number of rows written, and the time of the last aggregation
    becomes the reading taken after the loop. *)
Theorem tick_appends_only getRate clock finished p w :
  let st := aggregate_timed getRate clock finished p w in
  exists rows,
    price_history st.2 = price_history w ++ rows
    /\ (length rows <= 6)%nat
    /\ aggregationCount p <= aggregationCount st.1
       <= aggregationCount p + Z.of_nat (length rows)
    /\ aggregationCount st.1 <= aggregationCount p + 3
    /\ Forall (row_of_tick clock USD_PAIRS) rows
    /\ lastSuccessfulAggregation st.1 = finished.
Proof.
  cbn zeta. unfold aggregate_timed, USD_PAIRS. cbn [fold_left].
  destruct (aggregate_step_appends getRate clock p w "btc-usd")
    as (rows1 & Hr1 & Hl1 & Hc1 & Hd1 & Ha1).
  destruct (aggregate_step (getRate "btc-usd") (clock "btc-usd") (p, w)
              "btc-usd") as [p1 w1].
  destruct (aggregate_step_appends getRate clock p1 w1 "xmr-usd")
    as (rows2 & Hr2 & Hl2 & Hc2 & Hd2 & Ha2).
  destruct (aggregate_step (getRate "xmr-usd") (clock "xmr-usd") (p1, w1)
              "xmr-usd") as [p2 w2].
  destruct (aggregate_step_appends getRate clock p2 w2 "eth-usd")
    as (rows3 & Hr3 & Hl3 & Hc3 & Hd3 & Ha3).
  destruct (aggregate_step (getRate "eth-usd") (clock "eth-usd") (p2, w2)
              "eth-usd") as [p3 w3].
  cbn [fst snd] in *.
  exists (rows1 ++ rows2 ++ rows3).
  rewrite Hr3, Hr2, Hr1, <- !app_assoc, !length_app.
  cbn [aggregationCount lastSuccessfulAggregation].
  split_and!; [done|lia..| |done].
  rewrite !Forall_app. split_and!.
  - eapply Forall_impl; [exact Ha1|]. intros r. apply row_of_tick_mono.
    intros x Hx%list_elem_of_singleton. subst x.
    apply (bool_decide_unpack _). by vm_compute.
  - eapply Forall_impl; [exact Ha2|]. intros r. apply row_of_tick_mono.
    intros x Hx%list_elem_of_singleton. subst x.
    apply (bool_decide_unpack _). by vm_compute.
  - eapply Forall_impl; [exact Ha3|]. intros r. apply row_of_tick_mono.
    intros x Hx%list_elem_of_singleton. subst x.
    apply (bool_decide_unpack _). by vm_compute.
Qed.

(** *** The consumption loop *)

Lemma consume_iteration_bounds body_ok now p :
  0 <= consecutiveErrors p < MAX_CONSECUTIVE_ERRORS ->
  let p' := consume_iteration body_ok now p in
  0 <= consecutiveErrors p' <= MAX_CONSECUTIVE_ERRORS
  /\ (isRunning p' = true -> consecutiveErrors p' < MAX_CONSECUTIVE_ERRORS)
  /\ (isRunning p' = true -> isRunning p = true)
  /\ aggregationCount p' = aggregationCount p
  /\ lastSuccessfulAggregation p' = lastSuccessfulAggregation p.
Proof.
  unfold MAX_CONSECUTIVE_ERRORS. intros Hb. cbn zeta.
  unfold consume_iteration, MAX_CONSECUTIVE_ERRORS.
  destruct body_ok.
  - destruct (_ && _); cbn; split_and!; try done; lia.
  - cbn. case_bool_decide; split_and!; try done; lia.
Qed.

Lemma consumeStreams_stopped turns p :
  isRunning p = false -> consumeStreams turns p = p.
Proof. intros Hstop. destruct turns as [|[b t] turns]; cbn; by rewrite ?Hstop. Qed.

(** X10.  The error counter of the consumption loop stays within 0..10
    through any run, a loop that is still running has fewer than ten
    errors, a loop that was stopped stays stopped, and the loop never
    touches the aggregation counter or the time of the last aggregation. *)
Theorem consumeStreams_bounds turns : forall p,
  0 <= consecutiveErrors p < MAX_CONSECUTIVE_ERRORS ->
  let p' := consumeStreams turns p in
  0 <= consecutiveErrors p' <= MAX_CONSECUTIVE_ERRORS
  /\ (isRunning p' = true -> consecutiveErrors p' < MAX_CONSECUTIVE_ERRORS)
  /\ (isRunning p' = true -> isRunning p = true)
  /\ aggregationCount p' = aggregationCount p
  /\ lastSuccessfulAggregation p' = lastSuccessfulAggregation p.
Proof.
  induction turns as [|[body_ok now] turns IH]; intros p Hb; cbn zeta.
  { cbn. split_and!; try done; lia. }
  cbn [consumeStreams]. destruct (isRunning p) eqn:Hrun.
  2:{ rewrite Hrun. split_and!; try done; lia. }
  destruct (consume_iteration_bounds body_ok now p Hb)
    as (Hb1 & Hrun1 & _ & Hc1 & Hl1).
  destruct (isRunning (consume_iteration body_ok now p)) eqn:Hrun'.
  - destruct (IH (consume_iteration body_ok now p))
      as (Hb2 & Hr2 & _ & Hc2 & Hl2).
    { specialize (Hrun1 eq_refl). lia. }
    cbn zeta in *. split_and!; [lia|lia|done|done|congruence|congruence].
  - rewrite (consumeStreams_stopped _ _ Hrun'). rewrite Hrun'.
    split_and!; [lia|lia|done|done|done|done].
Qed.

(** X11.  The counter counts failures that need not be consecutive: in a
    run whose turns all fall within one reset interval (60 s), successful
    turns in between do not reset it, and the tenth failed turn stops the
    loop. *)
Theorem interleaved_failures_stop_the_loop t0 turns : forall p,
  0 <= consecutiveErrors p < MAX_CONSECUTIVE_ERRORS ->
  t0 <= lastErrorTime p ->
  Forall (fun turn => t0 <= turn.2 <= t0 + ERROR_RESET_INTERVAL) turns ->
  MAX_CONSECUTIVE_ERRORS - consecutiveErrors p
    <= Z.of_nat (length (failed_turns turns)) ->
  isRunning (consumeStreams turns p) = false.
Proof.
  unfold MAX_CONSECUTIVE_ERRORS, ERROR_RESET_INTERVAL, failed_turns.
  induction turns as [|[body_ok now] turns IH]; intros p Hb Hlast Hall Hn.
  { cbn in Hn. lia. }
  cbn [consumeStreams]. destruct (isRunning p) eqn:Hrun; [|done].
  apply Forall_cons in Hall as [Hnow Hall]. cbn [snd] in Hnow.
  rewrite filter_cons in Hn. cbn [fst] in Hn.
  destruct body_ok.
  - rewrite decide_False in Hn by done.
    assert (consume_iteration true now p = p) as ->.
    { unfold consume_iteration, ERROR_RESET_INTERVAL.
      rewrite (bool_decide_eq_false_2 (60000 < now - lastErrorTime p)) by lia.
      by rewrite andb_false_r. }
    by apply IH.
  - rewrite decide_True in Hn by done. cbn [length] in Hn.
    destruct (decide (consecutiveErrors p = 9)) as [H9|H9].
    + assert (isRunning (consume_iteration false now p) = false) as Hstop.
      { unfold consume_iteration, MAX_CONSECUTIVE_ERRORS. cbn.
        rewrite H9. done. }
      by rewrite consumeStreams_stopped.
    + apply IH; [| |done|]; unfold consume_iteration; cbn; lia.
Qed.

Lemma vwap_order_independent_witness :
  match (calculateVwap "btc-usd" 100000 world_three_venues).1,
        (calculateVwap "btc-usd" 100000 world_three_venues_shuffled).1 with
  | Ok (Some r1), Ok (Some r2) =>
      vwap_price r1 = vwap_price r2
      /\ vwap_volume r1 = vwap_volume r2
      /\ vwap_sources r1 ≡ₚ vwap_sources r2
  | Ok None, Ok None => True
  | _, _ => False
  end.
Proof.
  apply (vwap_order_independent world_three_venues world_three_venues_shuffled
           "btc-usd" 100000); [reflexivity..|].
  unfold buffer, zget, world_three_venues, world_three_venues_shuffled,
    world_with. cbn [zsets].
  rewrite !lookup_singleton_eq. cbn [default StreamAggregator.BUFFER_KEY_PREFIX].
  symmetry. apply Permutation_cons_append.
Defined.

Lemma redelivery_keeps_buffer_witness :
  buffer (processEntry "binance" entry_btc world_three_venues).2 "btc-usd"
  ≡ₚ buffer world_three_venues "btc-usd".
Proof.
  apply (redelivery_keeps_buffer "binance" entry_btc world_three_venues 100000).
  - reflexivity.
  - apply (bool_decide_unpack _). by vm_compute.
  - apply (bool_decide_unpack _). by vm_compute.
Defined.

Lemma consumeStreams_bounds_witness :
  0 <= consecutiveErrors (consumeStreams flaky_turns running)
    <= MAX_CONSECUTIVE_ERRORS.
Proof.
  apply (consumeStreams_bounds flaky_turns running). by vm_compute.
Defined.

Lemma interleaved_failures_stop_the_loop_witness :
  isRunning (consumeStreams flaky_turns running) = false.
Proof.
  apply (interleaved_failures_stop_the_loop 0 flaky_turns running).
  - by vm_compute.
  - by vm_compute.
  - apply (bool_decide_unpack _). by vm_compute.
  - by vm_compute.
Defined.

End StreamAggregatorExtra.

(** ** OHLCV aggregator process: further properties *)

Module OhlcvAggregatorExtra.
Import PriceHistoryRepository OhlcvRepository OhlcvAggregator OhlcvSpec.
Import OhlcvAggregatorFacts.

(** *** Rounding to eight decimals keeps the order *)

Lemma Qfloor_nonneg (x : Q) : (0 <= x)%Q -> 0 <= Qfloor x.
Proof. intros Hx. apply (Qfloor_resp_le 0 x Hx). Qed.

Lemma round8_mono (a b : Qc) : (a <= b)%Qc -> round8 a <= round8 b.
Proof.
  intros Hab. unfold round8, Qc_ltb.
  assert (0 <= inject_Z scale8)%Q as Hs by done.
  assert (a <= b)%Q as Hab' by exact Hab.
  destruct (bool_decide_reflect (a < 0)%Qc) as [Ha|Ha];
    destruct (bool_decide_reflect (b < 0)%Qc) as [Hb|Hb].
  - apply Z.opp_le_mono. rewrite !Z.opp_involutive.
    apply Qfloor_resp_le. apply Qplus_le_l.
    apply Qmult_le_compat_r; [|done]. by apply Qopp_le_compat.
  - apply Qcnot_lt_le in Hb.
    assert (0 <= Qfloor (- a * inject_Z scale8 + (1 # 2))).
    { apply Qfloor_nonneg.
      apply (Qle_trans _ (0 * inject_Z scale8 + 0)%Q); [done|].
      apply Qplus_le_compat; [|done].
      apply Qmult_le_compat_r; [|done].
      change (- 0 <= - a)%Q. apply Qopp_le_compat.
      apply Qlt_le_weak. exact Ha. }
    assert (0 <= Qfloor (b * inject_Z scale8 + (1 # 2))).
    { apply Qfloor_nonneg.
      apply (Qle_trans _ (0 * inject_Z scale8 + 0)%Q); [done|].
      apply Qplus_le_compat; [|done].
      by apply Qmult_le_compat_r. }
    lia.
  - exfalso. apply Ha. by eapply Qcle_lt_trans.
  - apply Qfloor_resp_le. apply Qplus_le_l.
    by apply Qmult_le_compat_r.
Qed.

(** *** Every candle is well formed *)

(** X12.  A candle computed from a non-empty result set is well formed in
    its stored decimals: low <= open <= high and low <= close <= high, and
    the price of every row of the result set, written with eight decimals,
    lies between the stored low and the stored high.  (The price columns
    hold finite decimals.) *)
Theorem candle_of_well_formed pair periodStart first rest :
  well_formed (candle_of pair periodStart first (first :: rest))
  /\ forall r, r ∈ first :: rest ->
       exists l p h,
         candle_low (candle_of pair periodStart first (first :: rest)) = F8 l
         /\ toFixed8 (JNum (ph_price r)) = F8 p
         /\ candle_high (candle_of pair periodStart first (first :: rest))
            = F8 h
         /\ l <= p <= h.
Proof.
  destruct (candle_of_fields pair periodStart first rest)
    as (final & high & low & Hlast & [Hhi Hh] & [Hli Hl] & ->).
  set (rows := first :: rest) in *.
  assert (ph_price first ∈ map ph_price rows) as Hfirst by left.
  assert (ph_price final ∈ map ph_price rows) as Hfinal.
  { apply list_elem_of_fmap. exists final. split; [done|].
    apply last_Some in Hlast as (l' & ->). apply elem_of_app. right. left. }
  split.
  - exists (round8 (ph_price first)), (round8 high), (round8 low),
      (round8 (ph_price final)).
    cbn. split_and!; try done; apply round8_mono; auto.
  - intros r Hr. exists (round8 low), (round8 (ph_price r)), (round8 high).
    cbn.
    assert (ph_price r ∈ map ph_price rows) as Hin.
    { apply list_elem_of_fmap. by exists r. }
    split_and!; try done; apply round8_mono; auto.
Qed.

(** *** What a run writes *)

Lemma upsert_row_inv c rows r :
  r ∈ upsert_row c rows -> r ∈ rows \/ r = c.
Proof.
  unfold upsert_row. destruct (existsb (same_key c) rows).
  - intros (r0 & -> & Hr0)%list_elem_of_fmap.
    destruct (same_key c r0); [by right|by left].
  - intros [? | Hr%list_elem_of_singleton]%elem_of_app; [by left|by right].
Qed.

Lemma candle_of_timestamp pair periodStart first rows :
  candle_timestamp (candle_of pair periodStart first rows) = periodStart.
Proof.
  unfold candle_of. by destruct (fold_left _ _ _) as [[[? ?] ?] ?].
Qed.

(** One pass of the loop over the pairs, whether the database answers or
    not. *)
Lemma aggregate_step_writes interval periodStart periodEnd n db pair :
  let res := aggregate_step interval periodStart periodEnd (n, db) pair in
  db_up res.2 = db_up db
  /\ price_history res.2 = price_history db
  /\ (n <= res.1 <= S n)%nat
  /\ (db_up db = false -> res = (n, db))
  /\ (forall name, name <> getTableName interval ->
        table res.2 name = table db name)
  /\ (forall c, c ∈ table res.2 (getTableName interval) ->
        c ∈ table db (getTableName interval)
        \/ candle_timestamp c = periodStart /\ candle_pair c = pair).
Proof.
  cbn zeta. unfold aggregate_step, aggregate_pair.
  destruct (db_up db) eqn:Hup.
  2:{ cbn. split_and!; try done; try lia. intros c Hc. by left. }
  destruct (findByPairInRange _ _) as [|first rest].
  { cbn. split_and!; try done; try lia. intros c Hc. by left. }
  unfold upsertCandle. rewrite Hup. cbn.
  split_and!; try done; try lia.
  - intros name Hname. unfold table. cbn. by rewrite lookup_insert_ne.
  - intros c. unfold table at 1. cbn. rewrite lookup_insert_eq. cbn.
    intros [Hc | ->]%upsert_row_inv; [by left|right].
    by rewrite candle_of_timestamp, candle_of_pair.
Qed.

Lemma aggregate_fold_writes interval periodStart periodEnd pairs :
  forall n db,
    let res := fold_left (aggregate_step interval periodStart periodEnd)
                 pairs (n, db) in
    db_up res.2 = db_up db
    /\ price_history res.2 = price_history db
    /\ (n <= res.1 <= n + length pairs)%nat
    /\ (db_up db = false -> res = (n, db))
    /\ (forall name, name <> getTableName interval ->
          table res.2 name = table db name)
    /\ (forall c, c ∈ table res.2 (getTableName interval) ->
          c ∈ table db (getTableName interval)
          \/ candle_timestamp c = periodStart /\ candle_pair c ∈ pairs).
Proof.
  induction pairs as [|pair pairs IH]; intros n db; cbn zeta.
  { cbn. split_and!; try done; try lia. intros c Hc. by left. }
  cbn [fold_left length].
  destruct (aggregate_step_writes interval periodStart periodEnd n db pair)
    as (Hup1 & Hph1 & Hn1 & Hdown1 & Hother1 & Hnew1).
  destruct (aggregate_step interval periodStart periodEnd (n, db) pair)
    as [n1 db1] eqn:Hstep.
  cbn [fst snd] in *.
  destruct (IH n1 db1) as (Hup2 & Hph2 & Hn2 & Hdown2 & Hother2 & Hnew2).
  split_and!.
  - congruence.
  - congruence.
  - lia.
  - lia.
  - intros Hdown. rewrite Hdown2 by congruence. by apply Hdown1.
  - intros name Hname. rewrite Hother2 by done. by apply Hother1.
  - intros c [Hc|[Ht Hp]]%Hnew2.
    + apply Hnew1 in Hc as [Hc|[Ht ->]]; [by left|right].
      split; [done|left].
    + right. split; [done|by right].
Qed.

Lemma aggregateInterval_writes interval periodStart periodEnd db :
  let res := aggregateInterval interval periodStart periodEnd db in
  db_up res.2 = db_up db
  /\ price_history res.2 = price_history db
  /\ (res.1 <= 6)%nat
  /\ (db_up db = false -> res = (0%nat, db))
  /\ (forall name, name <> getTableName interval ->
        table res.2 name = table db name)
  /\ (forall c, c ∈ table res.2 (getTableName interval) ->
        c ∈ table db (getTableName interval)
        \/ candle_timestamp c = periodStart
           /\ candle_pair c ∈ USD_PAIRS ++ RUB_PAIRS).
Proof.
  cbn zeta. unfold aggregateInterval.
  destruct (aggregate_fold_writes interval periodStart periodEnd
              (USD_PAIRS ++ RUB_PAIRS) 0%nat db)
    as (H1 & H2 & H3 & H4 & H5 & H6).
  split_and!; try done.
  change (length (USD_PAIRS ++ RUB_PAIRS)) with 6%nat in H3. lia.
Qed.

Lemma floorToInterval_bounds now intervalMs :
  0 < intervalMs ->
  floorToInterval now intervalMs <= now < floorToInterval now intervalMs + intervalMs
  /\ floorToInterval now intervalMs mod intervalMs = 0.
Proof.
  intros Hpos. unfold floorToInterval.
  pose proof (Z.div_mod now intervalMs ltac:(lia)) as Hdm.
  pose proof (Z.mod_pos_bound now intervalMs Hpos) as Hm.
  split; [lia|]. apply Z.mod_mul. lia.
Qed.

(** X13.  The 5-minute and the hourly run aggregate the period that is
    still open at the time of the run, the daily run the day that ended
    before it: every candle a run adds to its table starts a period that
    is aligned to the interval and, for 5 minutes and one hour, contains
    the clock reading of the run, for one day, ends at or before it.  Each
    of the three runs writes to its own table only (every other candle
    table reads as before), leaves the price history as it was and
    reports at most six candles. *)
Theorem runs_and_their_periods now finished stats db :
  let r5 := aggregate5Min now finished stats db in
  let r60 := aggregate1Hour now finished stats db in
  let rday := aggregate1Day now finished stats db in
  (forall c, c ∈ table r5.2 "price_history_5min" ->
     c ∈ table db "price_history_5min"
     \/ (candle_timestamp c <= now < candle_timestamp c + 300000
         /\ candle_timestamp c mod 300000 = 0))
  /\ (forall c, c ∈ table r60.2 "price_history_1hour" ->
        c ∈ table db "price_history_1hour"
        \/ (candle_timestamp c <= now < candle_timestamp c + 3600000
            /\ candle_timestamp c mod 3600000 = 0))
  /\ (forall c, c ∈ table rday.2 "price_history_1day" ->
        c ∈ table db "price_history_1day"
        \/ (candle_timestamp c + 86400000 <= now
              < candle_timestamp c + 2 * 86400000
            /\ candle_timestamp c mod 86400000 = 0))
  /\ table r5.2 "price_history_1hour" = table db "price_history_1hour"
  /\ table r5.2 "price_history_1day" = table db "price_history_1day"
  /\ price_history r5.2 = price_history db
  /\ (forall name, name <> "price_history_5min" ->
        table r5.2 name = table db name)
  /\ (forall name, name <> "price_history_1hour" ->
        table r60.2 name = table db name)
  /\ price_history r60.2 = price_history db
  /\ (forall name, name <> "price_history_1day" ->
        table rday.2 name = table db name)
  /\ price_history rday.2 = price_history db
  /\ (run_processed r5.1.1 <= 6)%nat
  /\ (run_processed r60.1.1 <= 6)%nat
  /\ (run_processed rday.1.1 <= 6)%nat.
Proof.
  cbn zeta. unfold aggregate5Min, aggregate1Hour, aggregate1Day.
  change (5 * 60 * 1000) with 300000. change (60 * 60 * 1000) with 3600000.
  pose proof (floorToInterval_bounds now 300000 ltac:(lia)) as [Hb5 Hm5].
  pose proof (floorToInterval_bounds now 3600000 ltac:(lia)) as [Hb60 Hm60].
  pose proof (floorToInterval_bounds now 86400000 ltac:(lia)) as [Hbd Hmd].
  change (floorToInterval now 86400000) with (utcMidnight now) in Hbd, Hmd.
  destruct (aggregateInterval_writes I5min (floorToInterval now 300000)
              (floorToInterval now 300000 + 300000) db)
    as (_ & Hph5 & Hn5 & _ & Ho5 & Hw5).
  destruct (aggregateInterval I5min _ _ db) as [n5 db5].
  destruct (aggregateInterval_writes I1hour (floorToInterval now 3600000)
              (floorToInterval now 3600000 + 3600000) db)
    as (_ & Hph60 & Hn60 & _ & Ho60 & Hw60).
  destruct (aggregateInterval I1hour _ _ db) as [n60 db60].
  destruct (aggregateInterval_writes I1day (utcMidnight now - 86400000)
              (utcMidnight now) db)
    as (_ & Hphd & Hnd & _ & Hod & Hwd).
  destruct (aggregateInterval I1day _ _ db) as [nd dbd].
  cbn [fst snd run_processed getTableName] in *.
  split_and!; try done.
  - intros c Hc. destruct (Hw5 c Hc) as [?|[Ht _]]; [by left|right].
    rewrite Ht. split; [lia|done].
  - intros c Hc. destruct (Hw60 c Hc) as [?|[Ht _]]; [by left|right].
    rewrite Ht. split; [lia|done].
  - intros c Hc. destruct (Hwd c Hc) as [?|[Ht _]]; [by left|right].
    rewrite Ht. split; [lia|].
    rewrite <- (Z.mod_add _ 1 86400000) by lia.
    replace (utcMidnight now - 86400000 + 1 * 86400000)
      with (utcMidnight now) by lia. done.
  - by apply Ho5.
  - by apply Ho5.
Qed.

(** *** The health check of the process *)

(** X14.  The health check of the OHLCV process never reports unhealthy,
    and it cannot see a failed run: a 5-minute run against a database that
    is down returns success with 0 candles, leaves the database as it
    was, and the 5-minute check passes for the ten minutes that follow. *)
Theorem ohlcv_health_ignores_failed_runs now finished later stats db :
  db_up db = false ->
  finished <> 0 ->
  finished <= later < finished + 600000 ->
  let '(result, stats', db') := aggregate5Min now finished stats db in
  result = {| run_success := true; run_processed := 0 |}
  /\ db' = db
  /\ StreamAggregator.checks (checkHealth stats' later) !! 0%nat
     = Some ("5min_aggregation", StreamAggregator.pass)
  /\ (forall stats'' t,
        StreamAggregator.status (checkHealth stats'' t)
        <> StreamAggregator.unhealthy).
Proof.
  intros Hdown Hfin Hlater. unfold aggregate5Min.
  destruct (aggregateInterval_writes I5min
              (floorToInterval now (5 * 60 * 1000))
              (floorToInterval now (5 * 60 * 1000) + 5 * 60 * 1000) db)
    as (_ & _ & _ & Hres & _).
  rewrite (Hres Hdown).
  split_and!; [done|done|..].
  - unfold checkHealth, isRecentAggregation. cbn.
    rewrite decide_False by done.
    by rewrite bool_decide_eq_true_2 by lia.
  - intros stats'' t. unfold checkHealth.
    by destruct (isRecentAggregation _ _ _), (isRecentAggregation _ _ _),
         (isRecentAggregation _ _ _).
Qed.

Lemma ohlcv_health_ignores_failed_runs_witness :
  let '(result, stats', db') := aggregate5Min 1000 1005 initial_stats db_down in
  result = {| run_success := true; run_processed := 0 |}
  /\ db' = db_down
  /\ StreamAggregator.checks (checkHealth stats' 2000) !! 0%nat
     = Some ("5min_aggregation", StreamAggregator.pass)
  /\ (forall stats'' t,
        StreamAggregator.status (checkHealth stats'' t)
        <> StreamAggregator.unhealthy).
Proof.
  apply (ohlcv_health_ignores_failed_runs 1000 1005 2000 initial_stats db_down).
  - reflexivity.
  - lia.
  - lia.
Defined.

End OhlcvAggregatorExtra.

(** ** Candle repository and chart queries: further properties *)

Module OhlcvRepositoryExtra.
Import OhlcvRepository OhlcvRepositorySpec OhlcvAggregatorService ChartsService.

#[local] Instance candle_ts_ge_transitive : Transitive candle_ts_ge.
Proof. unfold candle_ts_ge. intros x y z. lia. Qed.

#[local] Instance candle_ts_ge_totality : Total candle_ts_ge.
Proof. unfold candle_ts_ge. intros x y. lia. Qed.

(** *** Lists sorted by period-start *)

Lemma filter_all {A} (P : A -> Prop) `{forall x, Decision (P x)}
    (l : list A) :
  Forall P l -> filter P l = l.
Proof.
  induction 1 as [|x l Hx _ IH]; [done|].
  by rewrite filter_cons, decide_True, IH.
Qed.

Lemma filter_none {A} (P : A -> Prop) `{forall x, Decision (P x)}
    (l : list A) :
  Forall (fun x => ~ P x) l -> filter P l = [].
Proof.
  induction 1 as [|x l Hx _ IH]; [done|].
  by rewrite filter_cons, decide_False, IH.
Qed.

Lemma filter_comm {A} (P Q : A -> Prop) `{forall x, Decision (P x)}
    `{forall x, Decision (Q x)} (l : list A) :
  filter P (filter Q l) = filter Q (filter P l).
Proof.
  induction l as [|x l IH]; [done|].
  rewrite !(filter_cons _ x).
  destruct (decide (Q x)), (decide (P x));
    rewrite ?filter_cons, ?decide_True, ?decide_False by done; by rewrite IH.
Qed.

Lemma StronglySorted_filter {A} (R : relation A) (P : A -> Prop)
    `{forall x, Decision (P x)} (l : list A) :
  StronglySorted R l -> StronglySorted R (filter P l).
Proof.
  induction 1 as [|x l _ IH Hall]; [constructor|].
  rewrite filter_cons. case_decide; [|done].
  constructor; [done|].
  apply Forall_forall. intros y [_ Hy]%list_elem_of_filter.
  by apply (proj1 (Forall_forall _ _) Hall).
Qed.

Lemma NoDup_fmap_filter {A B} (f : A -> B) (P : A -> Prop)
    `{forall x, Decision (P x)} (l : list A) :
  NoDup (map f l) -> NoDup (map f (filter P l)).
Proof.
  induction l as [|x l IH]; [done|]. cbn [map].
  intros [Hx Hnd]%NoDup_cons. rewrite filter_cons.
  case_decide; [|by apply IH]. cbn [map].
  apply NoDup_cons. split; [|by apply IH].
  intros (y & Hy & [_ Hin]%list_elem_of_filter)%list_elem_of_fmap.
  apply Hx. apply list_elem_of_fmap. by exists y.
Qed.

(** Two lists sorted newest first with the same rows and distinct
    period-starts are the same list. *)
Lemma sorted_perm_eq (l1 : list OhlcvCandleEntity) : forall l2,
  StronglySorted candle_ts_ge l1 ->
  StronglySorted candle_ts_ge l2 ->
  l1 ≡ₚ l2 ->
  NoDup (map candle_timestamp l1) ->
  l1 = l2.
Proof.
  induction l1 as [|x l1 IH]; intros l2 Hs1 Hs2 Hp Hnd.
  { symmetry. by apply Permutation_nil_r. }
  destruct l2 as [|y l2].
  { by apply Permutation_nil_r in Hp. }
  apply StronglySorted_inv in Hs1 as [Hs1 Hx].
  apply StronglySorted_inv in Hs2 as [Hs2 Hy].
  assert (x = y) as ->.
  { assert (x ∈ y :: l2) as Hxin by (rewrite <- Hp; left).
    assert (y ∈ x :: l1) as Hyin by (rewrite Hp; left).
    apply elem_of_cons in Hxin as [?|Hxin]; [done|].
    apply elem_of_cons in Hyin as [?|Hyin]; [done|].
    pose proof (proj1 (Forall_forall _ _) Hy x Hxin) as H1.
    pose proof (proj1 (Forall_forall _ _) Hx y Hyin) as H2.
    unfold candle_ts_ge in H1, H2.
    cbn [map] in Hnd. apply NoDup_cons in Hnd as [Hfresh _].
    exfalso. apply Hfresh. apply list_elem_of_fmap. exists y.
    split; [lia|done]. }
  f_equal. apply IH; [done..| |].
  - eapply Permutation_cons_inv. exact Hp.
  - cbn [map] in Hnd. by apply NoDup_cons in Hnd as [_ ?].
Qed.

Lemma order_by_filter (P : OhlcvCandleEntity -> Prop)
    `{forall x, Decision (P x)} rows :
  NoDup (map candle_timestamp rows) ->
  order_by desc (filter P rows) = filter P (order_by desc rows).
Proof.
  intros Hnd. unfold order_by. apply sorted_perm_eq.
  - apply StronglySorted_merge_sort; apply _.
  - apply StronglySorted_filter, StronglySorted_merge_sort; apply _.
  - by rewrite !merge_sort_Permutation.
  - rewrite merge_sort_Permutation. by apply NoDup_fmap_filter.
Qed.

Lemma strictly_sorted rows :
  StronglySorted candle_ts_ge rows ->
  NoDup (map candle_timestamp rows) ->
  StronglySorted (fun a b => candle_timestamp b < candle_timestamp a) rows.
Proof.
  induction 1 as [|x l _ IH Hall]; [constructor|].
  cbn [map]. intros [Hfresh Hnd]%NoDup_cons.
  constructor; [by apply IH|].
  apply Forall_forall. intros y Hy.
  pose proof (proj1 (Forall_forall _ _) Hall y Hy) as Hge.
  unfold candle_ts_ge in Hge.
  assert (candle_timestamp y <> candle_timestamp x); [|lia].
  intros Heq. apply Hfresh. apply list_elem_of_fmap. by exists y.
Qed.

(** In a list sorted strictly newest first, the rows older than a row are
    the rows after it. *)
Lemma older_rows_are_the_suffix pre x suf :
  StronglySorted (fun a b => candle_timestamp b < candle_timestamp a)
    (pre ++ x :: suf) ->
  filter (fun r => candle_timestamp r < candle_timestamp x) (pre ++ x :: suf)
  = suf.
Proof.
  intros Hs. apply StronglySorted_app in Hs as (Hcross & _ & Hxs).
  apply StronglySorted_inv in Hxs as [_ Hx].
  rewrite filter_app, filter_cons, decide_False by lia.
  rewrite filter_none, filter_all; [done|done|].
  apply Forall_forall. intros a Ha.
  specialize (Hcross a x Ha ltac:(left)). lia.
Qed.

Lemma selected_filter (P : OhlcvCandleEntity -> Prop)
    `{forall x, Decision (P x)} from to rows :
  selected from to (filter P rows) = filter P (selected from to rows).
Proof.
  unfold selected. destruct from as [from|], to as [to|]; try done.
  - by rewrite (filter_comm _ P), (filter_comm _ P).
  - by rewrite (filter_comm _ P).
  - by rewrite (filter_comm _ P).
Qed.

Lemma selected_unique from to rows :
  NoDup (map candle_timestamp rows) ->
  NoDup (map candle_timestamp (selected from to rows)).
Proof.
  intros Hnd. unfold selected.
  destruct from as [from|], to as [to|]; try done;
    repeat apply NoDup_fmap_filter; done.
Qed.

Lemma pair_rows_unique interval pair db :
  NoDup (map candle_key (table db (getTableName interval))) ->
  NoDup (map candle_timestamp (pair_rows interval pair db)).
Proof.
  unfold pair_rows. generalize (table db (getTableName interval)).
  intros rows. induction rows as [|r rows IH]; [intros _; constructor|].
  cbn [map]. intros [Hfresh Hnd]%NoDup_cons. rewrite filter_cons.
  case_decide as Hp; [|by apply IH]. cbn [map].
  apply NoDup_cons. split; [|by apply IH].
  intros (y & Hy & [Hpy Hin]%list_elem_of_filter)%list_elem_of_fmap.
  apply Hfresh. apply list_elem_of_fmap. exists y. split; [|done].
  unfold candle_key. by rewrite Hp, Hpy, Hy.
Qed.

Lemma all_newest_first_sorted interval pair from to db :
  NoDup (map candle_key (table db (getTableName interval))) ->
  StronglySorted (fun a b => candle_timestamp b < candle_timestamp a)
    (all_newest_first interval pair from to db).
Proof.
  intros Hnd. unfold all_newest_first, order_by. apply strictly_sorted.
  - apply StronglySorted_merge_sort; apply _.
  - rewrite merge_sort_Permutation.
    by apply selected_unique, pair_rows_unique.
Qed.

(** *** Pages of a stream *)

Section Stream.

Variable interval : ChartInterval.
Variable pair : string.
Variables from to : option Z.
Variable db : Db.
Variable limit : Z.
Hypothesis database_up : db_up db = true.
Hypothesis keys_unique :
  NoDup (map candle_key (table db (getTableName interval))).

Let all : list OhlcvCandleEntity := all_newest_first interval pair from to db.

Lemma first_fetch :
  fetch interval
    {| opt_pair := pair; opt_from := from; opt_to := to;
       opt_limit := Some limit; opt_cursor := None;
       opt_orderBy := Some desc |} db
  = take (Z.to_nat (limit + 1)) all.
Proof.
  unfold fetch. cbn. unfold all, all_newest_first, selected, pair_rows.
  by destruct from, to.
Qed.

Lemma page_fetch cursor ahead :
  stands_at all cursor ahead ->
  fetch interval
    {| opt_pair := pair; opt_from := from; opt_to := to;
       opt_limit := Some limit; opt_cursor := cursor;
       opt_orderBy := Some desc |} db
  = take (Z.to_nat (limit + 1)) ahead.
Proof.
  intros [[-> ->]|(before & x & Hall & ->)].
  - apply first_fetch.
  - assert (fetch interval
              {| opt_pair := pair; opt_from := from; opt_to := to;
                 opt_limit := Some limit;
                 opt_cursor := Some (Base64Iso (candle_timestamp x));
                 opt_orderBy := Some desc |} db
            = take (Z.to_nat (limit + 1))
                (order_by desc
                   (selected from to
                      (filter (fun r => candle_timestamp r < candle_timestamp x)
                         (pair_rows interval pair db))))) as ->.
    { unfold fetch. cbn. unfold selected, pair_rows. by destruct from, to. }
    rewrite selected_filter, order_by_filter
      by by apply selected_unique, pair_rows_unique.
    fold (all_newest_first interval pair from to db). fold all.
    rewrite Hall. rewrite older_rows_are_the_suffix; [done|].
    rewrite <- Hall. by apply all_newest_first_sorted.
Qed.

(** One page of the stream. *)
Lemma page_of_stream cursor ahead :
  0 <= limit ->
  fetch interval
    {| opt_pair := pair; opt_from := from; opt_to := to;
       opt_limit := Some limit; opt_cursor := cursor;
       opt_orderBy := Some desc |} db
  = take (Z.to_nat (limit + 1)) ahead ->
  getOhlcvWithCursor pair interval
    {| co_limit := Some limit; co_cursor := cursor;
       co_from := from; co_to := to |} db
  = Ok {| resp_candles :=
            map toOhlcvCandle (take (Z.to_nat limit) ahead);
          resp_pagination :=
            {| pg_nextCursor :=
                 if bool_decide (limit < Z.of_nat (length ahead)) then
                   match last (take (Z.to_nat limit) ahead) with
                   | Some lastCandle =>
                       Some (Base64Iso (candle_timestamp lastCandle))
                   | None => None
                   end
                 else None;
               pg_previousCursor :=
                 match cursor, take (Z.to_nat limit) ahead with
                 | Some _, firstCandle :: _ =>
                     Some (Base64Iso (candle_timestamp firstCandle))
                 | _, _ => None
                 end;
               pg_hasMore := bool_decide (limit < Z.of_nat (length ahead));
               pg_limit := limit |} |}.
Proof.
  intros Hlimit Hat.
  unfold getOhlcvWithCursor, OhlcvAggregatorService.getCandlesWithCursor.
  cbn [co_limit co_cursor co_from co_to from_option id].
  unfold OhlcvRepository.getCandlesWithCursor.
  rewrite database_up. cbn [opt_limit opt_cursor from_option id].
  rewrite Hat.
  assert (bool_decide
            (limit < Z.of_nat (length (take (Z.to_nat (limit + 1)) ahead)))
          = bool_decide (limit < Z.of_nat (length ahead))) as ->.
  { apply bool_decide_ext. rewrite length_take. lia. }
  destruct (bool_decide_reflect (limit < Z.of_nat (length ahead)))
    as [Hmore|Hlast].
  - rewrite take_take.
    replace (Z.to_nat limit `min` Z.to_nat (limit + 1))%nat
      with (Z.to_nat limit) by lia.
    done.
  - rewrite (take_ge ahead (Z.to_nat (limit + 1))) by lia.
    rewrite (take_ge ahead (Z.to_nat limit)) by lia.
    done.
Qed.

(** X18.  Streaming is complete: with a page size of at least 1 and a
    table that holds one row per (pair, period-start), the generator ends
    after finitely many turns, and the pages it yields, put together, are
    every candle of the pair in the date range, each once, newest first;
    no page is empty or longer than the page size. *)
Theorem streamCandles_complete :
  1 <= limit ->
  exists fuel streamed,
    streamCandles fuel pair interval (Some limit) from to db = Some streamed
    /\ ended streamed = Ok tt
    /\ concat (pages streamed) = map toOhlcvCandle all
    /\ Forall (fun page => 1 <= Z.of_nat (length page) <= limit)
              (pages streamed).
Proof.
  intros Hlimit.
  assert (forall fuel cursor ahead,
            (length ahead < fuel)%nat ->
            stands_at all cursor ahead ->
            exists streamed,
              streamCandles_loop fuel pair interval limit from to cursor db
                = Some streamed
              /\ ended streamed = Ok tt
              /\ concat (pages streamed) = map toOhlcvCandle ahead
              /\ Forall (fun page => 1 <= Z.of_nat (length page) <= limit)
                        (pages streamed)) as Hloop.
  { induction fuel as [|fuel IH]; intros cursor ahead Hfuel Hat; [lia|].
    cbn [streamCandles_loop].
    rewrite (page_of_stream cursor ahead ltac:(lia)
               (page_fetch cursor ahead Hat)).
    cbn [resp_candles resp_pagination pg_hasMore pg_nextCursor].
    rewrite length_map.
    destruct (bool_decide_reflect (limit < Z.of_nat (length ahead)))
      as [Hmore|Hlast].
    - (* a full page, and more rows ahead *)
      assert (length (take (Z.to_nat limit) ahead) = Z.to_nat limit) as Hlen.
      { rewrite length_take. lia. }
      destruct (last (take (Z.to_nat limit) ahead)) as [y|] eqn:Hy.
      2:{ apply last_None in Hy. rewrite Hy in Hlen. cbn in Hlen. lia. }
      apply last_Some in Hy as (page' & Hpage).
      destruct (IH (Some (Base64Iso (candle_timestamp y)))
                   (drop (Z.to_nat limit) ahead)) as (rest & -> & He & Hc & Hf).
      { rewrite length_drop. lia. }
      { right.
        assert (ahead = page' ++ y :: drop (Z.to_nat limit) ahead) as Hsplit.
        { rewrite <- (take_drop (Z.to_nat limit) ahead) at 1.
          by rewrite Hpage, <- app_assoc. }
        destruct Hat as [[_ Ha]|(before & x & Hb & _)].
        - exists page', y. split; [|done]. by rewrite <- Ha.
        - exists (before ++ x :: page'), y. split; [|done].
          rewrite Hb. rewrite Hsplit at 1. by rewrite <- app_assoc. }
      rewrite bool_decide_eq_true_2 by (rewrite Hlen; lia).
      eexists. split; [done|]. cbn [pages ended].
      split_and!; [done| |].
      + cbn [concat app]. rewrite Hc, <- map_app. by rewrite take_drop.
      + constructor; [|done]. rewrite length_map, Hlen. lia.
    - (* the last page *)
      rewrite (take_ge ahead (Z.to_nat limit)) by lia.
      eexists. split; [done|]. cbn [pages ended].
      split; [done|].
      destruct ahead as [|a ahead].
      + rewrite bool_decide_eq_false_2 by (cbn; lia). by split.
      + rewrite bool_decide_eq_true_2 by (cbn; lia).
        split; [cbn; by rewrite app_nil_r|].
        constructor; [|constructor]. rewrite length_map.
        cbn [length] in *. lia. }
  exists (S (length all)).
  destruct (Hloop (S (length all)) None all ltac:(lia)) as (streamed & Hs);
    [by left|].
  by exists streamed.
Qed.

(** X19.  With a page size of 0 the generator never ends when the range
    holds a candle: each turn fetches one row, reports [hasMore], returns
    an empty page and no cursor, and the next turn asks the same. *)
Theorem streamCandles_page_size_0_never_ends :
  limit = 0 ->
  all <> [] ->
  forall fuel,
    streamCandles fuel pair interval (Some limit) from to db = None.
Proof.
  intros Hzero Hne fuel. unfold streamCandles. cbn [from_option id].
  induction fuel as [|fuel IH]; [done|].
  cbn [streamCandles_loop].
  rewrite (page_of_stream None all ltac:(lia) first_fetch).
  cbn [resp_candles resp_pagination pg_hasMore pg_nextCursor].
  replace (Z.to_nat limit) with 0%nat by lia.
  rewrite !take_0. cbn [map length last].
  rewrite (bool_decide_eq_true_2 (limit < Z.of_nat (length all)))
    by (destruct all; [done|cbn [length]; lia]).
  by rewrite IH.
Qed.

End Stream.

(** *** Offset pagination *)

Lemma offset_pages_concat interval pair limit n db :
  db_up db = true ->
  0 <= limit ->
  concat (offset_pages interval pair limit n db)
  = take (n * Z.to_nat limit)
      (order_by desc (pair_rows interval pair db)).
Proof.
  intros Hup Hlimit. unfold offset_pages.
  induction n as [|n IH]; [done|].
  rewrite seq_S, map_app, concat_app, IH. cbn [map concat plus].
  unfold getCandles. rewrite Hup. rewrite app_nil_r.
  replace (Z.to_nat (Z.of_nat n * limit)) with (n * Z.to_nat limit)%nat by nia.
  rewrite take_take_drop. f_equal. lia.
Qed.

(** X15.  Offset pages tile the candles of a pair: the pages 0 .. n-1 of
    size [limit], put together, are the first n × limit candles newest
    first, so as soon as n × limit reaches [total] they are all the
    candles of the pair, each once; [total] is what getCandleCount
    reports. *)
Theorem offset_pages_tile interval pair limit n db :
  db_up db = true ->
  0 <= limit ->
  match getCandles interval pair limit 0 db with
  | Ok (_, total) =>
      getCandleCount interval pair db = Ok total
      /\ (total <= Z.of_nat n * limit ->
          concat (offset_pages interval pair limit n db)
          = order_by desc (pair_rows interval pair db)
          /\ concat (offset_pages interval pair limit n db)
             ≡ₚ pair_rows interval pair db)
  | Throw => False
  end.
Proof.
  intros Hup Hlimit. unfold getCandles, getCandleCount. rewrite Hup.
  split; [done|]. intros Htotal.
  rewrite offset_pages_concat by done.
  assert (take (n * Z.to_nat limit) (order_by desc (pair_rows interval pair db))
          = order_by desc (pair_rows interval pair db)) as ->.
  { apply take_ge. unfold order_by.
    rewrite merge_sort_Permutation. nia. }
  split; [done|]. unfold order_by. apply merge_sort_Permutation.
Qed.

(** *** The latest candle *)

Lemma latest_candle interval pair db :
  db_up db = true ->
  match OhlcvRepository.getLatestCandle interval pair db with
  | Ok (Some c) =>
      c ∈ table db (getTableName interval)
      /\ candle_pair c = pair
      /\ forall r, r ∈ table db (getTableName interval) ->
                   candle_pair r = pair ->
                   candle_timestamp r <= candle_timestamp c
  | Ok None =>
      forall r, r ∈ table db (getTableName interval) -> candle_pair r <> pair
  | Throw => False
  end.
Proof.
  intros Hup. unfold OhlcvRepository.getLatestCandle. rewrite Hup.
  unfold order_by.
  pose proof (merge_sort_Permutation candle_ts_ge (pair_rows interval pair db))
    as Hp.
  pose proof (StronglySorted_merge_sort candle_ts_ge
                (pair_rows interval pair db)) as Hs.
  destruct (merge_sort candle_ts_ge (pair_rows interval pair db))
    as [|c rest]; cbn.
  - intros r Hr Hpair. apply Permutation_nil_l in Hp.
    assert (r ∈ pair_rows interval pair db) as Hin.
    { apply list_elem_of_filter. by split. }
    rewrite <- Hp in Hin. by apply elem_of_nil in Hin.
  - assert (c ∈ pair_rows interval pair db) as Hc by (rewrite <- Hp; left).
    apply list_elem_of_filter in Hc as [Hcp Hc].
    split_and!; [done..|]. intros r Hr Hpair.
    assert (r ∈ c :: rest) as Hin.
    { rewrite Hp. apply list_elem_of_filter. by split. }
    apply StronglySorted_inv in Hs as [_ Hall].
    apply elem_of_cons in Hin as [->|Hin]; [lia|].
    apply (proj1 (Forall_forall _ _) Hall r Hin).
Qed.

(** X16.  getLatestCandle returns a candle of the pair that no candle of
    the pair is newer than, and nothing exactly when the pair has no
    candle. *)
Theorem getLatestCandle_is_newest interval pair db :
  db_up db = true ->
  match OhlcvRepository.getLatestCandle interval pair db with
  | Ok (Some c) =>
      c ∈ table db (getTableName interval)
      /\ candle_pair c = pair
      /\ forall r, r ∈ table db (getTableName interval) ->
                   candle_pair r = pair ->
                   candle_timestamp r <= candle_timestamp c
  | Ok None =>
      forall r, r ∈ table db (getTableName interval) -> candle_pair r <> pair
  | Throw => False
  end.
Proof. apply latest_candle. Qed.

(** X17.  A candle that is upserted and is newer than every candle its
    pair had is what getLatestCandle of the charts service serves next. *)
Theorem upserted_candle_is_served interval c db :
  db_up db = true ->
  (forall r, r ∈ table db (getTableName interval) ->
             candle_pair r = candle_pair c ->
             candle_timestamp r < candle_timestamp c) ->
  ChartsService.getLatestCandle (candle_pair c) interval
    (upsertCandle interval c db).2
  = Ok (Some (toOhlcvCandle c)).
Proof.
  intros Hup Hnewer.
  unfold ChartsService.getLatestCandle, OhlcvAggregatorService.getLatestCandle.
  set (db' := (upsertCandle interval c db).2).
  assert (db_up db' = true) as Hup'.
  { unfold db', upsertCandle. by rewrite Hup. }
  assert (table db' (getTableName interval)
          = upsert_row c (table db (getTableName interval))) as Ht.
  { unfold db', upsertCandle, table. rewrite Hup. cbn.
    by rewrite lookup_insert_eq. }
  pose proof (latest_candle interval (candle_pair c) db' Hup')
    as Hlatest.
  destruct (OhlcvRepository.getLatestCandle interval (candle_pair c) db')
    as [[c'|]|]; [| |done].
  - destruct Hlatest as (Hin & Hpair & Hmax).
    rewrite Ht in Hin, Hmax.
    assert (c ∈ upsert_row c (table db (getTableName interval))) as Hc.
    { apply OhlcvAggregatorFacts.upsert_row_elem. }
    specialize (Hmax c Hc eq_refl).
    apply OhlcvAggregatorExtra.upsert_row_inv in Hin as [Hold| ->]; [|done].
    specialize (Hnewer c' Hold Hpair). lia.
  - exfalso. apply (Hlatest c); [|done]. rewrite Ht.
    apply OhlcvAggregatorFacts.upsert_row_elem.
Qed.

(** *** The conflict target stays unique *)

Lemma same_key_candle_key c r :
  same_key c r = true <-> candle_key r = candle_key c.
Proof.
  unfold same_key, candle_key.
  rewrite andb_true_iff, !bool_decide_eq_true. split.
  - by intros [-> ->].
  - by intros [= -> ->].
Qed.

Lemma upsert_row_keys c rows :
  NoDup (map candle_key rows) ->
  NoDup (map candle_key (upsert_row c rows))
  /\ (length rows <= length (upsert_row c rows) <= S (length rows))%nat.
Proof.
  intros Hnd. unfold upsert_row.
  destruct (existsb (same_key c) rows) eqn:He.
  - rewrite length_map. split; [|lia].
    assert (map candle_key (map (fun r => if same_key c r then c else r) rows)
            = map candle_key rows) as ->; [|done].
    rewrite map_map. apply map_ext. intros r.
    destruct (same_key c r) eqn:Hk; [|done].
    symmetry. by apply same_key_candle_key.
  - rewrite length_app, map_app. cbn. split; [|lia].
    apply NoDup_app. split_and!; [done| |apply NoDup_singleton].
    intros k (r & -> & Hr)%list_elem_of_fmap Hk%list_elem_of_singleton.
    assert (existsb (same_key c) rows = true); [|congruence].
    apply existsb_exists. exists r. split; [by apply list_elem_of_In|].
    by apply same_key_candle_key.
Qed.

Lemma upsertCandle_unique_keys interval c db :
  unique_keys db -> unique_keys (upsertCandle interval c db).2.
Proof.
  intros Hu name. unfold upsertCandle.
  destruct (db_up db); [|apply Hu]. unfold table. cbn.
  destruct (decide (name = getTableName interval)) as [->|Hne].
  - rewrite lookup_insert_eq. cbn. by apply upsert_row_keys, Hu.
  - rewrite lookup_insert_ne by done. apply Hu.
Qed.

Lemma upsertCandle_table interval c db :
  table (upsertCandle interval c db).2 (getTableName interval)
  = if db_up db then upsert_row c (table db (getTableName interval))
    else table db (getTableName interval).
Proof.
  unfold upsertCandle. destruct (db_up db); [|done].
  unfold table at 1. cbn. by rewrite lookup_insert_eq.
Qed.

(** X20.  One row per (pair, period-start) is an invariant: upsertCandle
    keeps it, adding at most one row, and so does every aggregation run of
    the OHLCV process. *)
Theorem unique_keys_invariant interval c periodStart periodEnd db :
  unique_keys db ->
  unique_keys (upsertCandle interval c db).2
  /\ (length (table db (getTableName interval))
      <= length (table (upsertCandle interval c db).2 (getTableName interval))
      <= S (length (table db (getTableName interval))))%nat
  /\ unique_keys
       (OhlcvAggregator.aggregateInterval interval periodStart periodEnd db).2.
Proof.
  intros Hu. split_and!.
  - by apply upsertCandle_unique_keys.
  - rewrite upsertCandle_table. destruct (db_up db); [|lia].
    apply upsert_row_keys, Hu.
  - rewrite upsertCandle_table. destruct (db_up db); [|lia].
    apply upsert_row_keys, Hu.
  - unfold OhlcvAggregator.aggregateInterval.
    generalize (OhlcvAggregator.USD_PAIRS ++ OhlcvAggregator.RUB_PAIRS).
    generalize 0%nat. intros n pairs. revert n db Hu.
    induction pairs as [|p pairs IH]; intros n db Hu; [done|].
    cbn [fold_left].
    assert (unique_keys
              (OhlcvAggregator.aggregate_step interval periodStart periodEnd
                 (n, db) p).2) as Hstep.
    { unfold OhlcvAggregator.aggregate_step, OhlcvAggregator.aggregate_pair.
      destruct (db_up db); [|done].
      destruct (PriceHistoryRepository.findByPairInRange _ _)
        as [|first rest]; [done|].
      pose proof (upsertCandle_unique_keys interval
                    (OhlcvAggregator.candle_of p periodStart first
                       (first :: rest)) db Hu) as Hk.
      by destruct (upsertCandle interval _ db) as [[[]|] db']. }
    destruct (OhlcvAggregator.aggregate_step interval periodStart periodEnd
                (n, db) p) as [n1 db1].
    by apply IH.
Qed.

(** *** The chart *)

#[local] Instance candle_ts_le_transitive : Transitive candle_ts_le.
Proof. unfold candle_ts_le. intros x y z. lia. Qed.

#[local] Instance candle_ts_le_totality : Total candle_ts_le.
Proof. unfold candle_ts_le. intros x y. lia. Qed.




Lemma streamCandles_complete_witness :
  exists fuel streamed,
    streamCandles fuel "btc-usd" I5min (Some 2) None None db_five_candles
      = Some streamed
    /\ ended streamed = Ok tt
    /\ concat (pages streamed)
       = map toOhlcvCandle
           (all_newest_first I5min "btc-usd" None None db_five_candles)
    /\ Forall (fun page => 1 <= Z.of_nat (length page) <= 2)
              (pages streamed).
Proof.
  apply (streamCandles_complete I5min "btc-usd" None None db_five_candles 2).
  - reflexivity.
  - apply (bool_decide_unpack _). by vm_compute.
  - lia.
Defined.

Lemma streamCandles_page_size_0_never_ends_witness :
  streamCandles 1000 "btc-usd" I5min (Some 0) None None db_five_candles
  = None.
Proof.
  apply (streamCandles_page_size_0_never_ends I5min "btc-usd" None None
           db_five_candles 0 eq_refl).
  - reflexivity.
  - by vm_compute.
Defined.

Lemma offset_pages_tile_witness :
  match getCandles I5min "btc-usd" 2 0 db_five_candles with
  | Ok (_, total) =>
      getCandleCount I5min "btc-usd" db_five_candles = Ok total
      /\ (total <= Z.of_nat 3 * 2 ->
          concat (offset_pages I5min "btc-usd" 2 3 db_five_candles)
          = order_by desc (pair_rows I5min "btc-usd" db_five_candles)
          /\ concat (offset_pages I5min "btc-usd" 2 3 db_five_candles)
             ≡ₚ pair_rows I5min "btc-usd" db_five_candles)
  | Throw => False
  end.
Proof.
  apply (offset_pages_tile I5min "btc-usd" 2 3 db_five_candles).
  - reflexivity.
  - lia.
Defined.

Lemma getLatestCandle_is_newest_witness :
  match OhlcvRepository.getLatestCandle I5min "btc-usd" db_five_candles with
  | Ok (Some c) =>
      c ∈ table db_five_candles (getTableName I5min)
      /\ candle_pair c = "btc-usd"
      /\ forall r, r ∈ table db_five_candles (getTableName I5min) ->
                   candle_pair r = "btc-usd" ->
                   candle_timestamp r <= candle_timestamp c
  | Ok None =>
      forall r, r ∈ table db_five_candles (getTableName I5min) ->
                candle_pair r <> "btc-usd"
  | Throw => False
  end.
Proof.
  apply (getLatestCandle_is_newest I5min "btc-usd" db_five_candles).
  reflexivity.
Defined.

Lemma upserted_candle_is_served_witness :
  ChartsService.getLatestCandle "btc-usd" I5min
    (upsertCandle I5min (candle_at 1800000) db_five_candles).2
  = Ok (Some (toOhlcvCandle (candle_at 1800000))).
Proof.
  apply (upserted_candle_is_served I5min (candle_at 1800000) db_five_candles).
  - reflexivity.
  - apply (Forall_forall (fun r => candle_pair r = candle_pair (candle_at 1800000)
                                   -> candle_timestamp r < 1800000)).
    apply (bool_decide_unpack _). by vm_compute.
Defined.

Lemma unique_keys_invariant_witness :
  unique_keys (upsertCandle I5min (candle_at 600000) db_five_candles).2.
Proof.
  apply (unique_keys_invariant I5min (candle_at 600000) 0 300000
           db_five_candles).
  intros name. unfold table, db_five_candles. cbn [candles].
  destruct (decide (name = "price_history_5min")) as [->|Hne].
  - rewrite lookup_singleton_eq. apply (bool_decide_unpack _). by vm_compute.
  - rewrite lookup_singleton_ne by done. cbn. constructor.
Defined.


End OhlcvRepositoryExtra.

(** ** Price history queries and the prices service: further properties *)

Module PricesExtra.
Import PriceHistoryRepository OhlcvRepository OhlcvSpec PricesService.
Import StreamAggregator StreamAggregatorSpec.

#[local] Instance ts_le_transitive : Transitive ts_le.
Proof. unfold ts_le. intros x y z. lia. Qed.

#[local] Instance ts_le_totality : Total ts_le.
Proof. unfold ts_le. intros x y. lia. Qed.

#[local] Instance ts_ge_transitive : Transitive ts_ge.
Proof. unfold ts_ge. intros x y z. lia. Qed.

#[local] Instance ts_ge_totality : Total ts_ge.
Proof. unfold ts_ge. intros x y. lia. Qed.

(** ORDER BY ... LIMIT 1: the first row of the sorted selection is a row of
    the selection that comes before every other. *)
Lemma first_of_sorted {A} (R : relation A) `{!Transitive R, !Total R}
    `{forall x y, Decision (R x y)} (l : list A) :
  match head (take 1 (merge_sort R l)) with
  | Some x => x ∈ l /\ forall y, y ∈ l -> R x y
  | None => l = []
  end.
Proof.
  pose proof (merge_sort_Permutation R l) as Hp.
  pose proof (StronglySorted_merge_sort R l) as Hs.
  destruct (merge_sort R l) as [|x rest]; cbn.
  - symmetry. by apply Permutation_nil_l.
  - split; [rewrite <- Hp; left|].
    intros y Hy. rewrite <- Hp in Hy.
    apply StronglySorted_inv in Hs as [_ Hall].
    apply elem_of_cons in Hy as [->|Hy].
    + by destruct (total R x x).
    + by apply (proj1 (Forall_forall _ _) Hall).
Qed.

(** *** The price served after a tick *)

(** X21.  What a tick caches is what getPrice serves: after the
    aggregation of a pair went through at [now], getPrice of that pair
    within the 60 s for which the tick's cache entry lives answers from the
    cache, with the VWAP of the tick rounded to eight decimals and the
    tick's clock reading, without asking the database and without writing
    the cache. *)
Theorem tick_price_is_served getRate now pair w t db :
  (aggregate_pair getRate now pair w).1 = Ok true ->
  t - now < 60 * 1000 ->
  exists v,
    (calculateVwap pair now w).1 = Ok (Some v)
    /\ getPrice pair t (aggregate_pair getRate now pair w).2 db
       = (Resolved {| pr_pair := pair;
                      pr_price := parseFloat8 (toFixed8 (vwap_price v));
                      pr_timestamp := now |}, None).
Proof.
  unfold aggregate_pair, StreamAggregator.bind. intros Hok Hfresh.
  destruct (calculateVwap pair now w) as [[[v|]|] w1] eqn:Hv; try done.
  apply StreamAggregatorExtra.calculateVwap_result in Hv as [Hpair Hnow].
  exists v. split; [done|].
  destruct (savePrices getRate v w1) as [[[]|] w2]; [|done].
  unfold cachePrice, StreamAggregator.bind, setex, publish in *.
  destruct (StreamAggregator.redis_ok w2) eqn:Hredis; [|done].
  cbn.
  unfold getPrice, getPriceFromCache. cbn.
  rewrite Hpair, lookup_insert_eq. cbn.
  rewrite Hnow. unfold STALE_THRESHOLD.
  by rewrite bool_decide_eq_false_2 by lia.
Qed.

(** *** getPrice without the cache *)

(** X22.  Redis is optional for getPrice: a Redis that rejects is a cache
    miss, and on a miss the answer comes from the database alone: the
    newest row of the pair, together with a SETEX of TTL 60 for it;
    PRICE_UNAVAILABLE exactly when the pair has no row; DATABASE_ERROR
    exactly when the database is down. *)
Theorem getPrice_answers_from_database pair now w db :
  (StreamAggregator.redis_ok w = false -> getPriceFromCache pair now w = None)
  /\ (getPriceFromCache pair now w = None ->
      match getPrice pair now w db with
      | (Resolved r, Some write) =>
          db_up db = true
          /\ (exists row,
                row ∈ OhlcvRepository.price_history db /\ ph_pair row = pair
                /\ (forall other, other ∈ OhlcvRepository.price_history db ->
                      ph_pair other = pair ->
                      ph_timestamp other <= ph_timestamp row)
                /\ r = {| pr_pair := pair; pr_price := JNum (ph_price row);
                          pr_timestamp := ph_timestamp row |})
          /\ write = {| cw_key := "price:" +:+ pair; cw_ttl := 60;
                        cw_price := toFixed8 (pr_price r);
                        cw_timestamp := pr_timestamp r |}
      | (Rejected PRICE_UNAVAILABLE, None) =>
          db_up db = true
          /\ forall row, row ∈ OhlcvRepository.price_history db -> ph_pair row <> pair
      | (Rejected DATABASE_ERROR, None) => db_up db = false
      | _ => False
      end).
Proof.
  split.
  { intros Hdown. unfold getPriceFromCache. by rewrite Hdown. }
  intros Hmiss. unfold getPrice. rewrite Hmiss.
  unfold getPriceFromDbWithRetry.
  destruct (db_up db) eqn:Hup; [|done].
  unfold getLatestPrice, PriceHistoryRepository.order_by.
  pose proof (first_of_sorted ts_ge (of_pair pair (OhlcvRepository.price_history db))) as Hfirst.
  destruct (head (take 1 (merge_sort ts_ge (of_pair pair (OhlcvRepository.price_history db)))))
    as [row|].
  - destruct Hfirst as [[Hpair Hin]%list_elem_of_filter Hmax].
    split_and!; [done| |by rewrite <- Hpair].
    exists row. split_and!; [done..| |by rewrite Hpair].
    intros other Ho Hop. apply (Hmax other).
    apply list_elem_of_filter. by split.
  - split; [done|]. intros row Hrow Hpair.
    assert (row ∈ of_pair pair (OhlcvRepository.price_history db)) as Hin.
    { apply list_elem_of_filter. by split. }
    rewrite Hfirst in Hin. by apply elem_of_nil in Hin.
Qed.

(** *** Price change *)


(** With no price inside the range the two rows come from outside it, and
    the "start" row can be the later one. *)
Example price_change_outside_range :
  match getPriceChange "btc-usd" 100000 200000 db_gap with
  | Resolved resp => pc_startDate resp = 500000 /\ pc_endDate resp = 0
  | _ => False
  end.
Proof. by vm_compute. Qed.

(** *** Counting and paging *)

(** X24.  countInRange is additive over adjacent ranges: its ranges are
    half-open, so the counts of [a, b) and [b, c) add up to the count of
    [a, c). *)
Theorem countInRange_additive pair a b c table :
  a <= b ->
  b <= c ->
  countInRange pair a b table + countInRange pair b c table
  = countInRange pair a c table.
Proof.
  intros Hab Hbc. unfold countInRange.
  generalize (of_pair pair table). intros l.
  induction l as [|r l IH]; [done|].
  rewrite !(filter_cons _ r).
  destruct (decide (a <= ph_timestamp r)), (decide (b <= ph_timestamp r));
    rewrite ?(filter_cons _ r);
    repeat case_decide; cbn [length]; lia.
Qed.

Lemma StronglySorted_drop {A} (R : relation A) n (l : list A) :
  StronglySorted R l -> StronglySorted R (drop n l).
Proof.
  intros Hs. rewrite <- (take_drop n l) in Hs.
  by apply StronglySorted_app_1_r in Hs.
Qed.

(** X25.  Whatever the caller asks for, findByPairInRange returns at most
    10 000 rows, and no more than a limit that was given; every row it
    returns is a row of the table, of the pair, inside the bounds, and the
    rows come in the order asked for (newest first by default). *)
Theorem findByPairInRange_capped options table :
  let rows := findByPairInRange options table in
  Z.of_nat (length rows) <= MAX_LIMIT
  /\ (forall limit, PriceHistoryRepository.opt_limit options = Some limit ->
        0 <= limit -> Z.of_nat (length rows) <= limit)
  /\ (forall r, r ∈ rows ->
        r ∈ table
        /\ ph_pair r = PriceHistoryRepository.opt_pair options
        /\ within (PriceHistoryRepository.opt_from options)
                  (PriceHistoryRepository.opt_to options) r)
  /\ StronglySorted (in_order (PriceHistoryRepository.opt_orderBy options))
       rows.
Proof.
  cbn zeta. unfold findByPairInRange, MAX_LIMIT.
  set (sel := match PriceHistoryRepository.opt_to options with
              | Some to => filter _ _
              | None => _
              end).
  set (sorted := PriceHistoryRepository.order_by _ sel).
  set (paged := match PriceHistoryRepository.opt_offset options with
                | Some offset => _
                | None => sorted
                end).
  assert (paged ⊆ sorted) as Hsub.
  { unfold paged. destruct (PriceHistoryRepository.opt_offset options);
      [|done]. case_decide; [done|]. apply subseteq_drop. }
  assert (forall r, r ∈ sel ->
            r ∈ table
            /\ ph_pair r = PriceHistoryRepository.opt_pair options
            /\ within (PriceHistoryRepository.opt_from options)
                      (PriceHistoryRepository.opt_to options) r) as Hsel.
  { intros r. unfold sel, within.
    destruct (PriceHistoryRepository.opt_from options),
      (PriceHistoryRepository.opt_to options);
      rewrite !list_elem_of_filter; tauto. }
  assert (StronglySorted
            (in_order (PriceHistoryRepository.opt_orderBy options)) sorted)
    as Hsorted.
  { unfold sorted, in_order, PriceHistoryRepository.order_by.
    destruct (default desc (PriceHistoryRepository.opt_orderBy options));
      apply StronglySorted_merge_sort; apply _. }
  split_and!.
  - rewrite length_take. lia.
  - intros limit -> Hlimit. rewrite length_take. cbn. lia.
  - intros r Hr%subseteq_take%Hsub. apply Hsel.
    unfold sorted, PriceHistoryRepository.order_by in Hr.
    destruct (default desc (PriceHistoryRepository.opt_orderBy options));
      by rewrite merge_sort_Permutation in Hr.
  - apply OhlcvRepositoryFacts.StronglySorted_take.
    unfold paged. destruct (PriceHistoryRepository.opt_offset options);
      [|done]. case_decide; [done|]. by apply StronglySorted_drop.
Qed.

Lemma tick_price_is_served_witness :
  exists v,
    (calculateVwap "btc-usd" 100000 world_three_venues).1 = Ok (Some v)
    /\ getPrice "btc-usd" 130000
         (aggregate_pair (Ok (JNum (dec 90 1))) 100000 "btc-usd"
            world_three_venues).2 db_down
       = (Resolved {| pr_pair := "btc-usd";
                      pr_price := parseFloat8 (toFixed8 (vwap_price v));
                      pr_timestamp := 100000 |}, None).
Proof.
  apply (tick_price_is_served (Ok (JNum (dec 90 1))) 100000 "btc-usd"
           world_three_venues 130000 db_down).
  - by vm_compute.
  - by vm_compute.
Defined.


Lemma countInRange_additive_witness :
  countInRange "btc-usd" 0 60000 (OhlcvRepository.price_history db_three_prices)
  + countInRange "btc-usd" 60000 120001 (OhlcvRepository.price_history db_three_prices)
  = countInRange "btc-usd" 0 120001 (OhlcvRepository.price_history db_three_prices).
Proof.
  apply (countInRange_additive "btc-usd" 0 60000 120001); lia.
Defined.

End PricesExtra.

(** ** CBR rate service: further properties *)

Module CbrRateExtra.
Import CbrRate CbrRateSpec CbrRateFacts.

Lemma fetchRate_cases now response sv :
  (fetchRate now response sv = (Throw, sv))
  \/ exists rate,
       js_gt0 rate = true
       /\ fetchRate now response sv
          = (Ok tt, {| lastFetchTime := now; cachedRate := rate;
                       lastError := lastError sv;
                       consecutiveFailures := consecutiveFailures sv |}).
Proof.
  unfold fetchRate. destruct response as [m|rate setex_ok]; [by left|].
  destruct (js_isNaN rate || js_le0 rate) eqn:Hv; [by left|].
  destruct setex_ok; cbn; [|by left].
  right. exists rate. split; [by apply valid_rate_positive|done].
Qed.

(** The retry loop with [n] attempts left. *)
Lemma fetch_attempts_accounting n : forall now responses sv,
  let '(ok, sv', _) := fetch_attempts n now responses sv in
  (ok = true ->
     consecutiveFailures sv' = 0 /\ lastError sv' = None
     /\ lastFetchTime sv' = now /\ js_gt0 (cachedRate sv') = true)
  /\ (ok = false ->
        consecutiveFailures sv' = consecutiveFailures sv + Z.of_nat n
        /\ cachedRate sv' = cachedRate sv
        /\ lastFetchTime sv' = lastFetchTime sv).
Proof.
  induction n as [|n IH]; intros now responses sv.
  { cbn. split; [done|]. intros _. split_and!; [lia|done..]. }
  cbn [fetch_attempts].
  destruct (fetchRate_cases now
              (default (RequestFails "fetch failed") (head responses)) sv)
    as [->|(rate & Hrate & ->)].
  - specialize (IH now (tail responses)
                  {| lastFetchTime := lastFetchTime sv;
                     cachedRate := cachedRate sv;
                     lastError :=
                       Some (error_message
                               (default (RequestFails "fetch failed")
                                  (head responses)));
                     consecutiveFailures := consecutiveFailures sv + 1 |}).
    destruct (fetch_attempts n now (tail responses) _) as [[ok sv'] rest].
    cbn in IH. destruct IH as [IHok IHfail]. split; [done|].
    intros Hfail. destruct (IHfail Hfail) as (? & ? & ?).
    split_and!; [lia|done..].
  - cbn. split; [done|]. done.
Qed.

Lemma positive_rate_not_zero x :
  js_gt0 x = true -> js_strict_eq x (JNum 0%Qc) = false.
Proof.
  destruct x as [x| | |]; cbn; try done. intros Hvalid.
  apply bool_decide_eq_false. intros ->.
  apply OhlcvAggregatorFacts.Qc_ltb_true in Hvalid.
  by apply Qclt_not_eq in Hvalid.
Qed.

(** X26.  An in-memory rate that is positive stays positive: no retry loop
    replaces it by an invalid value; while it is positive getRate neither
    re-fetches nor changes the service, and serves the Redis rate or the
    in-memory rate, never anything else; and the health of the service is
    not unhealthy. *)
Theorem valid_rate_is_kept config now cached responses sv :
  js_gt0 (cachedRate sv) = true ->
  js_gt0 (cachedRate (fetchRateWithRetry config now responses sv).1.2) = true
  /\ (getRate config now cached responses sv).2 = sv
  /\ (exists rate,
        (getRate config now cached responses sv).1 = Ok rate
        /\ (rate = cachedRate sv \/ cached = Ok (Some rate)))
  /\ getHealthStatus config now sv <> StreamAggregator.unhealthy.
Proof.
  intros Hvalid. split_and!.
  - unfold fetchRateWithRetry.
    pose proof (fetch_attempts_accounting (Z.to_nat (retryAttempts config))
                  now responses sv) as Hacc.
    destruct (fetch_attempts _ now responses sv) as [[ok sv'] rest].
    cbn. destruct Hacc as [Hok Hfail]. destruct ok.
    + by destruct (Hok eq_refl) as (_ & _ & _ & ?).
    + destruct (Hfail eq_refl) as (_ & -> & _). done.
  - unfold getRate. rewrite Hvalid.
    destruct cached as [[rate|]|]; try done.
    by destruct (negb (js_isNaN rate) && js_gt0 rate).
  - unfold getRate. rewrite Hvalid.
    destruct cached as [[rate|]|]; try (by eexists; split; [done|left]).
    destruct (negb (js_isNaN rate) && js_gt0 rate).
    + exists rate. split; [done|by right].
    + eexists. split; [done|by left].
  - unfold getHealthStatus. rewrite positive_rate_not_zero by done.
    by destruct (bool_decide (3 <= consecutiveFailures sv)),
         (isRateStale config now sv).
Qed.

(** X27.  The failure counter counts attempts, not refreshes: a refresh
    that succeeds resets it to 0, clears the error and stamps the fetch
    time; a refresh that fails adds the number of attempts and leaves rate
    and fetch time alone, so that one failed refresh of three attempts
    already turns the health of a service holding a rate to degraded. *)
Theorem refresh_accounting config now responses sv :
  let '(ok, sv', _) := fetchRateWithRetry config now responses sv in
  (ok = true ->
     consecutiveFailures sv' = 0 /\ lastError sv' = None
     /\ lastFetchTime sv' = now /\ js_gt0 (cachedRate sv') = true)
  /\ (ok = false ->
        consecutiveFailures sv'
        = consecutiveFailures sv + Z.max 0 (retryAttempts config)
        /\ cachedRate sv' = cachedRate sv
        /\ lastFetchTime sv' = lastFetchTime sv
        /\ (3 <= retryAttempts config ->
            0 <= consecutiveFailures sv ->
            js_gt0 (cachedRate sv) = true ->
            getHealthStatus config now sv' = StreamAggregator.degraded)).
Proof.
  unfold fetchRateWithRetry.
  pose proof (fetch_attempts_accounting (Z.to_nat (retryAttempts config))
                now responses sv) as Hacc.
  destruct (fetch_attempts _ now responses sv) as [[ok sv'] rest].
  destruct Hacc as [Hok Hfail]. split; [done|].
  intros Hf. destruct (Hfail Hf) as (Hc & Hr & Ht).
  split_and!; [lia|done..|].
  intros Hattempts Hcount Hvalid.
  unfold getHealthStatus. rewrite Hr, positive_rate_not_zero by done.
  by rewrite bool_decide_eq_true_2 by lia.
Qed.

Lemma valid_rate_is_kept_witness :
  (getRate default_config 2000 Throw [] fetched_once).2 = fetched_once.
Proof.
  apply (valid_rate_is_kept default_config 2000 Throw [] fetched_once).
  by vm_compute.
Defined.

End CbrRateExtra.

(** ** Data retention: further properties *)

Module RetentionExtra.
Import PriceHistoryRepository OhlcvRepository RetentionService RetentionSpec.

Lemma filter_split_length {A} (P : A -> Prop) `{forall x, Decision (P x)}
    (l : list A) :
  Z.of_nat (length (filter P l))
  + Z.of_nat (length (filter (fun x => ~ P x) l))
  = Z.of_nat (length l).
Proof.
  induction l as [|x l IH]; [done|].
  rewrite !filter_cons. destruct (decide (P x)).
  - rewrite decide_False by tauto. cbn [length]. lia.
  - rewrite decide_True by done. cbn [length]. lia.
Qed.

Lemma only_removes_refl db : only_removes db db.
Proof. split; [done|]. by intros interval. Qed.

Lemma only_removes_trans db1 db2 db3 :
  only_removes db1 db2 -> only_removes db2 db3 -> only_removes db1 db3.
Proof.
  intros [H1 H2] [H3 H4]. split.
  - intros x Hx. by apply H1, H3.
  - intros interval x Hx. by apply H2, H4.
Qed.

Lemma getTableName_inj i j : getTableName i = getTableName j -> i = j.
Proof. by destruct i, j. Qed.

Lemma deletePriceHistoryBefore_spec cutoff db :
  let res := deletePriceHistoryBefore cutoff db in
  stored res.2 + res.1 = stored db
  /\ 0 <= res.1
  /\ only_removes db res.2
  /\ db_up res.2 = db_up db
  /\ candles res.2 = candles db
  /\ (db_up db = false -> res = (0, db))
  /\ (db_up db = true ->
      price_history res.2
      = filter (fun r => ~ ph_timestamp r < cutoff) (price_history db)).
Proof.
  cbn zeta. unfold deletePriceHistoryBefore.
  destruct (db_up db) eqn:Hup.
  2:{ cbn. split_and!; first [done | lia | apply only_removes_refl]. }
  cbn. unfold stored, table. cbn.
  pose proof (filter_split_length (fun r => ph_timestamp r < cutoff)
                (price_history db)).
  split_and!; try done; try lia.
  split; [apply list_subseteq_filter|]. by intros interval.
Qed.

Lemma deleteOhlcvBefore_spec interval cutoff db :
  let res := deleteOhlcvBefore interval cutoff db in
  stored res.2 + res.1 = stored db
  /\ 0 <= res.1
  /\ only_removes db res.2
  /\ db_up res.2 = db_up db
  /\ price_history res.2 = price_history db
  /\ (forall other, other <> interval ->
        table res.2 (getTableName other) = table db (getTableName other))
  /\ (db_up db = false -> res = (0, db)).
Proof.
  cbn zeta. unfold deleteOhlcvBefore, OhlcvRepository.deleteOlderThan.
  destruct (db_up db) eqn:Hup.
  2:{ cbn. split_and!; first [done | lia | apply only_removes_refl]. }
  cbn.
  pose proof (filter_split_length (fun r => candle_timestamp r < cutoff)
                (table db (getTableName interval))) as Hsplit.
  assert (forall other, other <> interval ->
            table {| db_up := true; price_history := price_history db;
                     candles :=
                       <[getTableName interval :=
                           filter (fun r => ~ candle_timestamp r < cutoff)
                             (table db (getTableName interval))]>
                         (candles db) |} (getTableName other)
            = table db (getTableName other)) as Hother.
  { intros other Hne. unfold table at 1. cbn.
    rewrite lookup_insert_ne; [done|].
    intros Heq. apply Hne. symmetry. by apply getTableName_inj. }
  assert (table {| db_up := true; price_history := price_history db;
                   candles :=
                     <[getTableName interval :=
                         filter (fun r => ~ candle_timestamp r < cutoff)
                           (table db (getTableName interval))]>
                       (candles db) |} (getTableName interval)
          = filter (fun r => ~ candle_timestamp r < cutoff)
              (table db (getTableName interval))) as Hself.
  { unfold table at 1. cbn. by rewrite lookup_insert_eq. }
  split_and!; try done; try lia.
  - unfold stored. cbn [price_history].
    destruct interval; rewrite Hself, !Hother by done; lia.
  - split; [done|]. intros other.
    destruct (decide (getTableName other = getTableName interval))
      as [->%getTableName_inj|Hne].
    + rewrite Hself. apply list_subseteq_filter.
    + rewrite Hother; [done|]. by intros ->.
Qed.

(** X28.  A retention run conserves rows: the rows the four tables hold
    after the run plus [totalDeleted] are the rows they held before; the
    run only removes rows; a table whose retention is 0 days or less is
    left as it is (0 = forever); the price history keeps exactly its rows
    from the cut-off on; and against a database that is down the run
    reports 0 deleted rows instead of failing. *)
Theorem cleanup_conserves_rows getCutoffDate startTime finished config db :
  let '(stats, db') := cleanup getCutoffDate startTime finished config db in
  stored db' + totalDeleted stats = stored db
  /\ only_removes db db'
  /\ (candles1dayDays config <= 0 ->
      table db' (getTableName I1day) = table db (getTableName I1day))
  /\ (db_up db = true ->
      0 < priceHistoryDays config ->
      price_history db'
      = filter (fun r => ~ ph_timestamp r
                            < getCutoffDate (priceHistoryDays config))
          (price_history db))
  /\ (db_up db = false -> db' = db /\ totalDeleted stats = 0).
Proof.
  unfold cleanup.
  (* price_history *)
  assert (exists d0 db0,
            (if bool_decide (0 < priceHistoryDays config)
             then deletePriceHistoryBefore
                    (getCutoffDate (priceHistoryDays config)) db
             else (0, db)) = (d0, db0)
            /\ stored db0 + d0 = stored db /\ only_removes db db0
            /\ db_up db0 = db_up db
            /\ candles db0 = candles db
            /\ (db_up db = false -> d0 = 0 /\ db0 = db)
            /\ (db_up db = true -> 0 < priceHistoryDays config ->
                price_history db0
                = filter (fun r => ~ ph_timestamp r
                                      < getCutoffDate (priceHistoryDays config))
                    (price_history db)))
    as (d0 & db0 & -> & Hs0 & Hr0 & Hup0 & Hc0 & Hdown0 & Hkeep0).
  { case_bool_decide.
    - pose proof (deletePriceHistoryBefore_spec
                    (getCutoffDate (priceHistoryDays config)) db)
        as (? & ? & ? & ? & ? & Hd & ?).
      destruct (deletePriceHistoryBefore _ db) as [d0 db0]. cbn in *.
      exists d0, db0. split_and!; try done.
      + intros Hdown. specialize (Hd Hdown). by injection Hd as -> ->.
      + intros Hup' _. auto.
    - exists 0, db.
      split_and!; first [done | lia | apply only_removes_refl]. }
  (* the three candle tables *)
  assert (forall interval days db1,
            exists d db2,
              (if bool_decide (0 < days)
               then deleteOhlcvBefore interval (getCutoffDate days) db1
               else (0, db1)) = (d, db2)
              /\ stored db2 + d = stored db1 /\ only_removes db1 db2
              /\ db_up db2 = db_up db1
              /\ price_history db2 = price_history db1
              /\ (forall other, other <> interval ->
                    table db2 (getTableName other)
                    = table db1 (getTableName other))
              /\ (days <= 0 -> db2 = db1)
              /\ (db_up db1 = false -> d = 0 /\ db2 = db1)) as Hcandles.
  { intros interval days db1. case_bool_decide.
    - pose proof (deleteOhlcvBefore_spec interval (getCutoffDate days) db1)
        as (? & ? & ? & ? & ? & ? & Hd).
      destruct (deleteOhlcvBefore _ _ db1) as [d db2]. cbn in *.
      exists d, db2. split_and!; try done.
      + intros ?. lia.
      + intros Hdown. specialize (Hd Hdown). by injection Hd as -> ->.
    - exists 0, db1.
      split_and!; first [done | lia | apply only_removes_refl]. }
  destruct (Hcandles I5min (candles5minDays config) db0)
    as (d5 & db5 & -> & Hs5 & Hr5 & Hup5 & Hph5 & Ho5 & _ & Hdown5).
  destruct (Hcandles I1hour (candles1hourDays config) db5)
    as (d60 & db60 & -> & Hs60 & Hr60 & Hup60 & Hph60 & Ho60 & _ & Hdown60).
  destruct (Hcandles I1day (candles1dayDays config) db60)
    as (dd & dbd & -> & Hsd & Hrd & Hupd & Hphd & Hod & Hzero & Hdownd).
  cbn [totalDeleted].
  split_and!.
  - lia.
  - eauto using only_removes_trans.
  - intros Hforever. rewrite (Hzero Hforever).
    rewrite Ho60, Ho5 by done.
    unfold table. by rewrite Hc0.
  - intros Hup Hdays. rewrite Hphd, Hph60, Hph5. by apply Hkeep0.
  - intros Hdown.
    destruct (Hdown0 Hdown) as [-> ->].
    destruct (Hdown5 Hdown) as [-> ->].
    destruct (Hdown60 Hdown) as [-> ->].
    destruct (Hdownd Hdown) as [-> ->]. done.
Qed.

End RetentionExtra.

(** ** Alerts: further properties *)

Module AlertsExtra.
Import AlertsService AlertsSpec.

Lemma slice_last_snoc {A} (n : nat) (l : list A) (x : A) :
  (0 < n)%nat -> last (slice_last n (l ++ [x])) = Some x.
Proof.
  intros Hn. unfold slice_last. rewrite length_app. cbn [length].
  rewrite drop_app_le by lia. by rewrite last_snoc.
Qed.

Lemma slice_last_one {A} (l : list A) (x : A) :
  last l = Some x -> slice_last 1 l = [x].
Proof.
  intros (l' & ->)%last_Some. unfold slice_last.
  rewrite length_app. cbn [length].
  replace (length l' + 1 - 1)%nat with (length l') by lia.
  by rewrite drop_app_length.
Qed.

(** What raiseAlert does when the id is not active with that severity. *)
Lemma raiseAlert_fresh config alert st :
  active st (alert_id alert) = None ->
  let st' := raiseAlert config alert st in
  objects st' = objects st ++ [alert]
  /\ activeAlerts st' !! alert_id alert = Some (length (objects st))
  /\ last (alertHistory st') = Some (length (objects st))
  /\ active st' (alert_id alert) = Some alert.
Proof.
  intros Hfresh st'. unfold st', raiseAlert.
  unfold active in Hfresh.
  destruct (activeAlerts st !! alert_id alert) as [ref|] eqn:Hactive.
  - rewrite Hfresh. cbn. rewrite lookup_insert_eq.
    split_and!; [done|done| |].
    + case_bool_decide; [apply slice_last_snoc; lia|apply last_snoc].
    + unfold active. cbn. rewrite lookup_insert_eq.
      by rewrite lookup_app_r, Nat.sub_diag.
  - cbn. rewrite lookup_insert_eq.
    split_and!; [done|done| |].
    + case_bool_decide; [apply slice_last_snoc; lia|apply last_snoc].
    + unfold active. cbn. rewrite lookup_insert_eq.
      by rewrite lookup_app_r, Nat.sub_diag.
Qed.

(** An alert whose id is active with the same severity is not raised
    again. *)
Lemma raiseAlert_duplicate config alert st existing :
  active st (alert_id alert) = Some existing ->
  alert_severity existing = alert_severity alert ->
  raiseAlert config alert st = st.
Proof.
  intros Hactive Hseverity. unfold raiseAlert. unfold active in Hactive.
  destruct (activeAlerts st !! alert_id alert) as [ref|]; [|done].
  rewrite Hactive. by rewrite bool_decide_eq_true_2.
Qed.

(** X30.  The bookkeeping of alerts: raising an alert twice in a row is
    raising it once (no second entry, no second webhook); the history
    never grows beyond 1 000 entries; an aggregator alert that is active
    stays as it is, without further webhooks, for as long as the
    aggregator reports an error count other than 0, also below the
    threshold; and resolving an alert marks the very object the history
    holds, so the history shows it resolved. *)
Theorem alert_bookkeeping config alert now st :
  active st (alert_id alert) = None ->
  (length (alertHistory st) <= 1000)%nat ->
  let raised := raiseAlert config alert st in
  let resolved := resolveAlert config (alert_id alert) now raised in
  raiseAlert config alert raised = raised
  /\ (length (alertHistory raised) <= 1000)%nat
  /\ (alert_id alert = "aggregator-failures" ->
      alert_severity alert = critical ->
      forall errors later,
        errors <> 0 -> checkAggregator config errors later raised = raised)
  /\ active resolved (alert_id alert) = None
  /\ getAlertHistory 1 resolved = [resolved_at now alert]
  /\ resolveAlert config (alert_id alert) now resolved = resolved.
Proof.
  intros Hfresh Hbound raised resolved.
  destruct (raiseAlert_fresh config alert st Hfresh)
    as (Hobjects & Hactive & Hlast & Hraised).
  fold raised in Hobjects, Hactive, Hlast, Hraised.
  assert (raiseAlert config alert raised = raised) as Hagain.
  { by apply (raiseAlert_duplicate config alert raised alert). }
  assert (objects raised !! length (objects st) = Some alert) as Hobject.
  { rewrite Hobjects. by rewrite lookup_app_r, Nat.sub_diag. }
  assert (objects resolved
          = <[length (objects st) := resolved_at now alert]> (objects raised)
          /\ activeAlerts resolved = delete (alert_id alert) (activeAlerts raised)
          /\ alertHistory resolved = alertHistory raised)
    as (Hobjects' & Hactive' & Hhistory').
  { unfold resolved, resolveAlert. rewrite Hactive, Hobject. done. }
  split_and!.
  - done.
  - unfold raised, raiseAlert. unfold active in Hfresh.
    assert ((match
               match activeAlerts st !! alert_id alert with
               | Some ref => objects st !! ref
               | None => None
               end
             with
             | Some e => bool_decide (alert_severity e = alert_severity alert)
             | None => false
             end) = false) as -> by by rewrite Hfresh.
    cbn. case_bool_decide as Hlong.
    + unfold slice_last. rewrite length_drop, length_app. cbn. lia.
    + lia.
  - intros Hid Hseverity errors later Herrors. unfold checkAggregator.
    case_bool_decide.
    + apply (raiseAlert_duplicate config _ raised alert); [|done].
      cbn. by rewrite <- Hid.
    + by rewrite bool_decide_eq_false_2.
  - unfold active. rewrite Hactive'. by rewrite lookup_delete_eq.
  - unfold getAlertHistory. rewrite Hhistory', Hobjects'.
    rewrite (slice_last_one _ _ Hlast). cbn.
    rewrite list_lookup_insert_eq; [done|].
    rewrite Hobjects, length_app. cbn. lia.
  - unfold resolveAlert at 1. rewrite Hactive'.
    by rewrite lookup_delete_eq.
Qed.

Lemma alert_bookkeeping_witness :
  getAlertHistory 1
    (resolveAlert with_webhook "aggregator-failures" 2000
       (raiseAlert with_webhook (aggregator_alert 1000) initial))
  = [resolved_at 2000 (aggregator_alert 1000)].
Proof.
  apply (alert_bookkeeping with_webhook (aggregator_alert 1000) 2000 initial).
  - reflexivity.
  - cbn. lia.
Defined.

End AlertsExtra.
